(** * ksqldb-go-client: the client and the streaming response engine

    A shallow embedding of [client.go], [response.go] and [resource.go].  Go
    values are
    embedded as follows.
    - [[]byte] is a list of bytes; the nil slice and the empty slice are both
      the empty list (the code only ever takes [len] of a slice or compares
      it with [bytes.Equal], and neither tells them apart).  A slice is
      embedded as the bytes it holds when it is handed over: the token of a
      [bufio.Scanner] is a slice of the scanner's own buffer, which the
      goroutine sends as it is and goes on scanning.  The log [calls] of a
      state holds, for each invocation of the handler, the bytes the slice
      held when it was received; they are the bytes the handler reads
      whenever the scanner leaves its buffer in place, which it does for
      every body that is [held_in_place].
    - [error] is the inductive type [Error]; an [error] that may be nil is an
      [option Error].
    - A pointer or interface that may be nil is an [option].
    - The reader goroutine and the consumer are two sequential processes that
      meet on two unbuffered channels; the whole program is a transition
      system over [World], one [Event] per step, and properties are stated
      over every schedule.
    The standard library pieces the code calls ([bufio.Scanner], [url.Parse],
    the HTTP transport, [context]) are modelled by their documented
    behaviour, or taken as parameters. *)

From Stdlib Require Import Strings.Byte.
From stdpp Require Import base tactics option list sets strings numbers gmap.

Set Default Proof Using "Type".
Set Warnings "-clear-no-such-hyp".

(** ** Bytes *)

Abbreviation bytes := (list byte).

#[global] Instance byte_eq_dec : EqDecision byte := Byte.byte_eq_dec.

(** [[]byte("...")] *)
Definition bytes_of (s : string) : bytes := String.list_byte_of_string s.

Definition NL : byte := x0a.

(** [bytes.Equal] *)
Definition bytes_Equal (a b : bytes) : bool := bool_decide (a = b).

(** ** Errors *)

Inductive Error : Type :=
| io_EOF
| context_Canceled
| context_DeadlineExceeded
| bufio_ErrTooLong
| ErrorString (msg : string)              (* errors.New(msg), or any other opaque error *)
| WrapError (msg : string) (err : Error). (* fmt.Errorf(msg + "%w", err) *)

#[global] Instance Error_eq_dec : EqDecision Error.
Proof. solve_decision. Defined.

(** [errors.Is] on a non-nil error: walk the [Unwrap] chain. *)
Fixpoint is_chain (err target : Error) : bool :=
  if bool_decide (err = target) then true
  else match err with
       | WrapError _ inner => is_chain inner target
       | _ => false
       end.

(** [errors.Is(err, target)] for a non-nil [target]: a nil [err] is not
    [target]. *)
Definition errors_Is (err : option Error) (target : Error) : bool :=
  match err with
  | None => false
  | Some e => is_chain e target
  end.

(** [fmt.Errorf(prefix + "%w", err)].  With a nil operand the verb is
    invalid and the result is a plain error that wraps nothing. *)
Definition Errorf_w (prefix : string) (err : option Error) : Error :=
  match err with
  | Some e => WrapError prefix e
  | None => ErrorString (prefix +:+ "%!w(<nil>)")
  end.

(** ** [bytes.Buffer] *)

(** The unread contents of the buffer. *)
Abbreviation Buffer := (list byte) (only parsing).

(** [bytes.MinRead] *)
Definition bytes_MinRead : nat := 512.

(** [make([]byte, n)]: a slice of LENGTH [n], zero filled. *)
Definition make_bytes (n : nat) : bytes := replicate n x00.

(** [bytes.NewBuffer(buf)]: creates and initializes a new Buffer using
    [buf] as its initial contents. *)
Definition bytes_NewBuffer (buf : bytes) : Buffer := buf.

(** [Buffer.Write]: appends, returns the length written and a nil error
    (the library documents that err is always nil). *)
Definition Buffer_Write (buf : Buffer) (p : bytes) : Buffer * nat * option Error :=
  (buf ++ p, length p, None).

(** [Buffer.Bytes] *)
Definition Buffer_Bytes (buf : Buffer) : bytes := buf.

(** response.go: [newBuffer] *)
Definition newBuffer : Buffer := bytes_NewBuffer (make_bytes bytes_MinRead).
Arguments newBuffer : simpl never.

(** response.go: [writeToBuffer] *)
Definition writeToBuffer (byt : bytes) (buf : Buffer) : Buffer * option Error :=
  let '(buf', _, err) := Buffer_Write buf byt in
  let err := match err with
             | Some e => Some (WrapError "writing response into buffer: " e)
             | None => None
             end in
  (buf', err).

(** response.go: [isOneOf] *)
Fixpoint isOneOf (e : option Error) (errs : list Error) : bool :=
  match errs with
  | [] => false
  | err :: errs' => if errors_Is e err then true else isOneOf e errs'
  end.

(** response.go: [apiDataDelimiter] *)
Definition apiDataDelimiter : bytes := [NL].

(** response.go: the guard of [filterSendDataChannel]: [byt] is sent on the
    data channel exactly when this holds.  ([byt != nil] is subsumed by
    [len(byt) != 0].) *)
Definition filterSend (byt : bytes) : bool :=
  negb (bool_decide (length byt = 0)) && negb (bytes_Equal byt apiDataDelimiter).

(** ** Contexts *)

(** A context is the background context or a cancelable child, named by the
    identifier its cancel function triggers. *)
Inductive Ctx : Type :=
| Background
| WithCancel (id : nat) (parent : Ctx).

(** A [context.CancelFunc]: the identifier of the context it cancels. *)
Definition CancelFunc := nat.

(** [<-ctx.Done()] is ready: the context or one of its ancestors has been
    canceled ([cs] lists the triggers pulled so far). *)
Fixpoint ctx_done (cs : list nat) (ctx : Ctx) : bool :=
  match ctx with
  | Background => false
  | WithCancel id parent => bool_decide (id ∈ cs) || ctx_done cs parent
  end.

(** ** [bufio.Scanner] *)

(** The part of [bufio.Scanner] that [initAsyncRead] uses.  [R] is the type
    of response bodies (an [io.Reader]), [Sc] the state of a scanner. *)
Class Bufio (R Sc : Type) := {
  bufio_NewScanner : R -> Sc;
  Scanner_Scan : Sc -> bool * Sc;      (* advance; false when scanning stopped *)
  Scanner_Bytes : Sc -> bytes;         (* the bytes of the most recent token, now *)
  Scanner_Err : Sc -> option Error;    (* first non-EOF error met *)
}.

(** The successive tokens of a scanner: [scan_run s toks s'] when [toks] are
    the tokens of [length toks] successful calls of [Scan] from [s], which
    leave the scanner in state [s']. *)
Inductive scan_run `{Bufio R Sc} : Sc -> list bytes -> Sc -> Prop :=
| scan_run_nil s : scan_run s [] s
| scan_run_cons s s1 toks s' :
    Scanner_Scan s = (true, s1) ->
    scan_run s1 toks s' ->
    scan_run s (Scanner_Bytes s1 :: toks) s'.

(** [scans s toks s']: scanning from [s] yields the tokens [toks] and then
    stops, leaving the scanner in state [s']. *)
Definition scans `{Bufio R Sc} (s : Sc) (toks : list bytes) (s' : Sc) : Prop :=
  exists s1, scan_run s toks s1 /\ Scanner_Scan s1 = (false, s').

(** *** The scanner of the standard library, with its default split function
    [bufio.ScanLines], over a body whose bytes are all known. *)

(** A reader: the bytes it delivers, the error its [Read] reports once
    they are exhausted ([io_EOF] at a clean end of stream), and whether it
    reports that error together with the last bytes (as the body of an HTTP
    response of known length does) or in a [Read] of its own. *)
Record Reader := mkReader {
  reader_data : bytes;
  reader_end : Error;
  reader_end_with_data : bool;
}.

Record LineScanner := mkLineScanner {
  ls_rest : bytes;           (* the bytes not yet scanned *)
  ls_end : Error;            (* what the reader reports after them *)
  ls_token : bytes;          (* the last token returned by split *)
  ls_err : option Error;     (* sticky error, io.EOF included *)
  ls_end_with_data : bool;   (* the reader reports its end with the last bytes *)
}.

(** [bufio.MaxScanTokenSize] *)
Definition MaxScanTokenSize : N := 65536.

(** [bufio.startBufSize], the size of the first buffer of a scanner.  The
    scanner moves the bytes it holds (to the front of its buffer, or to a
    larger buffer) only when its buffer is full or more than half of it has
    been scanned: while the whole body is at most half this size, the bytes
    of every token it has handed out stay where they are. *)
Definition bufio_startBufSize : nat := 4096.

(** The test [Scan] makes before it reads more input, its buffer being
    [buf_len] long and holding unscanned bytes from [start] to [end_]: it
    shifts them to the front of the buffer, over the tokens handed out
    before, when this holds. *)
Definition Scanner_shifts (buf_len start end_ : nat) : bool :=
  bool_decide (0 < start) &&
  (bool_decide (end_ = buf_len) || bool_decide (buf_len / 2 < start)).

(** The scanner never moves the bytes of this body. *)
Definition held_in_place (r : Reader) : Prop :=
  2 * length (reader_data r) <= bufio_startBufSize.

(** [bytes.IndexByte(data, '\n')] *)
Fixpoint index_nl (data : bytes) : option nat :=
  match data with
  | [] => None
  | c :: rest => if bool_decide (c = NL) then Some 0 else S <$> index_nl rest
  end.

(** [dropCR] drops a terminal carriage return. *)
Definition dropCR (data : bytes) : bytes :=
  match reverse data with
  | c :: front => if bool_decide (c = x0d) then reverse front else data
  | [] => data
  end.

(** The buffer of the scanner, at its largest, is full of the last line,
    which has no newline, and the end of the input has not been seen: more
    than [MaxScanTokenSize] bytes are left, or exactly that many and the
    reader reports its end in a [Read] of its own. *)
Definition last_line_too_long (s : LineScanner) : bool :=
  bool_decide (MaxScanTokenSize < N.of_nat (length (ls_rest s)))%N ||
  (bool_decide (MaxScanTokenSize = N.of_nat (length (ls_rest s))) &&
   negb (ls_end_with_data s)).

(** [Scan] with [ScanLines]: the next line without its end-of-line marker;
    at the end of the input a final line without newline is a token too; a
    line that does not fit the buffer stops the scan with [ErrTooLong]; the
    reader's error (or end of file) stops it once the input is used up. *)
Definition line_Scan (s : LineScanner) : bool * LineScanner :=
  match ls_err s with
  | Some _ =>
      (false, mkLineScanner (ls_rest s) (ls_end s) [] (ls_err s) (ls_end_with_data s))
  | None =>
      let too_long :=
        mkLineScanner (ls_rest s) (ls_end s) [] (Some bufio_ErrTooLong)
          (ls_end_with_data s) in
      match index_nl (ls_rest s) with
      | Some i =>
          if bool_decide (N.of_nat i < MaxScanTokenSize)%N
          then (true, mkLineScanner (drop (S i) (ls_rest s)) (ls_end s)
                        (dropCR (take i (ls_rest s))) None (ls_end_with_data s))
          else (false, too_long)
      | None =>
          if last_line_too_long s
          then (false, too_long)
          else match ls_rest s with
               | [] => (false, mkLineScanner [] (ls_end s) [] (Some (ls_end s))
                                 (ls_end_with_data s))
               | _ => (true, mkLineScanner [] (ls_end s) (dropCR (ls_rest s)) None
                               (ls_end_with_data s))
               end
      end
  end.

(** [Err]: "the first non-EOF error that was encountered". *)
Definition line_Err (s : LineScanner) : option Error :=
  match ls_err s with
  | Some io_EOF => None
  | e => e
  end.

#[global] Instance LineBufio : Bufio Reader LineScanner := {|
  bufio_NewScanner r :=
    mkLineScanner (reader_data r) (reader_end r) [] None (reader_end_with_data r);
  Scanner_Scan := line_Scan;
  Scanner_Bytes := ls_token;
  Scanner_Err := line_Err;
|}.

(** All the tokens of a scanner, by running it ([fuel] bounds the number of
    calls). *)
Fixpoint scan_all `{Bufio R Sc} (fuel : nat) (s : Sc) : option (list bytes * Sc) :=
  match fuel with
  | 0 => None
  | S fuel' =>
      let '(ok, s1) := Scanner_Scan s in
      if ok then
        '(toks, s') ← scan_all fuel' s1; Some (Scanner_Bytes s1 :: toks, s')
      else Some ([], s1)
  end.

(** ** The client (client.go) *)

(** A call that returns [(value, nil)] or [(zero, err)]. *)
Inductive result (A : Type) : Type :=
| Ok (a : A)
| Err (e : Error).
Arguments Ok {A} a.
Arguments Err {A} e.

(** [url.URL], the fields a server address can carry. *)
Record URL := mkURL {
  Scheme : string;
  Opaque : string;
  Host : string;
  Path : string;
  RawQuery : string;
  Fragment : string;
}.

(** [http.Transport]: the one field the client sets. *)
Record Transport := mkTransport {
  DisableCompression : bool;
}.

(** [http.DefaultTransport], as the library defines it. *)
Definition http_DefaultTransport : Transport := mkTransport false.

Record HTTPClient := mkHTTPClient {
  Transport_ : Transport;
}.

(** A callback is named; calling it is recorded (see [HookCall]). *)
Definition Hook := string.

Record ClientTrace := mkClientTrace {
  ClientTrace_ : option Hook;          (* the embedded httptrace.ClientTrace *)
  RequestPrepared : option Hook;
  ResponseDelivered : option Hook;
}.

Record ClientOptions := mkClientOptions {
  opt_URL : string;
  opt_Trace : option ClientTrace;
  opt_Context : option Ctx;
}.

(** A client, as [NewClient] builds it. *)
Record Client := mkClient {
  ctx : Ctx;
  serverURL : URL;
  httpClient : HTTPClient;
  httpTrace : option ClientTrace;
}.

Record HTTPRequest := mkHTTPRequest {
  req_Method : string;
  req_URL : string;
  req_Body : bytes;
  req_Header : list (string * string);
  req_ctx : option Ctx;                (* set by WithContext *)
  req_trace : option Hook;             (* set by httptrace.WithClientTrace *)
}.

Record HTTPResponse (R : Type) := mkHTTPResponse {
  StatusCode : nat;
  Body : R;
}.
Arguments mkHTTPResponse {R} _ _.
Arguments StatusCode {R} _.
Arguments Body {R} _.

(** The interface [Requester]: build a request for a server. *)
Record Requester := mkRequester {
  Request : URL -> result HTTPRequest;
}.

(** A channel is named by the order of its [make]. *)
Definition Chan := nat.

(** response.go: [Response]. *)
Record Response (R : Type) := mkResponse {
  Response_ : option (HTTPResponse R);   (* the embedded *http.Response *)
  Context : option Ctx;
  cancelFunc : option CancelFunc;
  once : bool;                           (* sync.Once: already done *)
  dataCh : option Chan;
  errCh : option Chan;
}.
Arguments mkResponse {R} _ _ _ _ _ _.
Arguments Response_ {R} _.
Arguments Context {R} _.
Arguments cancelFunc {R} _.
Arguments once {R} _.
Arguments dataCh {R} _.
Arguments errCh {R} _.

(** client.go: [newTransportFromDefault] *)
Definition newTransportFromDefault : Transport := http_DefaultTransport.

Section Client.
(** [url.Parse], of the standard library. *)
Variable url_Parse : string -> result URL.

(** client.go: [parseServerURL] *)
Definition parseServerURL (rawURL : string) : result URL :=
  match url_Parse rawURL with
  | Err err => Err err
  | Ok uu =>
      if bool_decide (Scheme uu = "") then
        Err (ErrorString ("url " +:+ rawURL +:+ " missing scheme"))
      else if bool_decide (Path uu ≠ "") && bool_decide (Path uu ≠ "/") then
        Err (ErrorString ("url " +:+ rawURL +:+ " should not contain path"))
      else Ok uu
  end.

(** client.go: [NewClient] *)
Definition NewClient (opts : ClientOptions) : result Client :=
  let transport := newTransportFromDefault in
  let transport := mkTransport true in
  match parseServerURL (opt_URL opts) with
  | Err err => Err (WrapError "initializing ksqldb client: " err)
  | Ok serverURL =>
      let httpClient := mkHTTPClient transport in
      let cc_ctx := match opt_Context opts with
                    | None => Background
                    | Some c => c
                    end in
      Ok (mkClient cc_ctx serverURL httpClient (opt_Trace opts))
  end.
End Client.

(** client.go: [HTTPTrace] *)
Definition HTTPTrace (cc : Client) : option ClientTrace := httpTrace cc.

(** client.go: [WithClientConfig] *)
Definition WithClientConfig (cc : Client) (c : Ctx) (req : HTTPRequest) : HTTPRequest :=
  let attach tr := mkHTTPRequest (req_Method req) (req_URL req) (req_Body req)
                     (req_Header req) (Some c) tr in
  match HTTPTrace cc with
  | Some trace =>
      match ClientTrace_ trace with
      | Some low => attach (Some low)
      | None => attach (req_trace req)
      end
  | None => attach (req_trace req)
  end.

(** What a callback was called with. *)
Inductive HookCall (R : Type) : Type :=
| CallRequestPrepared (hook : Hook) (req : HTTPRequest)
| CallResponseDelivered (hook : Hook) (resp : option (HTTPResponse R)) (err : option Error).
Arguments CallRequestPrepared {R} _ _.
Arguments CallResponseDelivered {R} _ _ _.

(** What [Do] changes outside the client: the contexts created so far and
    the callbacks called so far. *)
Record Runtime (R : Type) := mkRuntime {
  next_ctx : nat;
  hook_calls : list (HookCall R);
}.
Arguments mkRuntime {R} _ _.
Arguments next_ctx {R} _.
Arguments hook_calls {R} _.

Section Do.
Context {R : Type}.
(** [http.Client.Do]: what the network answers to a request. *)
Variable http_Do : HTTPRequest -> option (HTTPResponse R) * option Error.

(** client.go: [Do] *)
Definition Do (cc : Client) (resource : Requester) (rt : Runtime R)
  : (option (Response R) * option Error) * Runtime R :=
  match Request resource (serverURL cc) with
  | Err err => ((None, Some (WrapError "sending ksql request: " err)), rt)
  | Ok req =>
      let cancel := next_ctx rt in
      let c := WithCancel cancel (ctx cc) in
      let trace := HTTPTrace cc in
      let prepared :=
        match trace with
        | Some t => match RequestPrepared t with
                    | Some hook => [CallRequestPrepared hook req]
                    | None => []
                    end
        | None => []
        end in
      let '(resp, err) := http_Do (WithClientConfig cc c req) in
      let delivered :=
        match trace with
        | Some t => match ResponseDelivered t with
                    | Some hook => [CallResponseDelivered hook resp err]
                    | None => []
                    end
        | None => []
        end in
      let rt' := mkRuntime (S cancel) (hook_calls rt ++ prepared ++ delivered) in
      match err with
      | Some e =>
          ((Some (mkResponse None None (Some cancel) false None None),
            Some (WrapError "sending ksql request: " e)), rt')
      | None =>
          ((Some (mkResponse resp (Some c) (Some cancel) false None None), None), rt')
      end
  end.
End Do.

(** ** The streaming response engine (response.go) *)

(** *** The reader goroutine of [initAsyncRead] *)

(** What the goroutine does after a send on the data channel: the send in
    the loop goes back to the loop, the send after a failed scan goes on to
    close the channels. *)
Inductive RCont : Type := KLoop | KClose.

(** Where the goroutine stands: between two operations on shared state. *)
Inductive RPc : Type :=
| RLoop                                   (* at the select of the for loop *)
| RSendData (byt : bytes) (k : RCont)     (* blocked in dataCh <- byt *)
| RSendErr (e : Error) (flush : bool)     (* blocked in errCh <- e; flush: after a failed scan *)
| RCloseData                              (* about to close(dataCh) *)
| RCloseErr                               (* about to close(errCh) *)
| RDone                                   (* returned *)
| RPanic.                                 (* nil Context *)

Record Task (Sc : Type) := mkTask {
  t_dataCh : Chan;                (* the goroutine's two parameters *)
  t_errCh : Chan;
  t_scanner : Sc;
  t_pc : RPc;
  (* history *)
  t_units : list bytes;           (* the slices the loop gave to filterSendDataChannel *)
  t_flushed : list bytes;         (* the slice given to it after the failed scan *)
  t_sent : list bytes;            (* the completed sends on dataCh *)
  t_cond : option Error;          (* the completed send on errCh *)
}.
Arguments mkTask {Sc} _ _ _ _ _ _ _ _.
Arguments t_dataCh {Sc} _.
Arguments t_errCh {Sc} _.
Arguments t_scanner {Sc} _.
Arguments t_pc {Sc} _.
Arguments t_units {Sc} _.
Arguments t_flushed {Sc} _.
Arguments t_sent {Sc} _.
Arguments t_cond {Sc} _.

(** *** The caller of [ReadStreaming] *)

Inductive CPc : Type :=
| CInit                                       (* about to call rr.Read() *)
| CSelect (d e : option Chan)                 (* at the select *)
| CFail (herr : Error)                        (* handler failed: rr.Cancel(); return err *)
| CTerminal (d : option Chan) (err : option Error)
                                              (* received err: rr.Cancel(), then classify *)
| CDrain (d : option Chan) (err : option Error) (buf : Buffer) (derr : option Error)
                                              (* in drainDataToBytes, ranging over dataCh *)
| CReturned (res : option Error)              (* ReadStreaming returned res *)
| CPanic.                                     (* nil dereference *)

Inductive Receiver : Type := Caller | Peer.

(** *** The state of the program *)

Record World (R Sc St : Type) := mkWorld {
  rr : Response R;                 (* the handle *)
  canceled : list nat;             (* the cancel triggers pulled so far *)
  next_chan : Chan;                (* the next channel make returns *)
  closed : list Chan;              (* the channels closed so far *)
  tasks : list (Task Sc);          (* the goroutines started by initAsyncRead *)
  consumer : CPc;                  (* the caller of ReadStreaming *)
  hstate : St;                     (* the state the handler closes over *)
  (* history *)
  calls : list (bytes * option Error);      (* handler invocations and their results *)
  conds : list (option Error);              (* what the caller received on errCh *)
  drains : nat;                             (* calls of drainDataToBytes *)
  reads : list (option Chan * option Chan); (* what each Read() returned *)
  received : list (Receiver * bytes);       (* every record received from a goroutine *)
}.
Arguments mkWorld {R Sc St} _ _ _ _ _ _ _ _ _ _ _ _.
Arguments rr {R Sc St} _.
Arguments canceled {R Sc St} _.
Arguments next_chan {R Sc St} _.
Arguments closed {R Sc St} _.
Arguments tasks {R Sc St} _.
Arguments consumer {R Sc St} _.
Arguments hstate {R Sc St} _.
Arguments calls {R Sc St} _.
Arguments conds {R Sc St} _.
Arguments drains {R Sc St} _.
Arguments reads {R Sc St} _.
Arguments received {R Sc St} _.

(** One step of the program. *)
Inductive Event : Type :=
| EvTask (i : nat)        (* goroutine i runs to its next channel operation *)
| EvCaller                (* the caller runs Read() or Cancel() and what follows *)
| EvRecvData (i : nat)    (* the caller receives the record goroutine i is sending *)
| EvRecvErr (i : nat)     (* the caller receives the condition goroutine i is sending *)
| EvClosedData            (* the caller receives from the closed data channel *)
| EvClosedErr             (* the caller receives from the closed error channel *)
| EvCancel (id : nat)     (* a cancel trigger is pulled from outside *)
| EvPeerRead              (* some other caller invokes Read() *)
| EvPeerData (i : nat)    (* some other caller receives the record of goroutine i *)
| EvPeerErr (i : nat).    (* some other caller receives the condition of goroutine i *)

(** The steps of the caller, the goroutines and the contexts: no other user
    of the handle. *)
Definition own (ev : Event) : bool :=
  match ev with
  | EvPeerRead | EvPeerData _ | EvPeerErr _ => false
  | _ => true
  end.

(** The steps of the caller and the goroutines alone. *)
Definition quiet (ev : Event) : bool :=
  match ev with
  | EvCancel _ => false
  | _ => own ev
  end.

Section Engine.
Context {R Sc St : Type} `{!Bufio R Sc}.

(** The callback given to [ReadStreaming]: from its own state and a
    record, its new state and the error it returns. *)
Variable handler : St -> bytes -> St * option Error.

Local Abbreviation World := (World R Sc St).
Local Abbreviation Task := (Task Sc).

(** Field updates. *)
Definition set_pc (pc : RPc) (t : Task) : Task :=
  mkTask (t_dataCh t) (t_errCh t) (t_scanner t) pc
    (t_units t) (t_flushed t) (t_sent t) (t_cond t).
Definition set_scanner (sc : Sc) (t : Task) : Task :=
  mkTask (t_dataCh t) (t_errCh t) sc (t_pc t)
    (t_units t) (t_flushed t) (t_sent t) (t_cond t).
Definition log_unit (k : RCont) (byt : bytes) (t : Task) : Task :=
  match k with
  | KLoop => mkTask (t_dataCh t) (t_errCh t) (t_scanner t) (t_pc t)
               (t_units t ++ [byt]) (t_flushed t) (t_sent t) (t_cond t)
  | KClose => mkTask (t_dataCh t) (t_errCh t) (t_scanner t) (t_pc t)
                (t_units t) (t_flushed t ++ [byt]) (t_sent t) (t_cond t)
  end.
Definition log_sent (byt : bytes) (t : Task) : Task :=
  mkTask (t_dataCh t) (t_errCh t) (t_scanner t) (t_pc t)
    (t_units t) (t_flushed t) (t_sent t ++ [byt]) (t_cond t).
Definition log_sent_cond (e : Error) (t : Task) : Task :=
  mkTask (t_dataCh t) (t_errCh t) (t_scanner t) (t_pc t)
    (t_units t) (t_flushed t) (t_sent t) (Some e).

Definition set_rr (h : Response R) (w : World) : World :=
  mkWorld h (canceled w) (next_chan w) (closed w) (tasks w) (consumer w) (hstate w)
    (calls w) (conds w) (drains w) (reads w) (received w).
Definition add_canceled (id : nat) (w : World) : World :=
  mkWorld (rr w) (canceled w ++ [id]) (next_chan w) (closed w) (tasks w) (consumer w)
    (hstate w) (calls w) (conds w) (drains w) (reads w) (received w).
Definition set_next_chan (n : Chan) (w : World) : World :=
  mkWorld (rr w) (canceled w) n (closed w) (tasks w) (consumer w) (hstate w)
    (calls w) (conds w) (drains w) (reads w) (received w).
Definition add_closed (cl : list Chan) (w : World) : World :=
  mkWorld (rr w) (canceled w) (next_chan w) (closed w ++ cl) (tasks w) (consumer w)
    (hstate w) (calls w) (conds w) (drains w) (reads w) (received w).
Definition set_tasks (ts : list Task) (w : World) : World :=
  mkWorld (rr w) (canceled w) (next_chan w) (closed w) ts (consumer w) (hstate w)
    (calls w) (conds w) (drains w) (reads w) (received w).
Definition set_consumer (c : CPc) (w : World) : World :=
  mkWorld (rr w) (canceled w) (next_chan w) (closed w) (tasks w) c (hstate w)
    (calls w) (conds w) (drains w) (reads w) (received w).
Definition log_call (s : St) (byt : bytes) (err : option Error) (w : World) : World :=
  mkWorld (rr w) (canceled w) (next_chan w) (closed w) (tasks w) (consumer w) s
    (calls w ++ [(byt, err)]) (conds w) (drains w) (reads w) (received w).
Definition log_cond (err : option Error) (w : World) : World :=
  mkWorld (rr w) (canceled w) (next_chan w) (closed w) (tasks w) (consumer w) (hstate w)
    (calls w) (conds w ++ [err]) (drains w) (reads w) (received w).
Definition log_drain (w : World) : World :=
  mkWorld (rr w) (canceled w) (next_chan w) (closed w) (tasks w) (consumer w) (hstate w)
    (calls w) (conds w) (S (drains w)) (reads w) (received w).
Definition log_read (r : option Chan * option Chan) (w : World) : World :=
  mkWorld (rr w) (canceled w) (next_chan w) (closed w) (tasks w) (consumer w) (hstate w)
    (calls w) (conds w) (drains w) (reads w ++ [r]) (received w).
Definition log_received (who : Receiver) (byt : bytes) (w : World) : World :=
  mkWorld (rr w) (canceled w) (next_chan w) (closed w) (tasks w) (consumer w) (hstate w)
    (calls w) (conds w) (drains w) (reads w) (received w ++ [(who, byt)]).

(** *** [Cancel], [Read], [initAsyncRead] *)

(** response.go: [Cancel].  [None]: calling the nil function panics. *)
Definition Cancel (w : World) : option World :=
  match cancelFunc (rr w) with
  | None => None
  | Some id => Some (add_canceled id w)
  end.

(** response.go: [initAsyncRead], up to the [go] statement.  The boolean
    tells whether it panicked (on the nil embedded response). *)
Definition initAsyncRead (w : World) : World * bool :=
  let d := next_chan w in
  let e := S d in
  let h := rr w in
  let w := set_next_chan (S e)
             (set_rr (mkResponse (Response_ h) (Context h) (cancelFunc h) (once h)
                        (Some d) (Some e)) w) in
  match Response_ h with
  | None => (w, true)
  | Some resp =>
      let scanner := bufio_NewScanner (Body resp) in
      (set_tasks (tasks w ++ [mkTask d e scanner RLoop [] [] [] None]) w, false)
  end.

(** [sync.Once.Do]: runs [f] unless done; done afterwards, also when [f]
    panicked. *)
Definition once_Do (f : World -> World * bool) (w : World) : World * bool :=
  if once (rr w) then (w, false)
  else
    let '(w, panicked) := f w in
    let h := rr w in
    (set_rr (mkResponse (Response_ h) (Context h) (cancelFunc h) true
               (dataCh h) (errCh h)) w, panicked).

(** response.go: [Read].  [None]: it panicked. *)
Definition Read (w : World) : World * option (option Chan * option Chan) :=
  let '(w, panicked) := once_Do initAsyncRead w in
  if panicked then (w, None)
  else
    let r := (dataCh (rr w), errCh (rr w)) in
    (log_read r w, Some r).

(** *** The goroutine *)

(** The condition sent after a failed scan. *)
Definition scan_condition (sc : Sc) : Error :=
  match Scanner_Err sc with
  | None => io_EOF
  | Some err => err
  end.

(** response.go: [filterSendDataChannel], followed by [k]. *)
Definition filterSendDataChannel (byt : bytes) (k : RCont) (t : Task) : Task :=
  let t := log_unit k byt t in
  if filterSend byt then set_pc (RSendData byt k) t
  else set_pc (match k with KLoop => RLoop | KClose => RCloseData end) t.

(** One turn of the goroutine when it is not blocked on a send: the new
    state and the channels it closed. *)
Definition task_step (w : World) (t : Task) : option (Task * list Chan) :=
  match t_pc t with
  | RLoop =>
      match Context (rr w) with
      | None => Some (set_pc RPanic t, [])
      | Some c =>
          if ctx_done (canceled w) c then
            Some (set_pc (RSendErr context_Canceled false) t, [])
          else
            let '(ok, sc) := Scanner_Scan (t_scanner t) in
            let t := set_scanner sc t in
            if ok then Some (filterSendDataChannel (Scanner_Bytes sc) KLoop t, [])
            else Some (set_pc (RSendErr (scan_condition sc) true) t, [])
      end
  | RCloseData => Some (set_pc RCloseErr t, [t_dataCh t])
  | RCloseErr => Some (set_pc RDone t, [t_errCh t])
  | _ => None
  end.

(** The send on the data channel completes. *)
Definition send_data (t : Task) : option (bytes * Task) :=
  match t_pc t with
  | RSendData byt k =>
      Some (byt, set_pc (match k with KLoop => RLoop | KClose => RCloseData end)
                   (log_sent byt t))
  | _ => None
  end.

(** The send on the error channel completes; after a failed scan the
    goroutine goes on with [filterSendDataChannel(dataCh, scanner.Bytes())]. *)
Definition send_err (t : Task) : option (Error * Task) :=
  match t_pc t with
  | RSendErr e flush =>
      let t := log_sent_cond e t in
      Some (e, if flush
               then filterSendDataChannel (Scanner_Bytes (t_scanner t)) KClose t
               else set_pc RCloseData t)
  | _ => None
  end.

(** A receiver takes the record goroutine [i] is sending on channel [d]. *)
Definition recv_data (who : Receiver) (i : nat) (d : Chan) (w : World)
  : option (bytes * World) :=
  t ← tasks w !! i;
  if bool_decide (t_dataCh t = d) then
    '(byt, t') ← send_data t;
    Some (byt, log_received who byt (set_tasks (<[i:=t']> (tasks w)) w))
  else None.

(** A receiver takes the condition goroutine [i] is sending on channel [e]. *)
Definition recv_err (i : nat) (e : Chan) (w : World) : option (Error * World) :=
  t ← tasks w !! i;
  if bool_decide (t_errCh t = e) then
    '(err, t') ← send_err t;
    Some (err, set_tasks (<[i:=t']> (tasks w)) w)
  else None.

(** *** [ReadStreaming] *)

(** [handler(byt)]: the handler is applied to the bytes the slice held when
    it was received, and its call is one step.  (In the code the handler
    runs while the goroutine scans on: it reads these bytes exactly when the
    scanner leaves them in place, see [held_in_place].) *)
Definition invoke (byt : bytes) (w : World) : World * option Error :=
  let '(s, err) := handler (hstate w) byt in
  (log_call s byt err w, err).

(** [fmt.Errorf("reading response body: %w", err)] *)
Definition reading_response_body (err : option Error) : option Error :=
  Some (Errorf_w "reading response body: " err).

(** The channels the caller is waiting on. *)
Definition consumer_data (w : World) : option Chan :=
  match consumer w with
  | CSelect d _ => d
  | CDrain d _ _ _ => d
  | _ => None
  end.
Definition consumer_err (w : World) : option Chan :=
  match consumer w with
  | CSelect _ e => e
  | _ => None
  end.

(** The steps of the caller that need no partner. *)
Definition caller_step (w : World) : option World :=
  match consumer w with
  | CInit =>
      let '(w, r) := Read w in
      match r with
      | Some (d, e) => Some (set_consumer (CSelect d e) w)
      | None => Some (set_consumer CPanic w)
      end
  | CFail herr =>
      match Cancel w with
      | Some w => Some (set_consumer (CReturned (Some herr)) w)
      | None => Some (set_consumer CPanic w)
      end
  | CTerminal d err =>
      match Cancel w with
      | Some w =>
          if isOneOf err [io_EOF; context_Canceled; context_DeadlineExceeded]
          then Some (set_consumer (CDrain d err newBuffer None) (log_drain w))
          else Some (set_consumer (CReturned (reading_response_body err)) w)
      | None => Some (set_consumer CPanic w)
      end
  | _ => None
  end.

(** The caller has received [byt] from the data channel. *)
Definition on_data (byt : bytes) (w : World) : option World :=
  match consumer w with
  | CSelect d e =>
      let '(w, herr) := invoke byt w in
      match herr with
      | Some err => Some (set_consumer (CFail err) w)
      | None => Some (set_consumer (CSelect d e) w)
      end
  | CDrain d err buf _ =>
      let '(buf, derr) := writeToBuffer byt buf in
      Some (set_consumer (CDrain d err buf derr) w)
  | _ => None
  end.

(** The caller finds the data channel closed: the select receives the nil
    slice, the range loop of [drainDataToBytes] ends. *)
Definition on_data_closed (w : World) : option World :=
  match consumer w with
  | CSelect _ _ => on_data [] w
  | CDrain d err buf derr =>
      match derr with
      | Some de => Some (set_consumer (CReturned (Some de)) w)
      | None =>
          let '(w, herr) := invoke (Buffer_Bytes buf) w in
          match herr with
          | Some he => Some (set_consumer (CReturned (Some he)) w)
          | None =>
              if errors_Is err io_EOF then Some (set_consumer (CReturned None) w)
              else Some (set_consumer (CReturned (reading_response_body err)) w)
          end
      end
  | _ => None
  end.

(** The caller has received [err] from the error channel. *)
Definition on_err (err : option Error) (w : World) : World :=
  set_consumer (CTerminal (consumer_data w) err) (log_cond err w).

(** *** The transition system *)

Definition step (ev : Event) (w : World) : option World :=
  match ev with
  | EvTask i =>
      t ← tasks w !! i;
      '(t', cl) ← task_step w t;
      Some (add_closed cl (set_tasks (<[i:=t']> (tasks w)) w))
  | EvCaller => caller_step w
  | EvRecvData i =>
      d ← consumer_data w;
      '(byt, w') ← recv_data Caller i d w;
      on_data byt w'
  | EvRecvErr i =>
      e ← consumer_err w;
      '(err, w') ← recv_err i e w;
      Some (on_err (Some err) w')
  | EvClosedData =>
      d ← consumer_data w;
      if bool_decide (d ∈ closed w) then on_data_closed w else None
  | EvClosedErr =>
      e ← consumer_err w;
      if bool_decide (e ∈ closed w) then Some (on_err None w) else None
  | EvCancel id => Some (add_canceled id w)
  | EvPeerRead => Some (Read w).1
  | EvPeerData i =>
      t ← tasks w !! i;
      if bool_decide ((Some (t_dataCh t)) ∈ (reads w).*1) then
        '(_, w') ← recv_data Peer i (t_dataCh t) w; Some w'
      else None
  | EvPeerErr i =>
      t ← tasks w !! i;
      if bool_decide ((Some (t_errCh t)) ∈ (reads w).*2) then
        '(_, w') ← recv_err i (t_errCh t) w; Some w'
      else None
  end.

(** Running a schedule. *)
Fixpoint exec (sched : list Event) (w : World) : option World :=
  match sched with
  | [] => Some w
  | ev :: rest => w' ← step ev w; exec rest w'
  end.

(** A handle [h] about to be consumed by [ReadStreaming(handler)], the
    handler's state being [s]; [cs] are the cancel triggers pulled before. *)
Definition start (h : Response R) (cs : list nat) (s : St) : World :=
  mkWorld h cs 0 [] [] CInit s [] [] 0 [] [].

(** A scheduler: the first enabled step among those of the caller and of
    the first goroutine, [fuel] times. *)
Definition next_event (w : World) : option Event :=
  find (fun ev => bool_decide (is_Some (step ev w)))
    [EvCaller; EvRecvData 0; EvRecvErr 0; EvClosedData; EvTask 0].

Fixpoint run (fuel : nat) (w : World) : list Event * World :=
  match fuel with
  | 0 => ([], w)
  | S fuel' =>
      match consumer w with
      | CReturned _ | CPanic => ([], w)
      | _ =>
          match next_event w with
          | Some ev =>
              match step ev w with
              | Some w' => let '(evs, w'') := run fuel' w' in (ev :: evs, w'')
              | None => ([], w)
              end
          | None => ([], w)
          end
      end
  end.
End Engine.

(** *** What holds of every reachable state *)

Section Invariants.
Context {R Sc St : Type} `{!Bufio R Sc}.
Variable handler : St -> bytes -> St * option Error.

Local Abbreviation World := (World R Sc St).
Local Abbreviation Task := (Task Sc).

(** The record a goroutine is blocked sending. *)
Definition pending (pc : RPc) : list bytes :=
  match pc with
  | RSendData byt _ => [byt]
  | _ => []
  end.

(** The channels a goroutine has closed. *)
Definition closed_of (t : Task) : list Chan :=
  match t_pc t with
  | RCloseErr => [t_dataCh t]
  | RDone => [t_dataCh t; t_errCh t]
  | _ => []
  end.

(** The goroutine has seen its context done at the select. *)
Definition observed_cancel (cs : list nat) (c : option Ctx) : Prop :=
  exists x, c = Some x /\ ctx_done cs x = true.

(** The goroutine left the loop because it saw its context done: it
    published [context.Canceled] and scanned nothing since. *)
Definition stopped_by_cancel (cs : list nat) (c : option Ctx) (s0 : Sc) (t : Task) : Prop :=
  t_cond t = Some context_Canceled /\ t_flushed t = [] /\
  scan_run s0 (t_units t) (t_scanner t) /\ observed_cancel cs c.

(** The goroutine left the loop because a scan failed: it published the
    scanner's error (or [io.EOF]) and gave the scanner's last token to
    [filterSendDataChannel]. *)
Definition stopped_by_scan (s0 : Sc) (t : Task) : Prop :=
  t_cond t = Some (scan_condition (t_scanner t)) /\
  t_flushed t = [Scanner_Bytes (t_scanner t)] /\
  scans s0 (t_units t) (t_scanner t).

(** The goroutine started on a scanner in state [s0], under the context [c]
    and the cancel triggers [cs]. *)
Definition task_ok (cs : list nat) (c : option Ctx) (s0 : Sc) (t : Task) : Prop :=
  t_sent t ++ pending (t_pc t) = List.filter filterSend (t_units t ++ t_flushed t) /\
  match t_pc t with
  | RLoop | RSendData _ KLoop | RPanic =>
      t_cond t = None /\ t_flushed t = [] /\ scan_run s0 (t_units t) (t_scanner t)
  | RSendErr e true =>
      t_cond t = None /\ t_flushed t = [] /\ scans s0 (t_units t) (t_scanner t) /\
      e = scan_condition (t_scanner t)
  | RSendErr e false =>
      t_cond t = None /\ t_flushed t = [] /\ scan_run s0 (t_units t) (t_scanner t) /\
      e = context_Canceled /\ observed_cancel cs c
  | RSendData _ KClose => stopped_by_scan s0 t
  | RCloseData | RCloseErr | RDone => stopped_by_cancel cs c s0 t \/ stopped_by_scan s0 t
  end.

(** The channels the caller holds are those of the handle. *)
Definition caller_chans_ok (pc : CPc) : Prop :=
  match pc with
  | CSelect d e => d = Some 0 /\ e = Some 1
  | CTerminal d _ | CDrain d _ _ _ => d = Some 0
  | _ => True
  end.

(** What holds after any schedule from [start h cs s], whoever else uses the
    handle. *)
Definition world_ok (h : Response R) (w : World) : Prop :=
  Response_ (rr w) = Response_ h /\ Context (rr w) = Context h /\
  cancelFunc (rr w) = cancelFunc h /\ caller_chans_ok (consumer w) /\
  ((once (rr w) = false /\ dataCh (rr w) = None /\ errCh (rr w) = None /\
    next_chan w = 0 /\ tasks w = [] /\ reads w = [] /\ closed w = [] /\
    received w = [] /\ consumer w = CInit) \/
   (once (rr w) = true /\ dataCh (rr w) = Some 0 /\ errCh (rr w) = Some 1 /\
    next_chan w = 2 /\ Forall (fun r => r = (Some 0, Some 1)) (reads w) /\
    ((Response_ h = None /\ tasks w = [] /\ closed w = [] /\ received w = []) \/
     (exists resp t, Response_ h = Some resp /\ tasks w = [t] /\
        t_dataCh t = 0 /\ t_errCh t = 1 /\ closed w = closed_of t /\
        (received w).*2 = t_sent t /\
        task_ok (canceled w) (Context h) (bufio_NewScanner (Body resp)) t)))).

(** The handler accepts the records [recs] one after the other, from state
    [s]: its state afterwards. *)
Fixpoint accepts (s : St) (recs : list bytes) : option St :=
  match recs with
  | [] => Some s
  | byt :: recs' =>
      match handler s byt with
      | (s', None) => accepts s' recs'
      | (_, Some _) => None
      end
  end.

(** Invocations that returned nil. *)
Definition oks (recs : list bytes) : list (bytes * option Error) :=
  map (fun byt => (byt, None)) recs.

(** The handler accepted all the records received but the last, on which it
    returned [herr]. *)
Definition failed_on (s0 : St) (sent : list bytes) (herr : Error) (w : World) : Prop :=
  exists recs byt s1,
    sent = recs ++ [byt] /\ accepts s0 recs = Some s1 /\
    handler s1 byt = (hstate w, Some herr) /\ calls w = oks recs ++ [(byt, Some herr)].

(** The conditions after which [ReadStreaming] drains. *)
Definition recoverable (err : option Error) : bool :=
  isOneOf err [io_EOF; context_Canceled; context_DeadlineExceeded].

(** What [ReadStreaming] returns after the drain, the handler having returned
    [hres] on the drained bytes and [err] being the condition received. *)
Definition drained_result (err : option Error) (hres : option Error) : option Error :=
  match hres with
  | Some he => Some he
  | None => if errors_Is err io_EOF then None else reading_response_body err
  end.

(** [ReadStreaming] returned because the handler failed on a record. *)
Definition ret_failed (s0 : St) (w : World) (t : Task) (res : option Error) : Prop :=
  exists herr, res = Some herr /\ t_cond t = None /\ conds w = [] /\ drains w = 0 /\
               failed_on s0 (t_sent t) herr w.

(** [ReadStreaming] returned on a condition it does not drain for. *)
Definition ret_unrecoverable (s0 : St) (w : World) (t : Task) (res : option Error) : Prop :=
  exists e, t_cond t = Some e /\ conds w = [Some e] /\ recoverable (Some e) = false /\
            drains w = 0 /\ accepts s0 (t_sent t) = Some (hstate w) /\
            calls w = oks (t_sent t) /\
            t_sent t = List.filter filterSend (t_units t) /\
            res = reading_response_body (Some e).

(** [ReadStreaming] returned after the drain. *)
Definition ret_drained (s0 : St) (w : World) (t : Task) (res : option Error) : Prop :=
  exists e D s1 hres,
    t_cond t = Some e /\ conds w = [Some e] /\ recoverable (Some e) = true /\
    drains w = 1 /\ t_sent t = List.filter filterSend (t_units t) ++ D /\
    t_dataCh t ∈ closed w /\
    accepts s0 (List.filter filterSend (t_units t)) = Some s1 /\
    handler s1 (newBuffer ++ concat D) = (hstate w, hres) /\
    calls w = oks (List.filter filterSend (t_units t)) ++ [(newBuffer ++ concat D, hres)] /\
    res = drained_result (Some e) hres.

(** The caller of [ReadStreaming(handler)], started with the handler in
    state [s0] on a handle whose cancel trigger is [cid], against the one
    goroutine [t], when nobody else uses the handle. *)
Definition caller_ok (cid : nat) (s0 : St) (w : World) (t : Task) : Prop :=
  match consumer w with
  | CInit | CPanic => False
  | CSelect _ _ =>
      t_cond t = None /\ conds w = [] /\ drains w = 0 /\
      accepts s0 (t_sent t) = Some (hstate w) /\ calls w = oks (t_sent t)
  | CFail herr =>
      t_cond t = None /\ conds w = [] /\ drains w = 0 /\ failed_on s0 (t_sent t) herr w
  | CTerminal _ err =>
      exists e, err = Some e /\ t_cond t = Some e /\ conds w = [Some e] /\ drains w = 0 /\
                accepts s0 (t_sent t) = Some (hstate w) /\ calls w = oks (t_sent t) /\
                t_sent t = List.filter filterSend (t_units t)
  | CDrain _ err buf derr =>
      exists e D, err = Some e /\ t_cond t = Some e /\ conds w = [Some e] /\
                  drains w = 1 /\ recoverable err = true /\ derr = None /\
                  cid ∈ canceled w /\
                  t_sent t = List.filter filterSend (t_units t) ++ D /\
                  buf = newBuffer ++ concat D /\
                  accepts s0 (List.filter filterSend (t_units t)) = Some (hstate w) /\
                  calls w = oks (List.filter filterSend (t_units t))
  | CReturned res =>
      cid ∈ canceled w /\
      (ret_failed s0 w t res \/ ret_unrecoverable s0 w t res \/ ret_drained s0 w t res)
  end.

(** What holds after any schedule of [own] steps from [start h cs s0]. *)
Definition own_ok (cid : nat) (s0 : St) (w : World) : Prop :=
  (tasks w = [] /\ once (rr w) = false /\ consumer w = CInit /\ calls w = [] /\
   conds w = [] /\ drains w = 0 /\ hstate w = s0) \/
  (exists t, tasks w = [t] /\ caller_ok cid s0 w t).
End Invariants.

(** *** A goroutine that saw its context done *)

Section Leaving.
Context {Sc : Type}.

End Leaving.

(** *** [ReadAll] *)

(** response.go: the callback [ReadAll] gives to [ReadStreaming]; the state
    it closes over is the buffer [ReadAll] made with [newBuffer]. *)
Definition ReadAll_handler (buf : Buffer) (byt : bytes) : Buffer * option Error :=
  writeToBuffer byt buf.

(** response.go: [ReadAll] on the handle [h]: it starts [ReadStreaming] with
    a new buffer, ... *)
Definition ReadAll_start {R Sc : Type} (h : Response R) (cs : list nat)
  : World R Sc Buffer :=
  start h cs newBuffer.

(** ... and once [ReadStreaming] has returned [serr], returns
    [buf.Bytes(), serr]. *)
Definition ReadAll_result {R Sc : Type} (w : World R Sc Buffer)
  : option (bytes * option Error) :=
  match consumer w with
  | CReturned serr => Some (Buffer_Bytes (hstate w), serr)
  | _ => None
  end.

(** [ReadAll] under the scheduler [run]. *)
Definition ReadAll `{Bufio R Sc} (fuel : nat) (h : Response R) (cs : list nat)
  : option (bytes * option Error) :=
  ReadAll_result (run ReadAll_handler fuel (ReadAll_start h cs)).2.

(** *** Sample inputs *)

(** The state after a schedule (the initial state if the schedule cannot
    run). *)
Definition after `{Bufio R Sc} {St : Type} (handler : St -> bytes -> St * option Error)
    (sched : list Event) (w : World R Sc St) : World R Sc St :=
  default w (exec handler sched w).

(** The bodies "a\nb\nc\n" and "a\nb". *)
Definition body_abc : bytes :=
  bytes_of "a" ++ [NL] ++ bytes_of "b" ++ [NL] ++ bytes_of "c" ++ [NL].
Definition body_ab : bytes := bytes_of "a" ++ [NL] ++ bytes_of "b".

(** The handle [Do] returns for a successful exchange whose body delivers
    [data] and reports [e] with the last of it. *)
Definition live_handle (data : bytes) (e : Error) : Response Reader :=
  mkResponse (Some (mkHTTPResponse 200 (mkReader data e true)))
    (Some (WithCancel 0 Background)) (Some 0) false None None.

(** The handle [Do] returns after a transport failure. *)
Definition failed_handle (cancel : CancelFunc) : Response Reader :=
  mkResponse None None (Some cancel) false None None.

(** A handler that accepts every record, and one that fails on [bad]. *)
Definition accept_all (s : unit) (byt : bytes) : unit * option Error := (s, None).
Definition reject (bad : bytes) (s : unit) (byt : bytes) : unit * option Error :=
  (s, if bool_decide (byt = bad) then Some (ErrorString "rejected") else None).

(** Schedules: two callers of [Read] sharing the records of "a\nb"; the
    context canceled from outside after the first record of "a\nb\nc\n". *)
Definition sched_two_readers : list Event :=
  [EvCaller; EvPeerRead; EvTask 0; EvPeerData 0; EvTask 0; EvRecvData 0; EvTask 0;
   EvRecvErr 0; EvCaller; EvTask 0; EvClosedData; EvTask 0].

(** The schedule of [ReadStreaming] to its return on the body "a\nb"; and
    the one on which the handler fails on the second record. *)
Definition sched_streamed : list Event :=
  [EvCaller; EvTask 0; EvRecvData 0; EvTask 0; EvRecvData 0; EvTask 0; EvRecvErr 0;
   EvCaller; EvTask 0; EvClosedData].
Definition sched_rejected : list Event :=
  [EvCaller; EvTask 0; EvRecvData 0; EvTask 0; EvRecvData 0; EvCaller].

(** A server address, a client on it with both callbacks set, a requester
    that builds a request and one that fails, a network that fails. *)
Definition sample_URL : URL := mkURL "http" "" "0.0.0.0:8088" "" "" "".
Definition sample_client : Client :=
  mkClient Background sample_URL (mkHTTPClient (mkTransport true))
    (Some (mkClientTrace None (Some "logRequest") (Some "logResponse"))).
Definition sample_request : HTTPRequest :=
  mkHTTPRequest "POST" "http://0.0.0.0:8088/ksql" (bytes_of "{}") [] None None.
Definition good_requester : Requester := mkRequester (fun _ => Ok sample_request).
Definition bad_requester : Requester :=
  mkRequester (fun _ => Err (ErrorString "ksql request: creating HTTP request")).
Definition network_down (req : HTTPRequest) : option (HTTPResponse Reader) * option Error :=
  (None, Some (ErrorString "connection refused")).

(** The schedule of [ReadStreaming] to its return when the context was
    canceled before it started; the one on a body whose first line is too
    long; a body of one line of [bufio.MaxScanTokenSize] bytes and one more. *)
Definition sched_precanceled : list Event :=
  [EvCaller; EvTask 0; EvRecvErr 0; EvCaller; EvTask 0; EvClosedData].
Definition sched_too_long : list Event := [EvCaller; EvTask 0; EvRecvErr 0; EvCaller].
Definition long_line : bytes := replicate (S (N.to_nat MaxScanTokenSize)) x61.

(** *** [ReadStreaming] called again *)

Section Again.
Context {R Sc St : Type}.

(** A second call of [ReadStreaming] on the same handle: the caller starts
    over; the handle, the goroutine and the channels are as the first call
    left them. *)
Definition ReadStreaming_again (w : World R Sc St) : World R Sc St :=
  set_consumer CInit w.

(** [fmt.Errorf("reading response body: %w", err)] for the nil [err] a
    closed error channel delivers. *)
Definition reading_nil : Error := Errorf_w "reading response body: " None.

(** The second call, started in [w] after the goroutine has returned, in
    state [w2]: it has invoked the handler on the nil record only, [n]
    times. *)
Definition again_ok (w w2 : World R Sc St) : Prop :=
  tasks w2 = tasks w /\ drains w2 = drains w /\
  exists n,
    match consumer w2 with
    | CInit => n = 0 /\ calls w2 = calls w /\ conds w2 = conds w
    | CSelect d e =>
        d = Some 0 /\ e = Some 1 /\
        calls w2 = calls w ++ oks (replicate n []) /\ conds w2 = conds w
    | CFail herr =>
        calls w2 = calls w ++ oks (replicate n []) ++ [([], Some herr)] /\
        conds w2 = conds w
    | CTerminal d err =>
        err = None /\ calls w2 = calls w ++ oks (replicate n []) /\
        conds w2 = conds w ++ [None]
    | CReturned r =>
        (exists herr, r = Some herr /\
           calls w2 = calls w ++ oks (replicate n []) ++ [([], Some herr)] /\
           conds w2 = conds w) \/
        (r = Some reading_nil /\ calls w2 = calls w ++ oks (replicate n []) /\
         conds w2 = conds w ++ [None])
    | CDrain _ _ _ _ | CPanic => False
    end.
End Again.

(** The schedule of [sched_streamed] followed by the last turn of the
    goroutine, to its return. *)
Definition sched_finished : list Event := sched_streamed ++ [EvTask 0].

(** *** Contexts of the exchanges *)

(** The cancel triggers a context listens to: its own and its ancestors'. *)
Fixpoint ctx_ids (c : Ctx) : list nat :=
  match c with
  | Background => []
  | WithCancel id parent => id :: ctx_ids parent
  end.

(** [context.WithCancel] gives a trigger nobody holds yet: the triggers of
    the client's context were all made before. *)
Definition fresh_for {R : Type} (rt : Runtime R) (c : Ctx) : Prop :=
  forall id, id ∈ ctx_ids c -> id < next_ctx rt.

(** A network that answers every request with the body "a\nb". *)
Definition network_up (req : HTTPRequest) : option (HTTPResponse Reader) * option Error :=
  (Some (mkHTTPResponse 200 (mkReader body_ab io_EOF true)), None).

(** ** Resources (resource.go, endpoint.go) *)

(** resource.go: [Payload], the JSON body of a statement or query. *)
Record Payload := mkPayload {
  Ksql : string;
  Props : list (string * string);
  Seq : Z;
}.

(** endpoint.go: [Endpoint] embeds the URL of its path. *)
Record Endpoint := mkEndpoint {
  Endpoint_URL : URL;
}.

(** endpoint.go: [newEndpoint]; [url.Parse] of a rooted path gives a URL that
    has this path and nothing else. *)
Definition newEndpoint (path : string) : Endpoint := mkEndpoint (mkURL "" "" "" path "" "").

Definition EndpointStatusQuery : Endpoint := newEndpoint "/status".
Definition EndpointStatusServer : Endpoint := newEndpoint "/info".
Definition EndpointRunStatement : Endpoint := newEndpoint "/ksql".
Definition EndpointRunQuery : Endpoint := newEndpoint "/query".
Definition EndpointRunStreamQuery : Endpoint := newEndpoint "/query-stream".
Definition EndpointTerminate : Endpoint := newEndpoint "/ksql/terminate".

(** resource.go: [Resource], with its payload and endpoint set, as
    [NewStatement] and [NewQuery] make it.  [Headers] is a Go map. *)
Record Resource := mkResource {
  res_Payload : Payload;
  res_Endpoint : Endpoint;
  res_Method : string;
  res_Headers : gmap string string;
  res_APIVersion : string;
}.

(** resource.go: [DefaultHeaders].  (The resources of [NewStatement] and
    [NewQuery] all refer to this one map; the embedding gives each its
    value.) *)
Definition DefaultHeaders : gmap string string :=
  <["Content-Type" := "application/vnd.ksql.v1+json; charset=utf-8"]>
    (<["Accept" := "application/vnd.ksql.v1+json"]> ∅).

(** [http.MethodPost] *)
Definition http_MethodPost : string := "POST".

(** resource.go: [NewStatement], [NewQuery] *)
Definition NewStatement (ksql : string) : Resource :=
  mkResource (mkPayload ksql [] 0) EndpointRunStatement http_MethodPost DefaultHeaders "v1".
Definition NewQuery (ksql : string) : Resource :=
  mkResource (mkPayload ksql [] 0) EndpointRunQuery http_MethodPost DefaultHeaders "v1".

(** The value stored under a key of an [http.Header]. *)
Fixpoint header_lookup (k : string) (h : list (string * string)) : option string :=
  match h with
  | [] => None
  | (k', v) :: h' => if bool_decide (k' = k) then Some v else header_lookup k h'
  end.

Section Resource.
(** The standard library: [json.Marshal] of a payload, [http.NewRequest],
    [URL.ResolveReference], [URL.String], [textproto.CanonicalMIMEHeaderKey],
    and the order in which a [range] loop visits the entries of a map. *)
Variable json_Marshal : Payload -> result bytes.
Variable http_NewRequest : string -> string -> bytes -> result HTTPRequest.
Variable URL_ResolveReference : URL -> URL -> URL.
Variable URL_String : URL -> string.
Variable CanonicalMIMEHeaderKey : string -> string.
Variable range : gmap string string -> list (string * string).

(** [Header.Set]: the canonical key holds this value and no other. *)
Definition Header_Set (key value : string) (req : HTTPRequest) : HTTPRequest :=
  let k := CanonicalMIMEHeaderKey key in
  mkHTTPRequest (req_Method req) (req_URL req) (req_Body req)
    ((k, value) :: List.filter (fun p => negb (bool_decide (p.1 = k))) (req_Header req))
    (req_ctx req) (req_trace req).

(** [Header.Get] *)
Definition Header_Get (key : string) (req : HTTPRequest) : option string :=
  header_lookup (CanonicalMIMEHeaderKey key) (req_Header req).

(** The loop [for name, value := range headers { req.Header.Set(name, value) }],
    [visited] being the entries in the order the loop visits them. *)
Definition set_headers (visited : list (string * string)) (req : HTTPRequest) : HTTPRequest :=
  foldl (fun r p => Header_Set p.1 p.2 r) req visited.

(** resource.go: [createRequest] *)
Definition createRequest (method url : string) (payload : Payload)
    (headers : gmap string string) : result HTTPRequest :=
  match json_Marshal payload with
  | Err err => Err (WrapError "ksql request: unmarshaling query: " err)
  | Ok byt =>
      match http_NewRequest method url (Buffer_Bytes (bytes_NewBuffer byt)) with
      | Err err => Err (WrapError "ksql request: creating HTTP request: " err)
      | Ok req => Ok (set_headers (range headers) req)
      end
  end.

(** resource.go: [MarshalJSON] *)
Definition MarshalJSON (rr : Resource) : result bytes := json_Marshal (res_Payload rr).

(** endpoint.go: [On] *)
Definition On (ep : Endpoint) (host : URL) : URL :=
  URL_ResolveReference host (Endpoint_URL ep).

(** resource.go: [Request] *)
Definition Resource_Request (rr : Resource) (serverURL : URL) : result HTTPRequest :=
  createRequest (res_Method rr) (URL_String (On (res_Endpoint rr) serverURL))
    (res_Payload rr) (res_Headers rr).

(** A resource as a [Requester]. *)
Definition Resource_Requester (rr : Resource) : Requester :=
  mkRequester (Resource_Request rr).
End Resource.

(** Stand-ins for the library, for sample runs: a marshaller, a request
    constructor, reference resolution for a rooted path, the text of a URL,
    header names already canonical. *)
Definition sample_Marshal (p : Payload) : result bytes :=
  Ok (bytes_of "{" ++ bytes_of (Ksql p) ++ bytes_of "}").
Definition sample_NewRequest (method url : string) (body : bytes) : result HTTPRequest :=
  Ok (mkHTTPRequest method url body [] None None).
Definition sample_Resolve (host ref : URL) : URL :=
  mkURL (Scheme host) "" (Host host) (Path ref) "" "".
Definition sample_String (u : URL) : string := Scheme u +:+ "://" +:+ Host u +:+ Path u.
Definition sample_canon (k : string) : string := k.

(** * Properties *)

Lemma ctx_done_mono cs cs' ctx :
  cs ⊆ cs' -> ctx_done cs ctx = true -> ctx_done cs' ctx = true.
Proof.
  intros Hsub. induction ctx as [|id parent IH]; simpl; [done|].
  rewrite !orb_true_iff, !bool_decide_eq_true. intros [Hin|Hp]; [left|right]; auto.
Qed.

(** ** The client *)

Section ClientFacts.
Variable url_Parse : string -> result URL.

Lemma parseServerURL_ok rawURL uu :
  parseServerURL url_Parse rawURL = Ok uu <->
  url_Parse rawURL = Ok uu /\ Scheme uu <> "" /\ (Path uu = "" \/ Path uu = "/").
Proof.
  unfold parseServerURL. destruct (url_Parse rawURL) as [u|e]; [|naive_solver].
  destruct (decide (Scheme u = "")) as [Hs|Hs].
  { rewrite bool_decide_eq_true_2 by done. naive_solver. }
  rewrite bool_decide_eq_false_2 by done.
  destruct (decide (Path u = "")) as [Hp|Hp].
  { rewrite (bool_decide_eq_false_2 (Path u <> "")) by naive_solver. simpl. naive_solver. }
  rewrite (bool_decide_eq_true_2 (Path u <> "")) by done.
  destruct (decide (Path u = "/")) as [Hr|Hr].
  { rewrite (bool_decide_eq_false_2 (Path u <> "/")) by naive_solver. simpl. naive_solver. }
  rewrite (bool_decide_eq_true_2 (Path u <> "/")) by done. simpl. naive_solver.
Qed.

Lemma NewClient_ok opts cc :
  NewClient url_Parse opts = Ok cc <->
  parseServerURL url_Parse (opt_URL opts) = Ok (serverURL cc) /\
  cc = mkClient (default Background (opt_Context opts)) (serverURL cc)
         (mkHTTPClient (mkTransport true)) (opt_Trace opts).
Proof.
  unfold NewClient. destruct (parseServerURL _ _) as [u|e]; [|naive_solver].
  split.
  - intros [= <-]. simpl. by destruct (opt_Context opts).
  - intros [[= ->] ->]. simpl. by destruct (opt_Context opts).
Qed.

(** C9.  [NewClient] returns an error and no client exactly when the base
    URL does not parse, or parses without a scheme, or parses with a path
    that is neither empty nor "/"; it returns a client (holding the parsed
    URL) exactly when the base URL parses with a scheme and an empty or
    root path. *)
Theorem NewClient_fails_exactly (opts : ClientOptions) :
  ((exists e, NewClient url_Parse opts = Err e) <->
   match url_Parse (opt_URL opts) with
   | Err _ => True
   | Ok uu => Scheme uu = "" \/ (Path uu <> "" /\ Path uu <> "/")
   end) /\
  ((exists cc, NewClient url_Parse opts = Ok cc) <->
   exists uu, url_Parse (opt_URL opts) = Ok uu /\ Scheme uu <> "" /\
              (Path uu = "" \/ Path uu = "/")) /\
  (forall cc, NewClient url_Parse opts = Ok cc ->
              url_Parse (opt_URL opts) = Ok (serverURL cc)).
Proof.
  assert (Hok : (exists cc, NewClient url_Parse opts = Ok cc) <->
                exists uu, url_Parse (opt_URL opts) = Ok uu /\ Scheme uu <> "" /\
                           (Path uu = "" \/ Path uu = "/")).
  { split.
    - intros [cc Hcc]. apply NewClient_ok in Hcc as [Hp _].
      apply parseServerURL_ok in Hp. eauto.
    - intros (uu & Hp). apply parseServerURL_ok in Hp.
      unfold NewClient. rewrite Hp. eauto. }
  split; [|split; [exact Hok|]].
  - split.
    + intros [e He]. destruct (url_Parse (opt_URL opts)) as [uu|e'] eqn:Hu; [|done].
      destruct (decide (Scheme uu = "")) as [|Hs]; [by left|right].
      destruct (decide (Path uu = "")) as [Hp|Hp].
      { exfalso. destruct Hok as [_ Hok]. destruct Hok as [cc Hcc]; [by eauto 6|].
        congruence. }
      destruct (decide (Path uu = "/")) as [Hp'|Hp']; [|done].
      exfalso. destruct Hok as [_ Hok]. destruct Hok as [cc Hcc]; [by eauto 6|].
      congruence.
    + intros Hbad. destruct (NewClient url_Parse opts) as [cc|e] eqn:Hn; [|by eauto].
      exfalso. destruct Hok as [Hok _]. destruct Hok as (uu & Hu & Hs & Hp); [by eauto|].
      rewrite Hu in Hbad. naive_solver.
  - intros cc Hcc. apply NewClient_ok in Hcc as [Hp _].
    by apply parseServerURL_ok in Hp as [? _].
Qed.
End ClientFacts.

(** ** The scanner *)

Section ScannerFacts.
Context {R Sc : Type} `{!Bufio R Sc}.

Lemma scan_run_snoc (s0 s s' : Sc) toks :
  scan_run s0 toks s -> Scanner_Scan s = (true, s') ->
  scan_run s0 (toks ++ [Scanner_Bytes s']) s'.
Proof.
  induction 1 as [s|s s1 toks s2 Hs _ IH]; intros Hnext; simpl.
  - eapply scan_run_cons; [done|]. constructor.
  - eapply scan_run_cons; [done|]. by apply IH.
Qed.

Lemma scan_run_app (s0 s1 s2 : Sc) toks toks' :
  scan_run s0 toks s1 -> scan_run s1 toks' s2 -> scan_run s0 (toks ++ toks') s2.
Proof.
  induction 1 as [s|s sa toks sb Hs _ IH]; intros Hrest; simpl; [done|].
  eapply scan_run_cons; [done|]. by apply IH.
Qed.

(** A scanner is a function: its runs of the same length agree. *)
Lemma scan_run_det (s0 s1 s2 : Sc) toks1 toks2 :
  scan_run s0 toks1 s1 -> scan_run s0 toks2 s2 -> length toks1 = length toks2 ->
  toks1 = toks2 /\ s1 = s2.
Proof.
  intros H1. revert toks2 s2.
  induction H1 as [s|s sa toks sb Hs _ IH]; intros toks2 s2 H2 Hlen.
  - destruct toks2; [|done]. by inversion H2.
  - inversion H2 as [|? sa' toks' ? Hs' Hrun']; subst; [done|].
    rewrite Hs in Hs'. injection Hs' as <-.
    destruct (IH _ _ Hrun') as [-> ->]; [simpl in Hlen; lia|done].
Qed.

(** A run that ends on a failed scan cannot be extended. *)
Lemma scans_longest (s0 s1 s2 : Sc) toks1 toks2 :
  scans s0 toks1 s1 -> scan_run s0 toks2 s2 -> length toks2 <= length toks1.
Proof.
  intros (sa & Hrun & Hfail). revert toks2 s2.
  induction Hrun as [s|s sb toks sc Hs _ IH]; intros toks2 s2 H2.
  - inversion H2; subst; [done|]. congruence.
  - inversion H2 as [|? sb' toks' ? Hs' Hrun']; subst; [simpl; lia|].
    rewrite Hs in Hs'. injection Hs' as <-. simpl.
    specialize (IH Hfail _ _ Hrun'). lia.
Qed.

Lemma scans_det (s0 s1 s2 : Sc) toks1 toks2 :
  scans s0 toks1 s1 -> scans s0 toks2 s2 -> toks1 = toks2 /\ s1 = s2.
Proof.
  intros H1 H2.
  assert (length toks1 = length toks2) as Hlen.
  { destruct H1 as (sa & Ha & Hfa), H2 as (sb & Hb & Hfb).
    pose proof (scans_longest s0 s1 sb toks1 toks2 (ex_intro _ _ (conj Ha Hfa)) Hb).
    pose proof (scans_longest s0 s2 sa toks2 toks1 (ex_intro _ _ (conj Hb Hfb)) Ha).
    lia. }
  destruct H1 as (sa & Ha & Hfa), H2 as (sb & Hb & Hfb).
  destruct (scan_run_det _ _ _ _ _ Ha Hb Hlen) as [-> ->].
  split; [done|congruence].
Qed.

Lemma scan_all_scans fuel (s s' : Sc) toks :
  scan_all fuel s = Some (toks, s') -> scans s toks s'.
Proof.
  revert s toks s'. induction fuel as [|fuel IH]; intros s toks s'; simpl; [done|].
  destruct (Scanner_Scan s) as [[] s1] eqn:Hs.
  - destruct (scan_all fuel s1) as [[toks1 s2]|] eqn:Hall; simpl; [|done].
    intros [= <- <-]. destruct (IH _ _ _ Hall) as (sa & Hrun & Hfail).
    exists sa. split; [|done]. by eapply scan_run_cons.
  - intros [= <- <-]. exists s. split; [constructor|done].
Qed.
End ScannerFacts.

(** ** The goroutine *)

Section TaskFacts.
Context {R Sc St : Type} `{!Bufio R Sc}.

Local Abbreviation World := (World R Sc St).
Local Abbreviation Task := (Task Sc).

Lemma observed_cancel_mono cs cs' c :
  cs ⊆ cs' -> observed_cancel cs c -> observed_cancel cs' c.
Proof. intros Hsub (x & -> & Hd). exists x. eauto using ctx_done_mono. Qed.

Lemma task_ok_mono cs cs' c (s0 : Sc) (t : Task) :
  cs ⊆ cs' -> task_ok cs c s0 t -> task_ok cs' c s0 t.
Proof.
  intros Hsub [Hsent Hpc]. split; [done|].
  unfold stopped_by_cancel in *.
  destruct (t_pc t) as [|byt []|e []| | | |]; naive_solver eauto using observed_cancel_mono.
Qed.

Lemma task_ok_start cs c (s0 : Sc) d e :
  task_ok cs c s0 (mkTask d e s0 RLoop [] [] [] None).
Proof. split; simpl; [done|]. split_and!; [done..|constructor]. Qed.

Lemma filter_snoc (f : bytes -> bool) l x :
  List.filter f (l ++ [x]) = List.filter f l ++ (if f x then [x] else []).
Proof. rewrite List.filter_app. simpl. by destruct (f x). Qed.

Lemma task_step_ok (w : World) (s0 : Sc) (t t' : Task) cl :
  task_ok (canceled w) (Context (rr w)) s0 t ->
  task_step w t = Some (t', cl) ->
  task_ok (canceled w) (Context (rr w)) s0 t' /\
  t_dataCh t' = t_dataCh t /\ t_errCh t' = t_errCh t /\
  t_sent t' = t_sent t /\ t_cond t' = t_cond t /\
  closed_of t' = closed_of t ++ cl /\
  (t_cond t <> None -> t_units t' = t_units t).
Proof.
  intros [Hsent Hpc]. unfold task_step.
  destruct (t_pc t) as [|byt k|e fl| | | |] eqn:Hp; try done.
  - (* the select *)
    destruct Hpc as (Hc & Hf & Hrun). simpl in Hsent. rewrite Hf, !app_nil_r in Hsent.
    destruct (Context (rr w)) as [c|] eqn:Hctx.
    + destruct (ctx_done (canceled w) c) eqn:Hdone.
      * intros [= <- <-]. unfold task_ok, closed_of. simpl. rewrite Hp, Hf, !app_nil_r.
        split_and!; try done. exists c. done.
      * destruct (Scanner_Scan (t_scanner t)) as [[] sc] eqn:Hscan.
        -- intros [= <- <-]. unfold filterSendDataChannel, task_ok, closed_of.
           pose proof (scan_run_snoc _ _ _ _ Hrun Hscan) as Hrun'.
           destruct (filterSend (Scanner_Bytes sc)) eqn:Hkeep; simpl;
             rewrite ?Hp, Hf, ?app_nil_r, filter_snoc, Hkeep, <- Hsent, ?app_nil_r;
             split_and!; try done; congruence.
        -- intros [= <- <-]. unfold task_ok, closed_of. simpl.
           rewrite Hp, Hf, !app_nil_r. split_and!; try done. by exists (t_scanner t).
    + intros [= <- <-]. unfold task_ok, closed_of. simpl. rewrite Hp, Hf, !app_nil_r. done.
  - intros [= <- <-]. unfold task_ok, closed_of, stopped_by_cancel, stopped_by_scan in *.
    simpl in *. rewrite Hp. done.
  - intros [= <- <-]. unfold task_ok, closed_of, stopped_by_cancel, stopped_by_scan in *.
    simpl in *. rewrite Hp. done.
Qed.

Lemma send_data_ok cs c (s0 : Sc) (t t' : Task) byt :
  task_ok cs c s0 t ->
  send_data t = Some (byt, t') ->
  task_ok cs c s0 t' /\
  t_dataCh t' = t_dataCh t /\ t_errCh t' = t_errCh t /\
  t_sent t' = t_sent t ++ [byt] /\ t_cond t' = t_cond t /\
  t_units t' = t_units t /\ closed_of t' = [] /\ closed_of t = [].
Proof.
  intros [Hsent Hpc]. unfold send_data.
  destruct (t_pc t) as [|b k|e fl| | | |] eqn:Hp; try done.
  intros [= <- <-]. unfold task_ok, closed_of, stopped_by_scan in *. simpl in *.
  rewrite Hp. destruct k; simpl; rewrite app_nil_r; naive_solver.
Qed.

Lemma send_err_ok cs c (s0 : Sc) (t t' : Task) e :
  task_ok cs c s0 t ->
  send_err t = Some (e, t') ->
  task_ok cs c s0 t' /\
  t_dataCh t' = t_dataCh t /\ t_errCh t' = t_errCh t /\
  t_sent t' = t_sent t /\ t_cond t = None /\ t_cond t' = Some e /\
  t_units t' = t_units t /\ closed_of t' = [] /\ closed_of t = [] /\
  t_sent t = List.filter filterSend (t_units t).
Proof.
  intros [Hsent Hpc]. unfold send_err.
  destruct (t_pc t) as [|b k|e' fl| | | |] eqn:Hp; try done.
  intros [= <- <-]. simpl in Hsent.
  destruct fl.
  - destruct Hpc as (Hc & Hf & Hscans & ->). rewrite Hf, !app_nil_r in Hsent.
    unfold filterSendDataChannel, task_ok, closed_of, stopped_by_scan.
    destruct (filterSend (Scanner_Bytes (t_scanner t))) eqn:Hkeep; simpl;
      rewrite Hf; simpl; rewrite filter_snoc, Hkeep, <- Hsent, ?app_nil_r; simpl;
      rewrite ?Hp; split_and!; try done; by right.
  - destruct Hpc as (Hc & Hf & Hrun & -> & Hobs). rewrite Hf, !app_nil_r in Hsent.
    unfold task_ok, closed_of, stopped_by_cancel. simpl.
    rewrite Hp, Hf, !app_nil_r. split_and!; try done. left. done.
Qed.
End TaskFacts.

(** ** The transition system *)

Section EngineFacts.
Context {R Sc St : Type} `{!Bufio R Sc}.
Variable handler : St -> bytes -> St * option Error.

Local Abbreviation World := (World R Sc St).
Local Abbreviation Task := (Task Sc).

Lemma exec_app sched1 sched2 (w : World) :
  exec handler (sched1 ++ sched2) w = exec handler sched1 w ≫= exec handler sched2.
Proof.
  revert w. induction sched1 as [|ev sched1 IH]; intros w; simpl; [done|].
  destruct (step handler ev w); simpl; [apply IH|done].
Qed.

(** Induction over the states a schedule goes through. *)
Lemma exec_invariant (allowed : Event -> bool) (P : World -> Prop) :
  (forall ev w w', allowed ev = true -> P w -> step handler ev w = Some w' -> P w') ->
  forall sched w w',
    forallb allowed sched = true -> P w -> exec handler sched w = Some w' -> P w'.
Proof.
  intros Hstep sched. induction sched as [|ev sched IH]; intros w w' Hall Hw; simpl.
  - by intros [= <-].
  - simpl in Hall. apply andb_true_iff in Hall as [Hev Hall].
    destruct (step handler ev w) as [w1|] eqn:Hs; simpl; [|done].
    apply IH; eauto.
Qed.

Lemma single_lookup (t t' : Task) i : [t] !! i = Some t' -> i = 0 /\ t' = t.
Proof. destruct i as [|i]; simpl; [naive_solver|]. by destruct i. Qed.

Lemma world_ok_start (h : Response R) cs (s : St) :
  once h = false -> dataCh h = None -> errCh h = None ->
  world_ok h (start h cs s).
Proof. intros. unfold world_ok, start. simpl. split_and!; try done. by left. Qed.

(** [Read]: it leaves the caller and the contexts alone, starts a goroutine
    when none was started and the response is not nil, and returns the two
    channels of the handle, unless it panics. *)
Lemma Read_spec (h : Response R) (w w' : World) r :
  world_ok h w -> Read w = (w', r) ->
  consumer w' = consumer w /\ canceled w' = canceled w /\ hstate w' = hstate w /\
  calls w' = calls w /\ conds w' = conds w /\ drains w' = drains w /\
  once (rr w') = true /\
  (forall c, caller_chans_ok c -> world_ok h (set_consumer c w')) /\
  ((r = None /\ Response_ h = None /\ once (rr w) = false) \/
   (r = Some (Some 0, Some 1) /\ (Response_ h = None -> once (rr w) = true))) /\
  (once (rr w) = true -> tasks w' = tasks w) /\
  (once (rr w) = false -> forall resp, Response_ h = Some resp ->
     tasks w' = [mkTask 0 1 (bufio_NewScanner (Body resp)) RLoop [] [] [] None]).
Proof.
  intros (Hr & Hc & Hf & Hch & Hcase). unfold Read, once_Do.
  destruct (once (rr w)) eqn:Honce.
  - destruct Hcase as [Hcase|Hcase]; [naive_solver|].
    destruct Hcase as (_ & Hd & He & Hn & Hreads & Htasks).
    intros [= <- <-]. simpl. rewrite Hd, He. split_and!; try done.
    + intros c Hcc. unfold world_ok. simpl. split_and!; try done. right.
      split_and!; try done. apply Forall_app. split; [done|]. by constructor.
    + right. done.
  - destruct Hcase as [Hcase|Hcase]; [|naive_solver].
    destruct Hcase as (_ & Hd & He & Hn & Htasks & Hreads & Hcl & Hrecv & Hcons).
    unfold initAsyncRead. rewrite Hr, Hn, Htasks.
    destruct (Response_ h) as [resp|] eqn:Hresp; simpl.
    + intros [= <- <-]. simpl. split_and!; try done.
      * intros c Hcc. unfold world_ok. simpl. rewrite Hreads, Hresp.
        split_and!; try done. right. split_and!; try done.
        { by repeat constructor. }
        right. exists resp, (mkTask 0 1 (bufio_NewScanner (Body resp)) RLoop [] [] [] None).
        simpl. rewrite Hrecv, Htasks, Hcl. do 6 (split; [done|]). apply task_ok_start.
      * right. done.
      * intros _ resp' [= <-]. by rewrite Htasks.
    + intros [= <- <-]. simpl. split_and!; try done.
      * intros c Hcc. unfold world_ok. simpl. rewrite Hreads, Hresp.
        split_and!; try done. right. split_and!; try done. left. done.
      * left. done.
Qed.
(** The part of the state [world_ok] reads. *)
Lemma world_ok_frame (h : Response R) (w w' : World) :
  world_ok h w ->
  rr w' = rr w -> next_chan w' = next_chan w -> tasks w' = tasks w ->
  reads w' = reads w -> closed w' = closed w -> received w' = received w ->
  canceled w ⊆ canceled w' ->
  caller_chans_ok (consumer w') ->
  (once (rr w) = false -> consumer w' = CInit) ->
  world_ok h w'.
Proof.
  intros (Hr & Hc & Hf & Hch & Hcase) Qrr Qnc Qt Qrd Qcl Qrc Hsub Hch' Hinit.
  unfold world_ok. rewrite Qrr, Qnc, Qt, Qrd, Qcl, Qrc.
  do 4 (split; [done|]).
  destruct Hcase as [Hcase|(Ho & Hd & He & Hn & Hrd & Hcase)].
  - left. split_and!; try apply Hcase. apply Hinit, Hcase.
  - right. do 5 (split; [done|]).
    destruct Hcase as [Hcase|(resp & t & Hresp & Ht & Hcase)]; [by left|right].
    exists resp, t. destruct Hcase as (? & ? & ? & ? & Hok).
    do 6 (split; [done|]). eauto using task_ok_mono.
Qed.

(** A goroutine of a reachable state is the one goroutine of the handle. *)
Lemma world_ok_task (h : Response R) (w : World) i (t : Task) :
  world_ok h w -> tasks w !! i = Some t ->
  i = 0 /\ tasks w = [t] /\ once (rr w) = true /\ t_dataCh t = 0 /\ t_errCh t = 1 /\
  closed w = closed_of t /\ (received w).*2 = t_sent t /\
  exists resp, Response_ h = Some resp /\
    task_ok (canceled w) (Context (rr w)) (bufio_NewScanner (Body resp)) t.
Proof.
  intros (Hr & Hc & Hf & Hch & Hcase) Hi.
  destruct Hcase as [Hcase|(Ho & Hd & He & Hn & Hrd & Hcase)].
  { destruct Hcase as (_ & _ & _ & _ & Ht & _). by rewrite Ht in Hi. }
  destruct Hcase as [Hcase|(resp & t0 & Hresp & Ht & Hcase)].
  { destruct Hcase as (_ & Ht & _). by rewrite Ht in Hi. }
  rewrite Ht in Hi. apply single_lookup in Hi as [-> ->].
  rewrite Hc. naive_solver.
Qed.

(** The goroutine of a reachable state moves on. *)
Lemma world_ok_update (h : Response R) (w w' : World) (t t' : Task) resp :
  world_ok h w -> tasks w = [t] -> Response_ h = Some resp ->
  rr w' = rr w -> next_chan w' = next_chan w -> reads w' = reads w ->
  tasks w' = [t'] -> t_dataCh t' = t_dataCh t -> t_errCh t' = t_errCh t ->
  closed w' = closed_of t' -> (received w').*2 = t_sent t' ->
  task_ok (canceled w') (Context (rr w)) (bufio_NewScanner (Body resp)) t' ->
  caller_chans_ok (consumer w') ->
  world_ok h w'.
Proof.
  intros (Hr & Hc & Hf & Hch & Hcase) Ht Hresp Qrr Qnc Qrd Qt' Qd Qe Qcl Qrc Hok Hch'.
  unfold world_ok. rewrite Qrr, Qnc, Qrd, Qt', Qcl, Qrc.
  do 4 (split; [done|]).
  destruct Hcase as [Hcase|(Ho & Hd & He & Hn & Hrd & Hcase)].
  { destruct Hcase as (_ & _ & _ & _ & Ht0 & _). congruence. }
  right. do 5 (split; [done|]).
  destruct Hcase as [Hcase|(resp0 & t0 & Hresp0 & Ht0 & Hd0 & He0 & _)].
  { destruct Hcase as (_ & Ht0 & _). congruence. }
  right. exists resp, t'. rewrite Ht in Ht0. injection Ht0 as <-.
  rewrite <- Hc. do 6 (split; [done || congruence|]). done.
Qed.

Lemma caller_chans_ok_data (w : World) d :
  caller_chans_ok (consumer w) -> consumer_data w = Some d -> d = 0.
Proof. unfold consumer_data. destruct (consumer w); naive_solver. Qed.

Lemma caller_chans_ok_err (w : World) e :
  caller_chans_ok (consumer w) -> consumer_err w = Some e -> e = 1.
Proof. unfold consumer_err. destruct (consumer w); naive_solver. Qed.

Lemma world_ok_started (h : Response R) (w : World) :
  world_ok h w -> consumer w <> CInit -> once (rr w) = true.
Proof. intros (_ & _ & _ & _ & [Hcase|Hcase]) Hne; [|apply Hcase]. by destruct Hcase as (_ & _ & _ & _ & _ & _ & _ & _ & ?). Qed.

(** [world_ok] holds along every schedule, whoever uses the handle. *)
Lemma world_ok_step (h : Response R) ev (w w' : World) :
  world_ok h w -> step handler ev w = Some w' -> world_ok h w'.
Proof.
  intros Hok. pose proof Hok as (Hr & Hc & Hf & Hch & Hcase).
  destruct ev as [i| |i|i| | |id| |i|i]; simpl.
  - (* a goroutine moves *)
    destruct (tasks w !! i) as [t|] eqn:Hi; simpl; [|done].
    destruct (task_step w t) as [[t' cl]|] eqn:Hs; simpl; [|done].
    intros [= <-].
    destruct (world_ok_task _ _ _ _ Hok Hi) as (-> & Ht & Ho & Hd & He & Hcl & Hrc & resp & Hresp & Htok).
    destruct (task_step_ok _ _ _ _ _ Htok Hs) as (Htok' & Hd' & He' & Hs' & Hc' & Hcl' & _).
    eapply (world_ok_update h w _ t t' resp); simpl; try done.
    + by rewrite Ht.
    + by rewrite Hcl, Hcl'.
    + by rewrite Hrc, Hs'.
  - (* the caller moves alone *)
    unfold caller_step. destruct (consumer w) as [|d e|herr|d err|d err buf derr|res|] eqn:Hpc; try done.
    + destruct (Read w) as [w1 r] eqn:HR.
      destruct (Read_spec h _ _ _ Hok HR) as (_ & _ & _ & _ & _ & _ & _ & Hw1 & Hr1 & _).
      destruct Hr1 as [(-> & _)|(-> & _)]; intros [= <-]; apply Hw1; done.
    + unfold Cancel. destruct (cancelFunc (rr w)) as [id|]; intros [= <-];
        (eapply world_ok_frame; [exact Hok|simpl; try done..]).
      * set_solver.
      * intros Ho. rewrite (world_ok_started h w) in Ho; [done..|congruence].
      * intros Ho. rewrite (world_ok_started h w) in Ho; [done..|congruence].
    + unfold Cancel. destruct (cancelFunc (rr w)) as [id|].
      * destruct (isOneOf err _); intros [= <-];
          (eapply world_ok_frame; [exact Hok|simpl; try done..]);
          try set_solver; intros Ho;
          (rewrite (world_ok_started h w) in Ho; [done..|congruence]).
      * intros [= <-]. eapply world_ok_frame; [exact Hok|simpl; try done..].
        intros Ho. rewrite (world_ok_started h w) in Ho; [done..|congruence].
  - (* the caller receives a record *)
    destruct (consumer_data w) as [d|] eqn:Hcd; simpl; [|done].
    unfold recv_data. destruct (tasks w !! i) as [t|] eqn:Hi; simpl; [|done].
    case_bool_decide as Hdd; [|done].
    destruct (send_data t) as [[byt t']|] eqn:Hs; simpl; [|done].
    destruct (world_ok_task _ _ _ _ Hok Hi) as (-> & Ht & Ho & Hd & He & Hcl & Hrc & resp & Hresp & Htok).
    destruct (send_data_ok _ _ _ _ _ _ Htok Hs) as (Htok' & Hd' & He' & Hs' & Hc' & Hu' & Hcl' & Hcl0).
    unfold on_data, invoke. simpl. destruct (consumer w) as [|d0 e0|herr|d0 err|d0 err buf derr|res|] eqn:Hpc; try done.
    + destruct (handler (hstate w) byt) as [hs [herr|]]; intros [= <-];
        (eapply (world_ok_update h w _ t t' resp); simpl; try done);
        rewrite ?Ht, ?fmap_app, ?Hrc, ?Hs'; first [done|reflexivity|congruence].
    + intros [= <-].
      eapply (world_ok_update h w _ t t' resp); simpl; try done;
        rewrite ?Ht, ?fmap_app, ?Hrc, ?Hs'; first [done|reflexivity|congruence].
  - (* the caller receives the condition *)
    destruct (consumer_err w) as [e|] eqn:Hce; simpl; [|done].
    unfold recv_err. destruct (tasks w !! i) as [t|] eqn:Hi; simpl; [|done].
    case_bool_decide as Hee; [|done].
    destruct (send_err t) as [[err t']|] eqn:Hs; simpl; [|done].
    destruct (world_ok_task _ _ _ _ Hok Hi) as (-> & Ht & Ho & Hd & He & Hcl & Hrc & resp & Hresp & Htok).
    destruct (send_err_ok _ _ _ _ _ _ Htok Hs) as (Htok' & Hd' & He' & Hs' & Hc0 & Hc' & Hu' & Hcl' & Hcl0 & _).
    intros [= <-]. unfold on_err.
    eapply (world_ok_update h w _ t t' resp); simpl; try done;
      rewrite ?Ht, ?Hrc, ?Hs'; try first [done|reflexivity|congruence].
    unfold consumer_data, consumer_err in *. simpl.
    destruct (consumer w); naive_solver.
  - (* the caller finds the data channel closed *)
    destruct (consumer_data w) as [d|] eqn:Hcd; simpl; [|done].
    case_bool_decide as Hin; [|done].
    assert (once (rr w) = true) as Ho.
    { destruct Hcase as [Hcase|Hcase]; [|naive_solver].
      destruct Hcase as (_ & _ & _ & _ & _ & _ & Hcl & _). rewrite Hcl in Hin. set_solver. }
    unfold on_data_closed, on_data, invoke.
    destruct (consumer w) as [|d0 e0|herr|d0 err|d0 err buf derr|res|] eqn:Hpc; try done.
    + destruct (handler (hstate w) []) as [s1 [herr|]]; intros [= <-];
        (eapply world_ok_frame; [exact Hok|simpl; try done; congruence..]).
    + destruct derr as [de|].
      * intros [= <-]. eapply world_ok_frame; [exact Hok|simpl; try done; congruence..].
      * destruct (handler (hstate w) (Buffer_Bytes buf)) as [s1 [herr|]];
          [|destruct (errors_Is err io_EOF)]; intros [= <-];
          (eapply world_ok_frame; [exact Hok|simpl; try done; congruence..]).
  - (* the caller finds the error channel closed *)
    destruct (consumer_err w) as [e|] eqn:Hce; simpl; [|done].
    case_bool_decide as Hin; [|done].
    assert (once (rr w) = true) as Ho.
    { destruct Hcase as [Hcase|Hcase]; [|naive_solver].
      destruct Hcase as (_ & _ & _ & _ & _ & _ & Hcl & _). rewrite Hcl in Hin. set_solver. }
    intros [= <-]. unfold on_err.
    eapply world_ok_frame; [exact Hok|simpl; try done; try congruence..].
    unfold consumer_data, consumer_err in *. destruct (consumer w); naive_solver.
  - (* a cancel trigger is pulled *)
    intros [= <-]. eapply world_ok_frame; [exact Hok|simpl; try done..].
    + set_solver.
    + intros Ho. destruct Hcase as [Hcase|Hcase]; [apply Hcase|destruct Hcase; congruence].
  - (* somebody else calls Read *)
    destruct (Read w) as [w1 r] eqn:HR.
    destruct (Read_spec h _ _ _ Hok HR) as (Hc1 & _ & _ & _ & _ & _ & _ & Hw1 & _).
    intros [= <-]. simpl. specialize (Hw1 (consumer w) Hch).
    rewrite <- Hc1 in Hw1. by destruct w1.
  - (* somebody else receives a record *)
    destruct (tasks w !! i) as [t|] eqn:Hi; simpl; [|done].
    case_bool_decide as Hin; [|done].
    unfold recv_data. rewrite Hi. simpl. rewrite bool_decide_eq_true_2 by done.
    destruct (send_data t) as [[byt t']|] eqn:Hs; simpl; [|done].
    destruct (world_ok_task _ _ _ _ Hok Hi) as (-> & Ht & Ho & Hd & He & Hcl & Hrc & resp & Hresp & Htok).
    destruct (send_data_ok _ _ _ _ _ _ Htok Hs) as (Htok' & Hd' & He' & Hs' & Hc' & Hu' & Hcl' & Hcl0).
    intros [= <-].
    eapply (world_ok_update h w _ t t' resp); simpl; try done;
      rewrite ?Ht, ?fmap_app, ?Hrc, ?Hs'; first [done|reflexivity|congruence].
  - (* somebody else receives the condition *)
    destruct (tasks w !! i) as [t|] eqn:Hi; simpl; [|done].
    case_bool_decide as Hin; [|done].
    unfold recv_err. rewrite Hi. simpl. rewrite bool_decide_eq_true_2 by done.
    destruct (send_err t) as [[err t']|] eqn:Hs; simpl; [|done].
    destruct (world_ok_task _ _ _ _ Hok Hi) as (-> & Ht & Ho & Hd & He & Hcl & Hrc & resp & Hresp & Htok).
    destruct (send_err_ok _ _ _ _ _ _ Htok Hs) as (Htok' & Hd' & He' & Hs' & Hc0 & Hc' & Hu' & Hcl' & Hcl0 & _).
    intros [= <-].
    eapply (world_ok_update h w _ t t' resp); simpl; try done;
      rewrite ?Ht, ?Hrc, ?Hs'; first [done|reflexivity|congruence].
Qed.

Lemma accepts_snoc (s0 s1 s2 : St) recs byt :
  accepts handler s0 recs = Some s1 -> handler s1 byt = (s2, None) ->
  accepts handler s0 (recs ++ [byt]) = Some s2.
Proof.
  revert s0. induction recs as [|r recs IH]; intros s0; simpl.
  - intros [= ->] ->. done.
  - destruct (handler s0 r) as [s [e|]]; [done|]. apply IH.
Qed.

Lemma accepts_app (s0 : St) recs1 recs2 :
  accepts handler s0 (recs1 ++ recs2) =
  accepts handler s0 recs1 ≫= fun s1 => accepts handler s1 recs2.
Proof.
  revert s0. induction recs1 as [|r recs IH]; intros s0; simpl; [done|].
  destruct (handler s0 r) as [s [e|]]; [done|]. apply IH.
Qed.

Lemma oks_snoc recs byt : oks (recs ++ [byt]) = oks recs ++ [(byt, None)].
Proof. unfold oks. by rewrite map_app. Qed.

(** A goroutine that has not published its condition has closed nothing. *)
Lemma task_ok_open cs c (s0 : Sc) (t : Task) :
  task_ok cs c s0 t -> t_cond t = None -> closed_of t = [].
Proof.
  intros [_ Hpc] Hc. unfold closed_of, stopped_by_cancel, stopped_by_scan in *.
  destruct (t_pc t); try done; destruct Hpc as [Hpc|Hpc]; destruct Hpc; congruence.
Qed.

(** The part of the state and of the goroutine [caller_ok] reads. *)
Lemma caller_ok_frame cid (s0 : St) (w w' : World) (t t' : Task) :
  caller_ok handler cid s0 w t ->
  consumer w' = consumer w -> hstate w' = hstate w -> calls w' = calls w ->
  conds w' = conds w -> drains w' = drains w ->
  canceled w ⊆ canceled w' -> closed w ⊆ closed w' ->
  t_sent t' = t_sent t -> t_cond t' = t_cond t -> t_dataCh t' = t_dataCh t ->
  (t_cond t <> None -> t_units t' = t_units t) ->
  caller_ok handler cid s0 w' t'.
Proof.
  intros Hok Qc Qh Qcl Qcd Qd Hcs Hcl Qs Qtc Qdc Qu.
  unfold caller_ok, ret_failed, ret_unrecoverable, ret_drained, failed_on in *.
  rewrite Qc, Qh, Qcl, Qcd, Qd, Qs, Qtc, Qdc.
  destruct (consumer w) as [|d e|herr|d err|d err buf derr|res|]; try done.
  - destruct Hok as (e & -> & Hc & Hrest). rewrite Qu by congruence. eauto.
  - destruct Hok as (e & D & -> & Hc & ? & ? & ? & ? & ? & Hrest).
    rewrite Qu by congruence. exists e, D. split_and!; try done; try apply Hrest.
    set_solver.
  - destruct Hok as (Hcid & Hret). split; [set_solver|].
    destruct Hret as [Hret|[Hret|Hret]]; [by left|right; left|right; right].
    + destruct Hret as (e & Hc & Hrest). rewrite Qu by congruence. eauto.
    + destruct Hret as (e & D & s1 & hres & Hc & ? & ? & ? & ? & ? & Hrest).
      rewrite Qu by congruence. exists e, D, s1, hres.
      split_and!; try done; try apply Hrest. set_solver.
Qed.

Lemma own_ok_start cid (h : Response R) cs (s0 : St) :
  once h = false -> own_ok handler cid s0 (start h cs s0 : World).
Proof. intros. left. done. Qed.

(** [own_ok] holds along every schedule of the caller, the goroutine and the
    contexts, on a handle with a response and a cancel trigger. *)
Lemma own_ok_step (h : Response R) cid (s0 : St) ev (w w' : World) :
  is_Some (Response_ h) -> cancelFunc h = Some cid ->
  own ev = true -> world_ok h w -> own_ok handler cid s0 w ->
  step handler ev w = Some w' -> own_ok handler cid s0 w'.
Proof.
  intros [resp0 Hresp0] Hcid Hown Hok Hown_ok.
  pose proof Hok as (Hr & Hc & Hf & Hch & _).
  destruct ev as [i| |i|i| | |id| |i|i]; try done; simpl.
  - (* the goroutine moves *)
    destruct (tasks w !! i) as [t|] eqn:Hi; simpl; [|done].
    destruct (task_step w t) as [[t' cl]|] eqn:Hs; simpl; [|done].
    intros [= <-].
    destruct (world_ok_task _ _ _ _ Hok Hi) as (-> & Ht & Ho & Hd & He & Hcl & Hrc & resp & Hresp & Htok).
    destruct (task_step_ok _ _ _ _ _ Htok Hs) as (Htok' & Hd' & He' & Hs' & Hc' & Hcl' & Hu').
    destruct Hown_ok as [(Ht0 & _)|(t0 & Ht0 & Hcok)]; [congruence|].
    rewrite Ht in Ht0. injection Ht0 as <-.
    right. exists t'. simpl. rewrite Ht. split; [done|].
    eapply caller_ok_frame; [exact Hcok|simpl; try done..]. set_solver.
  - (* the caller moves alone *)
    unfold caller_step.
    destruct (consumer w) as [|d e|herr|d err|d err buf derr|res|] eqn:Hpc; try done.
    + (* Read *)
      destruct Hown_ok as [(Ht0 & Ho & _ & Hcalls & Hconds & Hdr & Hhs)|(t0 & Ht0 & Hcok)];
        [|by unfold caller_ok in Hcok; rewrite Hpc in Hcok].
      destruct (Read w) as [w1 r] eqn:HR.
      destruct (Read_spec h _ _ _ Hok HR) as (Q1 & Q2 & Q3 & Q4 & Q5 & Q6 & _ & _ & Hr1 & _ & Hnew).
      specialize (Hnew Ho _ Hresp0).
      destruct Hr1 as [(_ & Hnone & _)|(-> & _)]; [congruence|].
      intros [= <-]. right. eexists. simpl. split; [exact Hnew|].
      unfold caller_ok. simpl. rewrite Q3, Q4, Q5, Q6, Hcalls, Hconds, Hdr, Hhs. done.
    + (* Cancel after the handler failed *)
      destruct Hown_ok as [(_ & _ & Hpc' & _)|(t & Ht & Hcok)]; [congruence|].
      unfold Cancel. rewrite Hf, Hcid. intros [= <-]. right. exists t. split; [done|].
      unfold caller_ok in *. rewrite Hpc in Hcok. simpl.
      split; [set_solver|]. left. exists herr. unfold failed_on in *. simpl. naive_solver.
    + (* Cancel after the condition *)
      destruct Hown_ok as [(_ & _ & Hpc' & _)|(t & Ht & Hcok)]; [congruence|].
      unfold Cancel. rewrite Hf, Hcid.
      unfold caller_ok in Hcok. rewrite Hpc in Hcok.
      destruct Hcok as (e & -> & Htc & Hconds & Hdr & Hacc & Hcalls & Hsent).
      destruct (isOneOf (Some e) _) eqn:Hrec; intros [= <-]; right; exists t;
        (split; [done|]); unfold caller_ok; simpl.
      * exists e, []. rewrite Hdr, !app_nil_r, <- Hsent. split_and!; try done. set_solver.
      * split; [set_solver|]. right; left. exists e. done.
  - (* the caller receives a record *)
    destruct (consumer_data w) as [d|] eqn:Hcd; simpl; [|done].
    unfold recv_data. destruct (tasks w !! i) as [t|] eqn:Hi; simpl; [|done].
    case_bool_decide as Hdd; [|done].
    destruct (send_data t) as [[byt t']|] eqn:Hs; simpl; [|done].
    destruct (world_ok_task _ _ _ _ Hok Hi) as (-> & Ht & Ho & Hd & He & Hcl & Hrc & resp & Hresp & Htok).
    destruct (send_data_ok _ _ _ _ _ _ Htok Hs) as (Htok' & Hd' & He' & Hs' & Hc' & Hu' & Hcl' & Hcl0).
    destruct Hown_ok as [(Ht0 & _)|(t0 & Ht0 & Hcok)]; [congruence|].
    rewrite Ht in Ht0. injection Ht0 as <-.
    unfold on_data, invoke. simpl. unfold caller_ok in Hcok.
    destruct (consumer w) as [|d0 e0|herr|d0 err|d0 err buf derr|res|] eqn:Hpc; try done.
    + destruct Hcok as (Htc & Hconds & Hdr & Hacc & Hcalls).
      destruct (handler (hstate w) byt) as [hs [herr|]] eqn:Hh; intros [= <-];
        right; exists t'; rewrite Ht; (split; [done|]); unfold caller_ok; simpl;
        rewrite Hs', Hc'.
      * split_and!; try done. exists (t_sent t), byt, (hstate w). simpl.
        rewrite Hcalls. done.
      * split_and!; try done; [by eapply accepts_snoc|by rewrite oks_snoc, Hcalls].
    + destruct Hcok as (e & D & -> & Htc & Hconds & Hdr & Hrec & -> & Hcin & Hsent & -> & Hacc & Hcalls).
      intros [= <-]. right. exists t'. rewrite Ht. split; [done|].
      unfold caller_ok. simpl. exists e, (D ++ [byt]).
      rewrite Hs', Hc', Hu', Hsent, concat_app. simpl.
      rewrite !app_nil_r, !app_assoc. done.
  - (* the caller receives the condition *)
    destruct (consumer_err w) as [e|] eqn:Hce; simpl; [|done].
    unfold recv_err. destruct (tasks w !! i) as [t|] eqn:Hi; simpl; [|done].
    case_bool_decide as Hee; [|done].
    destruct (send_err t) as [[err t']|] eqn:Hs; simpl; [|done].
    destruct (world_ok_task _ _ _ _ Hok Hi) as (-> & Ht & Ho & Hd & He & Hcl & Hrc & resp & Hresp & Htok).
    destruct (send_err_ok _ _ _ _ _ _ Htok Hs) as (Htok' & Hd' & He' & Hs' & Hc0 & Hc' & Hu' & Hcl' & Hcl0 & Hfil).
    destruct Hown_ok as [(Ht0 & _)|(t0 & Ht0 & Hcok)]; [congruence|].
    rewrite Ht in Ht0. injection Ht0 as <-.
    intros [= <-]. right. exists t'. rewrite Ht. split; [done|].
    unfold caller_ok, consumer_err in *. unfold on_err. simpl.
    destruct (consumer w) as [|d0 e0|herr|d0 err0|d0 err0 buf derr|res|] eqn:Hpc; try done.
    destruct Hcok as (Htc & Hconds & Hdr & Hacc & Hcalls).
    exists err. rewrite Hs', Hu', Hconds. done.
  - (* the caller finds the data channel closed *)
    destruct (consumer_data w) as [d|] eqn:Hcd; simpl; [|done].
    case_bool_decide as Hin; [|done].
    destruct Hown_ok as [(Ht0 & _ & Hpc0 & _)|(t & Ht & Hcok)].
    { unfold consumer_data in Hcd. by rewrite Hpc0 in Hcd. }
    assert (tasks w !! 0 = Some t) as Hi by (by rewrite Ht).
    destruct (world_ok_task _ _ _ _ Hok Hi) as (_ & _ & Ho & Hd & He & Hcl & Hrc & resp & Hresp & Htok).
    pose proof (caller_chans_ok_data _ _ Hch Hcd) as ->.
    unfold on_data_closed, on_data, invoke. unfold caller_ok in Hcok.
    destruct (consumer w) as [|d0 e0|herr|d0 err|d0 err buf derr|res|] eqn:Hpc; try done.
    + destruct Hcok as (Htc & _). rewrite Hcl, (task_ok_open _ _ _ _ Htok Htc) in Hin.
      set_solver.
    + destruct Hcok as (e & D & -> & Htc & Hconds & Hdr & Hrec & -> & Hcin & Hsent & -> & Hacc & Hcalls).
      destruct (handler (hstate w) (Buffer_Bytes (newBuffer ++ concat D))) as [hs hres] eqn:Hh.
      assert (consumer w' = CReturned (drained_result (Some e) hres) ->
              hstate w' = hs -> calls w' = calls w ++ [(newBuffer ++ concat D, hres)] ->
              conds w' = conds w -> drains w' = drains w -> canceled w' = canceled w ->
              closed w' = closed w -> tasks w' = tasks w ->
              own_ok handler cid s0 w') as Hfin.
      { intros Q1 Q2 Q3 Q4 Q5 Q6 Q7 Q8. right. exists t. rewrite Q8. split; [done|].
        unfold caller_ok. rewrite Q1, Q6. split; [done|]. right; right.
        exists e, D, (hstate w), hres. rewrite Q2, Q3, Q4, Q5, Q7, Hd, Hcalls.
        split_and!; done. }
      unfold drained_result in Hfin.
      destruct hres as [he|]; [|destruct (errors_Is (Some e) io_EOF)];
        intros [= <-]; apply Hfin; done.
  - (* the caller finds the error channel closed *)
    destruct (consumer_err w) as [e|] eqn:Hce; simpl; [|done].
    case_bool_decide as Hin; [|done].
    destruct Hown_ok as [(Ht0 & _ & Hpc0 & _)|(t & Ht & Hcok)].
    { unfold consumer_err in Hce. by rewrite Hpc0 in Hce. }
    assert (tasks w !! 0 = Some t) as Hi by (by rewrite Ht).
    destruct (world_ok_task _ _ _ _ Hok Hi) as (_ & _ & Ho & Hd & He & Hcl & Hrc & resp & Hresp & Htok).
    unfold consumer_err in Hce. unfold caller_ok in Hcok.
    destruct (consumer w) as [|d0 e0|herr|d0 err|d0 err buf derr|res|] eqn:Hpc; try done.
    destruct Hcok as (Htc & _). rewrite Hcl, (task_ok_open _ _ _ _ Htok Htc) in Hin.
    set_solver.
  - (* a cancel trigger is pulled *)
    intros [= <-]. destruct Hown_ok as [Hinit|(t & Ht & Hcok)]; [by left|].
    right. exists t. split; [done|].
    eapply caller_ok_frame; [exact Hcok|simpl; try done..]. set_solver.
Qed.

(** *** Reachable states *)

Lemma reach_world_ok resp c cancel cs (s : St) sched (w : World) :
  exec handler sched (start (mkResponse resp c cancel false None None) cs s) = Some w ->
  world_ok (mkResponse resp c cancel false None None) w.
Proof.
  intros Hexec. set (h := mkResponse resp c cancel false None None) in *.
  refine (exec_invariant (fun _ => true) (world_ok h) _ sched _ w _ _ Hexec).
  - intros ev w1 w2 _. apply world_ok_step.
  - clear. by induction sched.
  - by apply world_ok_start.
Qed.

Lemma reach_own_ok resp c cid cs (s0 : St) sched (w : World) :
  forallb own sched = true ->
  exec handler sched (start (mkResponse (Some resp) c (Some cid) false None None) cs s0) = Some w ->
  world_ok (mkResponse (Some resp) c (Some cid) false None None) w /\
  own_ok handler cid s0 w.
Proof.
  intros Hown Hexec. set (h := mkResponse (Some resp) c (Some cid) false None None) in *.
  refine (exec_invariant own (fun w => world_ok h w /\ own_ok handler cid s0 w)
            _ sched _ w Hown _ Hexec).
  - intros ev w1 w2 Hev [Hok Hown_ok] Hstep. split; [by eapply world_ok_step|].
    eapply (own_ok_step h); eauto.
  - split; [by apply world_ok_start|by apply own_ok_start].
Qed.

(** The goroutine that has closed its data channel has sent all it kept. *)
Lemma task_ok_closed cs c (s0 : Sc) (t : Task) :
  task_ok cs c s0 t -> t_dataCh t ∈ closed_of t ->
  t_sent t = List.filter filterSend (t_units t) ++ List.filter filterSend (t_flushed t).
Proof.
  intros [Hsent _]. unfold closed_of. rewrite List.filter_app in Hsent.
  destruct (t_pc t); simpl in *; rewrite ?app_nil_r in Hsent; try done; set_solver.
Qed.

(** The goroutine that has published a condition left the loop one of the
    two ways. *)
Lemma task_ok_cond cs c (s0 : Sc) (t : Task) e :
  task_ok cs c s0 t -> t_cond t = Some e ->
  stopped_by_cancel cs c s0 t \/ stopped_by_scan s0 t.
Proof.
  intros [_ Hpc] Hc.
  destruct (t_pc t) as [|byt []|e' []| | | |]; try naive_solver.
Qed.

(** What [ReadStreaming] has done when it returns after a condition [e]: the
    records the goroutine kept in its loop went to the handler one by one;
    then, for a recoverable condition, one drain and one more invocation, on
    the drain buffer followed by what the goroutine kept after the failed
    scan; for another condition, nothing more. *)
Lemma returned_after_condition resp c cid cs (s0 : St) sched (w : World) res e :
  forallb own sched = true ->
  exec handler sched (start (mkResponse (Some resp) c (Some cid) false None None) cs s0) = Some w ->
  consumer w = CReturned res -> conds w = [Some e] ->
  exists t s1,
    tasks w = [t] /\ t_cond t = Some e /\ cid ∈ canceled w /\
    (stopped_by_cancel (canceled w) c (bufio_NewScanner (Body resp)) t \/
     stopped_by_scan (bufio_NewScanner (Body resp)) t) /\
    accepts handler s0 (List.filter filterSend (t_units t)) = Some s1 /\
    if recoverable (Some e) then
      exists hres,
        drains w = 1 /\
        handler s1 (newBuffer ++ concat (List.filter filterSend (t_flushed t))) = (hstate w, hres) /\
        calls w = oks (List.filter filterSend (t_units t)) ++
                  [(newBuffer ++ concat (List.filter filterSend (t_flushed t)), hres)] /\
        res = drained_result (Some e) hres
    else
      drains w = 0 /\ hstate w = s1 /\
      calls w = oks (List.filter filterSend (t_units t)) /\
      res = reading_response_body (Some e).
Proof.
  intros Hown Hexec Hret Hconds.
  destruct (reach_own_ok _ _ _ _ _ _ _ Hown Hexec) as [Hok Hown_ok].
  destruct Hown_ok as [(_ & _ & Hpc & _)|(t & Ht & Hcok)]; [congruence|].
  assert (tasks w !! 0 = Some t) as Hi by (by rewrite Ht).
  destruct (world_ok_task _ _ _ _ Hok Hi) as (_ & _ & Ho & Hd & He & Hcl & Hrc & resp' & Hresp & Htok).
  simpl in Hresp. injection Hresp as <-.
  assert (Context (rr w) = c) as Hctx by apply Hok. rewrite Hctx in Htok.
  unfold caller_ok in Hcok. rewrite Hret in Hcok. destruct Hcok as [Hcid Hcase].
  destruct Hcase as [Hf|[Hu|Hdr]].
  - destruct Hf as (herr & _ & _ & Hc0 & _). congruence.
  - destruct Hu as (e' & Htc & Hc' & Hrec & Hdr & Hacc & Hcalls & Hsent & ->).
    rewrite Hconds in Hc'. injection Hc' as <-.
    exists t, (hstate w). rewrite Hrec, <- Hsent. split_and!; try done.
    by eapply task_ok_cond.
  - destruct Hdr as (e' & D & s1 & hres & Htc & Hc' & Hrec & Hdr & Hsent & Hin & Hacc & Hh & Hcalls & ->).
    rewrite Hconds in Hc'. injection Hc' as <-.
    rewrite Hcl in Hin. pose proof (task_ok_closed _ _ _ _ Htok Hin) as Hall.
    rewrite Hsent in Hall. apply app_inv_head in Hall as ->.
    exists t, s1. rewrite Hrec. split_and!; try done; [by eapply task_ok_cond|].
    exists hres. done.
Qed.

Lemma task_ok_units cs c (s0 : Sc) (t : Task) :
  task_ok cs c s0 t -> exists s1, scan_run s0 (t_units t) s1.
Proof.
  intros [_ Hpc]. unfold stopped_by_cancel, stopped_by_scan, scans in *.
  destruct (t_pc t) as [|byt []|e' []| | | |]; naive_solver.
Qed.

Lemma filterSend_spec byt : filterSend byt = true <-> byt <> [] /\ byt <> [NL].
Proof.
  unfold filterSend, bytes_Equal, apiDataDelimiter.
  rewrite andb_true_iff, !negb_true_iff, !bool_decide_eq_false.
  destruct byt; naive_solver.
Qed.

(** *** C7 *)

(** C7.  However the handle is used, and however many times [Read] is called
    on it: at most one reader goroutine is ever started; every [Read] that
    returned has returned the same pair of channels, the pair in the handle;
    once a [Read] has returned, another one starts no goroutine and returns
    that pair again; and every record a goroutine has sent was received
    exactly once, by one receiver: the records received, in order, are the
    records the goroutine sent, which (with the one it may be blocked
    sending) are the scanned units it kept, each scanned once. *)
Theorem Read_starts_one_reader resp c cancel cs (s : St) sched (w : World) :
  exec handler sched (start (mkResponse resp c cancel false None None) cs s) = Some w ->
  length (tasks w) <= 1 /\
  (forall r, r ∈ reads w -> r = (dataCh (rr w), errCh (rr w))) /\
  (reads w <> [] ->
   forall w' r, Read w = (w', r) ->
     tasks w' = tasks w /\ r = Some (dataCh (rr w), errCh (rr w)) /\
     dataCh (rr w') = dataCh (rr w) /\ errCh (rr w') = errCh (rr w)) /\
  (forall t, t ∈ tasks w ->
     (received w).*2 = t_sent t /\
     t_sent t ++ pending (t_pc t) = List.filter filterSend (t_units t ++ t_flushed t) /\
     exists resp' s1, resp = Some resp' /\
       scan_run (bufio_NewScanner (Body resp')) (t_units t) s1).
Proof.
  intros Hexec. pose proof (reach_world_ok _ _ _ _ _ _ _ Hexec) as Hok.
  pose proof Hok as (Hr & Hc & Hf & Hch & Hcase). simpl in *.
  destruct Hcase as [Hcase|(Ho & Hd & He & Hn & Hrd & Hcase)].
  - destruct Hcase as (_ & _ & _ & _ & Ht & Hreads & _). rewrite Ht, Hreads.
    split_and!; [simpl; lia|set_solver|done|set_solver].
  - rewrite Hd, He. split_and!.
    + destruct Hcase as [(_ & -> & _)|(? & ? & _ & -> & _)]; simpl; lia.
    + intros r Hin. rewrite list.Forall_forall in Hrd. by apply Hrd.
    + intros _ w' r HR.
      destruct (Read_spec _ _ _ _ Hok HR) as (_ & _ & _ & _ & _ & _ & _ & Hw' & Hr1 & Hts & _).
      destruct Hr1 as [(_ & _ & Hof)|(-> & _)]; [congruence|].
      split_and!; [by apply Hts|done| |].
      * unfold Read, once_Do in HR. rewrite Ho in HR. injection HR as <- _. done.
      * unfold Read, once_Do in HR. rewrite Ho in HR. injection HR as <- _. done.
    + intros t Hin. destruct Hcase as [(_ & Ht & _)|(resp' & t0 & Hresp & Ht & _ & _ & _ & Hrc & Htok)].
      { rewrite Ht in Hin. set_solver. }
      rewrite Ht in Hin. apply list_elem_of_singleton in Hin as ->.
      split; [done|]. split; [apply Htok|].
      destruct (task_ok_units _ _ _ _ Htok) as [s1 Hs1]. eauto.
Qed.

(** *** C4 *)

(** C4.  However the handle is used, a reader goroutine has, at every
    moment: scanned the units [t_units t] from the body, in this order, each
    by one successful [Scan]; given each of them, and after a failed scan
    the scanner's last token, to the filter; and sent on the data channel, in
    the same order, exactly those the filter keeps, the last one possibly
    still waiting for its receiver.  The filter keeps a unit exactly when it
    is neither empty nor the bare newline.  Nothing is closed before all
    that is kept was sent, and the data channel is closed before the error
    channel; when the scan failed, the scanner's last token has gone through
    the filter by then. *)
Theorem reader_publishes_kept_units resp c cancel cs (s : St) sched (w : World) t :
  exec handler sched (start (mkResponse resp c cancel false None None) cs s) = Some w ->
  t ∈ tasks w ->
  exists resp', resp = Some resp' /\
    (exists s1, scan_run (bufio_NewScanner (Body resp')) (t_units t) s1) /\
    t_sent t ++ pending (t_pc t) = List.filter filterSend (t_units t ++ t_flushed t) /\
    (forall byt, filterSend byt = true <-> byt <> [] /\ byt <> [NL]) /\
    (t_dataCh t ∈ closed w ->
     t_sent t = List.filter filterSend (t_units t ++ t_flushed t) /\
     (stopped_by_cancel (canceled w) c (bufio_NewScanner (Body resp')) t \/
      stopped_by_scan (bufio_NewScanner (Body resp')) t)) /\
    (t_errCh t ∈ closed w -> t_dataCh t ∈ closed w).
Proof.
  intros Hexec Hin. pose proof (reach_world_ok _ _ _ _ _ _ _ Hexec) as Hok.
  apply list_elem_of_lookup in Hin as [i Hi].
  destruct (world_ok_task _ _ _ _ Hok Hi) as (-> & Ht & Ho & Hd & He & Hcl & Hrc & resp' & Hresp & Htok).
  simpl in Hresp. assert (Context (rr w) = c) as Hctx by apply Hok. rewrite Hctx in Htok.
  exists resp'. split; [done|]. split; [by eapply task_ok_units|].
  split; [apply Htok|]. split; [apply filterSend_spec|]. rewrite Hcl, Hd, He. split.
  - intros Hclosed. destruct Htok as [Hsent Hpc]. unfold closed_of in Hclosed.
    destruct (t_pc t); simpl in *; try set_solver; rewrite app_nil_r in Hsent; done.
  - unfold closed_of. destruct (t_pc t); set_solver.
Qed.

(** *** C5 *)

(** C5.  When nobody else uses the handle: if the handler has returned an
    error [herr] on a record received at the select (no condition received
    yet), that invocation is the last one; no drain was entered;
    [ReadStreaming] is about to cancel and return, and does so in its next
    step, or has returned exactly [herr] with the handle's context canceled.
    As this holds in every state reached afterwards too, no invocation and no
    drain follow. *)
Theorem handler_error_stops_ReadStreaming resp parent cid cs (s0 : St) sched (w : World)
    byt herr :
  forallb own sched = true ->
  exec handler sched
    (start (mkResponse (Some resp) (Some (WithCancel cid parent)) (Some cid) false None None)
       cs s0) = Some w ->
  (byt, Some herr) ∈ calls w -> conds w = [] ->
  (exists recs, calls w = oks recs ++ [(byt, Some herr)]) /\
  drains w = 0 /\
  ((consumer w = CFail herr /\
    exists w', step handler EvCaller w = Some w' /\
               consumer w' = CReturned (Some herr) /\ calls w' = calls w /\
               drains w' = 0 /\ ctx_done (canceled w') (WithCancel cid parent) = true) \/
   (consumer w = CReturned (Some herr) /\
    ctx_done (canceled w) (WithCancel cid parent) = true)).
Proof.
  intros Hown Hexec Hin Hconds.
  destruct (reach_own_ok _ _ _ _ _ _ _ Hown Hexec) as [Hok Hown_ok].
  assert (forall recs : list bytes, (byt, Some herr) ∉ oks recs) as Hnot.
  { intros recs. unfold oks. rewrite list_elem_of_fmap. naive_solver. }
  assert (forall recs b he, (byt, Some herr) ∈ oks recs ++ [(b, Some he)] -> b = byt /\ he = herr) as Hlast.
  { intros recs b he. rewrite elem_of_app, list_elem_of_singleton.
    intros [Hbad|[= <- <-]]; [by apply Hnot in Hbad|done]. }
  destruct Hown_ok as [(_ & _ & _ & Hc0 & _)|(t & Ht & Hcok)].
  { rewrite Hc0 in Hin. set_solver. }
  unfold caller_ok in Hcok.
  destruct (consumer w) as [|d e|herr'|d err|d err buf derr|res|] eqn:Hpc; try done.
  - destruct Hcok as (_ & _ & _ & _ & Hcalls). rewrite Hcalls in Hin. by apply Hnot in Hin.
  - destruct Hcok as (_ & _ & Hdr & recs & b & s1 & _ & _ & _ & Hcalls).
    rewrite Hcalls in Hin. apply Hlast in Hin as [-> ->].
    split; [eauto|]. split; [done|]. left. split; [done|].
    simpl. unfold caller_step, Cancel. rewrite Hpc.
    assert (cancelFunc (rr w) = Some cid) as -> by apply Hok.
    eexists. split; [done|]. simpl. split_and!; try done.
    rewrite orb_true_iff, bool_decide_eq_true. left. set_solver.
  - destruct Hcok as (e & _ & _ & Hc' & _). congruence.
  - destruct Hcok as (e & D & _ & _ & Hc' & _). congruence.
  - destruct Hcok as [Hcid [Hf|[Hu|Hdr]]].
    + destruct Hf as (he & -> & _ & _ & Hdr & recs & b & s1 & _ & _ & _ & Hcalls).
      rewrite Hcalls in Hin. apply Hlast in Hin as [-> ->].
      split; [eauto|]. split; [done|]. right. split; [done|]. simpl.
      rewrite orb_true_iff, bool_decide_eq_true. by left.
    + destruct Hu as (e & _ & Hc' & _). congruence.
    + destruct Hdr as (e & D & s1 & hres & _ & Hc' & _). congruence.
Qed.

(** *** C2 *)


(** *** C6 *)

(** A step changes the goroutine of the handle by one of its own moves. *)
Lemma step_tasks (h : Response R) ev (w w' : World) (t : Task) :
  world_ok h w -> tasks w = [t] -> step handler ev w = Some w' ->
  tasks w' = [t] \/
  (exists t' cl, task_step w t = Some (t', cl) /\ tasks w' = [t']) \/
  (exists byt t', send_data t = Some (byt, t') /\ tasks w' = [t']) \/
  (exists e t', send_err t = Some (e, t') /\ tasks w' = [t']).
Proof.
  intros Hok Ht.
  assert (once (rr w) = true) as Ho.
  { eapply (world_ok_task h w 0 t); [done|by rewrite Ht]. }
  assert (forall i t0, tasks w !! i = Some t0 -> i = 0 /\ t0 = t) as Hone.
  { intros i t0. rewrite Ht. apply single_lookup. }
  destruct ev as [i| |i|i| | |id| |i|i]; simpl.
  - destruct (tasks w !! i) as [t0|] eqn:Hi; simpl; [|done].
    destruct (Hone _ _ Hi) as [-> ->].
    destruct (task_step w t) as [[t' cl]|] eqn:Hs; simpl; [|done].
    intros [= <-]. right; left. simpl. rewrite Ht. eauto.
  - unfold caller_step, Cancel.
    destruct (consumer w); try done.
    + destruct (Read w) as [w1 r] eqn:HR.
      destruct (Read_spec h _ _ _ Hok HR) as (_ & _ & _ & _ & _ & _ & _ & _ & _ & Hts & _).
      specialize (Hts Ho). destruct r as [[d e]|]; intros [= <-]; left; simpl; congruence.
    + destruct (cancelFunc (rr w)); intros [= <-]; by left.
    + destruct (cancelFunc (rr w)); [destruct (isOneOf _ _)|]; intros [= <-]; by left.
  - destruct (consumer_data w) as [d|]; simpl; [|done].
    unfold recv_data. destruct (tasks w !! i) as [t0|] eqn:Hi; simpl; [|done].
    destruct (Hone _ _ Hi) as [-> ->]. case_bool_decide; [|done].
    destruct (send_data t) as [[byt t']|] eqn:Hs; simpl; [|done].
    unfold on_data, invoke. simpl.
    destruct (consumer w); try done.
    + destruct (handler (hstate w) byt) as [hs [he|]]; intros [= <-];
        right; right; left; simpl; rewrite Ht; eauto.
    + intros [= <-]. right; right; left. simpl. rewrite Ht. eauto.
  - destruct (consumer_err w) as [e|]; simpl; [|done].
    unfold recv_err. destruct (tasks w !! i) as [t0|] eqn:Hi; simpl; [|done].
    destruct (Hone _ _ Hi) as [-> ->]. case_bool_decide; [|done].
    destruct (send_err t) as [[err t']|] eqn:Hs; simpl; [|done].
    intros [= <-]. right; right; right. simpl. rewrite Ht. eauto.
  - destruct (consumer_data w) as [d|]; simpl; [|done].
    case_bool_decide; [|done]. unfold on_data_closed, on_data, invoke.
    destruct (consumer w) as [|d0 e0|herr|d0 err|d0 err buf [de|]|res|]; try done.
    + destruct (handler (hstate w) []) as [hs [he|]]; intros [= <-]; by left.
    + intros [= <-]; by left.
    + destruct (handler (hstate w) (Buffer_Bytes buf)) as [hs [he|]];
        [|destruct (errors_Is err io_EOF)]; intros [= <-]; by left.
  - destruct (consumer_err w) as [e|]; simpl; [|done].
    case_bool_decide; [|done]. intros [= <-]. by left.
  - intros [= <-]. by left.
  - destruct (Read w) as [w1 r] eqn:HR.
    destruct (Read_spec h _ _ _ Hok HR) as (_ & _ & _ & _ & _ & _ & _ & _ & _ & Hts & _).
    intros [= <-]. left. simpl. rewrite Hts; done.
  - destruct (tasks w !! i) as [t0|] eqn:Hi; simpl; [|done].
    destruct (Hone _ _ Hi) as [-> ->]. case_bool_decide; [|done].
    unfold recv_data. rewrite Hi. simpl. rewrite bool_decide_eq_true_2 by done.
    destruct (send_data t) as [[byt t']|] eqn:Hs; simpl; [|done].
    intros [= <-]. right; right; left. simpl. rewrite Ht. eauto.
  - destruct (tasks w !! i) as [t0|] eqn:Hi; simpl; [|done].
    destruct (Hone _ _ Hi) as [-> ->]. case_bool_decide; [|done].
    unfold recv_err. rewrite Hi. simpl. rewrite bool_decide_eq_true_2 by done.
    destruct (send_err t) as [[err t']|] eqn:Hs; simpl; [|done].
    intros [= <-]. right; right; right. simpl. rewrite Ht. eauto.
Qed.




(** *** [ReadStreaming] returns *)

Opaque newBuffer.

Lemma exec_cons_step ev sched (w w1 w' : World) :
  step handler ev w = Some w1 -> exec handler sched w1 = Some w' ->
  exec handler (ev :: sched) w = Some w'.
Proof. intros Hs He. simpl. rewrite Hs. exact He. Qed.

Ltac norm_world :=
  cbv beta iota delta
    [set_pc set_scanner log_unit log_sent log_sent_cond set_rr add_canceled
     set_next_chan add_closed set_tasks set_consumer log_call log_cond log_drain
     log_read log_received on_err
     rr canceled next_chan closed tasks consumer hstate calls conds drains reads
     received t_dataCh t_errCh t_scanner t_pc t_units t_flushed t_sent t_cond].

Ltac sym_step tac :=
  eapply exec_cons_step;
  [simpl;
   unfold task_step, recv_err, recv_data, send_err, send_data, caller_step, Cancel,
     filterSendDataChannel, on_data, on_data_closed, invoke, consumer_data,
     consumer_err, Buffer_Bytes;
   simpl; repeat (progress (tac; simpl)); norm_world; reflexivity|].

Lemma can_return_from toks (s s1 s' : Sc) :
  scan_run s toks s1 -> Scanner_Scan s1 = (false, s') ->
  forall rr0 x cid cs nc cl d e units sent hs calls0 conds0 drains0 reads0 recvd hs1,
    Context rr0 = Some x -> cancelFunc rr0 = Some cid -> ctx_done cs x = false ->
    accepts handler hs (List.filter filterSend toks) = Some hs1 ->
    exists sched w' res,
      forallb quiet sched = true /\
      exec handler sched
        (mkWorld rr0 cs nc cl [mkTask d e s RLoop units [] sent None]
           (CSelect (Some d) (Some e)) hs calls0 conds0 drains0 reads0 recvd) = Some w' /\
      consumer w' = CReturned res /\
      conds w' = conds0 ++ [Some (scan_condition s')].
Proof.
  intros Hrun Hfail. induction Hrun as [s|s sa toks sb Hs Hrun IH];
    intros rr0 x cid cs nc cl d e units sent hs calls0 conds0 drains0 reads0 recvd hs1
      Hctx Hcf Hnd Hacc.
  - (* the scan fails *)
    assert (exists b, is_chain (scan_condition s') io_EOF = b) as [b Heof] by eauto.
    destruct (filterSend (Scanner_Bytes s')) eqn:Hkeep;
      destruct (recoverable (Some (scan_condition s'))) eqn:Hrec;
      unfold recoverable in Hrec; simpl in Hrec.
    + destruct (handler hs (newBuffer ++ Scanner_Bytes s')) as [hs2 hres] eqn:Hh.
      exists [EvTask 0; EvRecvErr 0; EvCaller; EvRecvData 0; EvTask 0; EvClosedData].
      destruct hres as [he|], b; eexists; eexists; (split; [done|]);
        (split; [do 6 sym_step ltac:(rewrite ?Hctx, ?Hnd, ?Hfail, ?Hkeep, ?Hcf, ?Hrec, ?Hh, ?Heof,
                              ?bool_decide_eq_true_2 by (done || set_solver)); reflexivity|split; reflexivity]).
    + exists [EvTask 0; EvRecvErr 0; EvCaller].
      eexists; eexists; (split; [done|]);
        (split; [do 3 sym_step ltac:(rewrite ?Hctx, ?Hnd, ?Hfail, ?Hkeep, ?Hcf, ?Hrec,
                              ?bool_decide_eq_true_2 by (done || set_solver)); reflexivity|split; reflexivity]).
    + destruct (handler hs newBuffer) as [hs2 hres] eqn:Hh.
      exists [EvTask 0; EvRecvErr 0; EvCaller; EvTask 0; EvClosedData].
      destruct hres as [he|], b; eexists; eexists; (split; [done|]);
        (split; [do 5 sym_step ltac:(rewrite ?app_nil_r, ?Hctx, ?Hnd, ?Hfail, ?Hkeep, ?Hcf, ?Hrec, ?Hh, ?Heof,
                              ?bool_decide_eq_true_2 by (done || set_solver)); reflexivity|split; reflexivity]).
    + exists [EvTask 0; EvRecvErr 0; EvCaller].
      eexists; eexists; (split; [done|]);
        (split; [do 3 sym_step ltac:(rewrite ?Hctx, ?Hnd, ?Hfail, ?Hkeep, ?Hcf, ?Hrec,
                              ?bool_decide_eq_true_2 by (done || set_solver)); reflexivity|split; reflexivity]).
  - (* the scan yields a unit *)
    simpl in Hacc. destruct (filterSend (Scanner_Bytes sa)) eqn:Hkeep.
    + simpl in Hacc. destruct (handler hs (Scanner_Bytes sa)) as [hs2 [he|]] eqn:Hh; [done|].
      destruct (IH Hfail rr0 x cid cs nc (cl ++ []) d e (units ++ [Scanner_Bytes sa])
                  (sent ++ [Scanner_Bytes sa]) hs2 (calls0 ++ [(Scanner_Bytes sa, None)])
                  conds0 drains0 reads0 (recvd ++ [(Caller, Scanner_Bytes sa)]) hs1
                  Hctx Hcf Hnd Hacc) as (sched & w' & res & Hq & Hex & Hret & Hco).
      exists (EvTask 0 :: EvRecvData 0 :: sched), w', res.
      split; [done|]. split; [|done].
      do 2 sym_step ltac:(rewrite ?Hctx, ?Hnd, ?Hs, ?Hkeep, ?Hh,
                              ?bool_decide_eq_true_2 by (done || set_solver)).
      exact Hex.
    + destruct (IH Hfail rr0 x cid cs nc (cl ++ []) d e (units ++ [Scanner_Bytes sa])
                  sent hs calls0 conds0 drains0 reads0 recvd hs1
                  Hctx Hcf Hnd Hacc) as (sched & w' & res & Hq & Hex & Hret & Hco).
      exists (EvTask 0 :: sched), w', res.
      split; [done|]. split; [|done].
      sym_step ltac:(rewrite ?Hctx, ?Hnd, ?Hs, ?Hkeep,
                              ?bool_decide_eq_true_2 by (done || set_solver)).
      exact Hex.
Qed.

(** On a handle as [Do] returns it after a successful exchange, whose body
    the scanner reads as [toks] before it stops, with its context not
    canceled and a handler that accepts the records: some schedule of the
    caller and the goroutine alone makes [ReadStreaming] return. *)
Lemma ReadStreaming_can_return resp x cid cs (s0 hs1 : St) toks (s' : Sc) :
  scans (bufio_NewScanner (Body resp)) toks s' ->
  ctx_done cs x = false ->
  accepts handler s0 (List.filter filterSend toks) = Some hs1 ->
  exists sched (w : World) res,
    forallb quiet sched = true /\
    exec handler sched
      (start (mkResponse (Some resp) (Some x) (Some cid) false None None) cs s0) = Some w /\
    consumer w = CReturned res /\ conds w = [Some (scan_condition s')].
Proof.
  intros (s1 & Hrun & Hfail) Hnd Hacc.
  edestruct (can_return_from toks _ s1 s' Hrun Hfail
               (mkResponse (Some resp) (Some x) (Some cid) true (Some 0) (Some 1))
               x cid cs 2 [] 0 1 [] [] s0 [] [] 0 [(Some 0, Some 1)] [] hs1)
    as (sched & w & res & Hq & Hex & Hret & Hco); [done..|].
  exists (EvCaller :: sched), w, res. split; [done|]. split; [|done].
  simpl. exact Hex.
Qed.

(** What [ReadStreaming] has done when it returns after a condition other
    than [context.Canceled], in terms of the body: see
    [returned_after_condition]. *)
Lemma returned_after_scan resp c cid cs (s0 : St) sched (w : World) res e toks (s' : Sc) :
  forallb own sched = true ->
  exec handler sched (start (mkResponse (Some resp) c (Some cid) false None None) cs s0)
    = Some w ->
  consumer w = CReturned res -> conds w = [Some e] -> e <> context_Canceled ->
  scans (bufio_NewScanner (Body resp)) toks s' ->
  e = scan_condition s' /\
  exists s1,
    accepts handler s0 (List.filter filterSend toks) = Some s1 /\
    if recoverable (Some e) then
      exists hres,
        drains w = 1 /\
        handler s1 (newBuffer ++ concat (List.filter filterSend [Scanner_Bytes s']))
          = (hstate w, hres) /\
        calls w = oks (List.filter filterSend toks) ++
                  [(newBuffer ++ concat (List.filter filterSend [Scanner_Bytes s']), hres)] /\
        res = drained_result (Some e) hres
    else
      drains w = 0 /\ hstate w = s1 /\
      calls w = oks (List.filter filterSend toks) /\
      res = reading_response_body (Some e).
Proof.
  intros Hown Hexec Hret Hconds Hne Hscans.
  destruct (returned_after_condition _ _ _ _ _ _ _ _ _ Hown Hexec Hret Hconds)
    as (t & s1 & Ht & Htc & Hcid & Hpath & Hacc & Hcase).
  destruct Hpath as [(Htc' & _)|(Htc' & Hfl & Hsc)]; [congruence|].
  destruct (scans_det _ _ _ _ _ Hsc Hscans) as [Hu Hs].
  rewrite Hu, Hfl, Hs in *. split; [congruence|]. exists s1. done.
Qed.
End EngineFacts.

(** ** The line scanner *)

(** The buffer of a scanner is never shorter than the first one, and the
    bytes it holds are bytes of the body: on a body that is [held_in_place]
    the scanner never shifts its buffer. *)
Lemma held_in_place_never_shifts (r : Reader) buf_len start end_ :
  held_in_place r -> bufio_startBufSize <= buf_len ->
  start <= end_ -> end_ <= length (reader_data r) ->
  Scanner_shifts buf_len start end_ = false.
Proof.
  unfold held_in_place, Scanner_shifts, bufio_startBufSize. intros Hheld Hlen Hse Hel.
  apply andb_false_iff. right. apply orb_false_iff. split; apply bool_decide_eq_false.
  - lia.
  - assert (2048 <= buf_len / 2); [|lia].
    change 2048 with (4096 / 2). by apply Nat.Div0.div_le_mono.
Qed.

Lemma line_Scan_fail (s s' : LineScanner) :
  line_Scan s = (false, s') -> ls_token s' = [] /\ ls_err s' <> None.
Proof.
  unfold line_Scan. destruct (ls_err s) eqn:He.
  { intros [= <-]. done. }
  destruct (index_nl (ls_rest s)) as [i|].
  - case_bool_decide; [done|]. by intros [= <-].
  - destruct (last_line_too_long s); [by intros [= <-]|].
    destruct (ls_rest s); [|done]. by intros [= <-].
Qed.

Lemma line_Scan_ok (s s' : LineScanner) :
  line_Scan s = (true, s') ->
  ls_err s = None /\ ls_err s' = None /\ ls_end s' = ls_end s /\
  length (ls_rest s') < length (ls_rest s).
Proof.
  unfold line_Scan. destruct (ls_err s) eqn:He; [done|].
  destruct (index_nl (ls_rest s)) as [i|] eqn:Hi.
  - case_bool_decide; [|done]. intros [= <-]. simpl. split_and!; try done.
    rewrite length_drop.
    assert (i < length (ls_rest s)); [|lia].
    clear -Hi. revert i Hi. induction (ls_rest s) as [|c r IH]; intros i; simpl; [done|].
    case_bool_decide; [intros [= <-]; lia|].
    destruct (index_nl r) as [j|]; simpl; [|done]. intros [= <-].
    specialize (IH j eq_refl). lia.
  - destruct (last_line_too_long s); [done|].
    destruct (ls_rest s) eqn:Hr; [done|]. intros [= <-]. simpl. split_and!; try done. lia.
Qed.

(** Scanning a body stops: [scan_all] needs no more calls than the body has
    bytes, plus two. *)
Lemma line_scan_all_total (s : LineScanner) fuel :
  length (ls_rest s) + 1 < fuel -> is_Some (scan_all fuel s).
Proof.
  revert s. induction fuel as [|fuel IH]; intros s Hfuel; [lia|].
  simpl. change (Scanner_Scan s) with (line_Scan s).
  destruct (line_Scan s) as [[] s1] eqn:Hs; [|done].
  destruct (line_Scan_ok _ _ Hs) as (_ & _ & _ & Hlen).
  destruct (IH s1) as [[toks s2] ->]; [lia|]. done.
Qed.

Lemma line_scans_total (s : LineScanner) : exists toks s', scans s toks s'.
Proof.
  destruct (line_scan_all_total s (length (ls_rest s) + 2)) as [[toks s'] H]; [lia|].
  exists toks, s'. by eapply scan_all_scans.
Qed.

(** The condition the goroutine publishes after the scan of a body stopped:
    the body's own end ([io.EOF] for a clean end), or the scanner's
    [ErrTooLong]; and the scanner holds no token then. *)
Lemma line_scans_end (r : Reader) toks (s' : LineScanner) :
  scans (bufio_NewScanner r) toks s' ->
  Scanner_Bytes s' = [] /\
  (ls_err s' = Some (reader_end r) \/
   (ls_err s' = Some bufio_ErrTooLong /\
    (MaxScanTokenSize <= N.of_nat (length (reader_data r)))%N)).
Proof.
  intros (s1 & Hrun & Hfail).
  assert (ls_end s1 = reader_end r /\ ls_err s1 = None /\
          length (ls_rest s1) <= length (reader_data r)) as (He & Hn & Hlen).
  { remember (bufio_NewScanner r) as s0 eqn:Hs0.
    assert (ls_end s0 = reader_end r /\ ls_err s0 = None /\
            length (ls_rest s0) <= length (reader_data r)) as Hinit by (by subst).
    clear Hs0 Hfail. induction Hrun as [s|s sa toks sb Hs _ IH]; [done|].
    apply IH. destruct (line_Scan_ok _ _ Hs) as (_ & ? & ? & ?).
    destruct Hinit as (? & ? & ?). split_and!; [congruence|done|lia]. }
  split; [by apply line_Scan_fail in Hfail as [? _]|].
  change (Scanner_Scan s1) with (line_Scan s1) in Hfail. unfold line_Scan in Hfail.
  rewrite Hn in Hfail. destruct (index_nl (ls_rest s1)) as [i|] eqn:Hi.
  - case_bool_decide as Hlt; [done|]. injection Hfail as <-. right. split; [done|].
    assert (i < length (ls_rest s1)); [|lia].
    clear -Hi. revert i Hi. induction (ls_rest s1) as [|c rest IH]; intros i; simpl; [done|].
    case_bool_decide; [intros [= <-]; lia|].
    destruct (index_nl rest) as [j|]; simpl; [|done]. intros [= <-].
    specialize (IH j eq_refl). lia.
  - destruct (last_line_too_long s1) eqn:Htl.
    + injection Hfail as <-. right. split; [done|].
      unfold last_line_too_long in Htl. apply orb_true_iff in Htl as [Htl|Htl].
      * apply bool_decide_eq_true in Htl. lia.
      * apply andb_true_iff in Htl as [Htl _]. apply bool_decide_eq_true in Htl. lia.
    + destruct (ls_rest s1); [|done]. injection Hfail as <-. left. simpl. by rewrite He.
Qed.

(** ** [ReadAll] and [ReadStreaming] on a body *)

Opaque newBuffer.

Lemma ReadAll_handler_accepts buf recs :
  accepts ReadAll_handler buf recs = Some (buf ++ concat recs).
Proof.
  revert buf. induction recs as [|r recs IH]; intros buf; simpl.
  - by rewrite app_nil_r.
  - unfold ReadAll_handler at 1, writeToBuffer, Buffer_Write. simpl.
    rewrite IH. by rewrite <- app_assoc.
Qed.

(** What [ReadAll] returns after a clean end of stream, whatever the
    schedule: the bytes of its own [newBuffer], the records, and the bytes of
    the drain's [newBuffer]. *)
Lemma ReadAll_after_EOF status data wd toks (s' : LineScanner) c cid cs sched
    (w : World Reader LineScanner Buffer) out serr :
  scans (bufio_NewScanner (mkReader data io_EOF wd)) toks s' ->
  forallb own sched = true ->
  exec ReadAll_handler sched
    (ReadAll_start (mkResponse (Some (mkHTTPResponse status (mkReader data io_EOF wd)))
                      c (Some cid) false None None) cs) = Some w ->
  ReadAll_result w = Some (out, serr) -> conds w = [Some io_EOF] ->
  out = newBuffer ++ concat (List.filter filterSend toks) ++ newBuffer /\ serr = None.
Proof.
  intros Hscans Hown Hexec Hres Hconds. unfold ReadAll_result in Hres.
  destruct (consumer w) as [| | | | |res|] eqn:Hret; try done. injection Hres as <- <-.
  destruct (returned_after_scan ReadAll_handler _ _ _ _ _ _ _ _ _ _ _
              Hown Hexec Hret Hconds ltac:(done) Hscans) as (_ & s1 & Hacc & Hcase).
  rewrite ReadAll_handler_accepts in Hacc. injection Hacc as <-.
  change (recoverable (Some io_EOF)) with true in Hcase.
  destruct Hcase as (hres & _ & Hh & _ & ->).
  destruct (line_scans_end _ _ _ Hscans) as [Hb _]. rewrite Hb in Hh. simpl in Hh.
  unfold ReadAll_handler, writeToBuffer, Buffer_Write in Hh. simpl in Hh.
  injection Hh as <- <-. unfold Buffer_Bytes. rewrite !app_nil_r, <- !app_assoc. done.
Qed.

(** C1.  [ReadAll] does not return the records alone: on the body
    "a\nb\nc\n" followed by a clean end of stream it returns 512 zero bytes,
    then "abc", then 512 zero bytes more, with a nil error; on the empty body
    it returns 1024 zero bytes; under the scheduler [run], and under every
    schedule that ends with the clean end of stream received. *)
Theorem ReadAll_returns_the_bytes_of_newBuffer :
  ReadAll 100 (live_handle body_abc io_EOF) [] =
    Some (make_bytes 512 ++ bytes_of "abc" ++ make_bytes 512, None) /\
  ReadAll 100 (live_handle [] io_EOF) [] = Some (make_bytes 1024, None) /\
  (forall sched w out serr,
     forallb own sched = true ->
     exec ReadAll_handler sched (ReadAll_start (live_handle body_abc io_EOF) []) = Some w ->
     ReadAll_result w = Some (out, serr) -> conds w = [Some io_EOF] ->
     out = make_bytes 512 ++ bytes_of "abc" ++ make_bytes 512 /\ serr = None) /\
  (forall sched w out serr,
     forallb own sched = true ->
     exec ReadAll_handler sched (ReadAll_start (live_handle [] io_EOF) []) = Some w ->
     ReadAll_result w = Some (out, serr) -> conds w = [Some io_EOF] ->
     out = make_bytes 1024 /\ serr = None).
Proof.
  split; [by vm_compute|]. split; [by vm_compute|]. split.
  - intros sched w out serr Hown Hexec Hres Hconds.
    assert (scans (bufio_NewScanner (mkReader body_abc io_EOF true))
              [bytes_of "a"; bytes_of "b"; bytes_of "c"]
              (mkLineScanner [] io_EOF [] (Some io_EOF) true)) as Hscans.
    { apply (scan_all_scans 10). by vm_compute. }
    destruct (ReadAll_after_EOF _ _ _ _ _ _ _ _ _ _ _ _ Hscans Hown Hexec Hres Hconds)
      as [-> ->].
    split; [by vm_compute|done].
  - intros sched w out serr Hown Hexec Hres Hconds.
    assert (scans (bufio_NewScanner (mkReader [] io_EOF true)) []
              (mkLineScanner [] io_EOF [] (Some io_EOF) true)) as Hscans.
    { apply (scan_all_scans 10). by vm_compute. }
    destruct (ReadAll_after_EOF _ _ _ _ _ _ _ _ _ _ _ _ Hscans Hown Hexec Hres Hconds)
      as [-> ->].
    split; [by vm_compute|done].
Qed.

(** C3, as stated, fails on the body "a\nb": under the schedule
    [sched_streamed] of the caller and the goroutine, [ReadStreaming] returns
    nil after three invocations of the handler, on "a", on "b" and on 512
    zero bytes: not "a" and then exactly "b". *)
Lemma ReadStreaming_ab_counterexample :
  forallb quiet sched_streamed = true /\
  exists w,
    exec accept_all sched_streamed (start (live_handle body_ab io_EOF) [] tt) = Some w /\
    consumer w = CReturned None /\
    (calls w).*1 = [bytes_of "a"; bytes_of "b"; make_bytes 512] /\
    (calls w).*1 <> [bytes_of "a"; bytes_of "b"].
Proof.
  split; [done|]. eexists. split; [by vm_compute|]. split; [done|]. split; [by vm_compute|].
  by vm_compute.
Qed.

(** C3, amended.  For a body of at most 2048 bytes (half the first buffer
    of the scanner, so that the scanner never moves the bytes of a unit it
    has handed out) followed by a clean end of stream, which the scanner
    reads as the units [toks] (the final unit without newline among them, as
    the last one): whenever [ReadStreaming] returns after it received the end
    of stream, nobody else using the handle, it has invoked the handler on
    each unit that is neither empty nor the bare newline, in the order
    scanned, and then exactly once more, on the drain buffer as [newBuffer]
    made it (nothing of the body is in it); it has drained once; it returns
    what that last invocation returned, nil when the handler accepts.  And
    with the context not canceled and a handler that accepts the units, some
    schedule of the caller and the goroutine alone makes it return so. *)
Theorem ReadStreaming_delivers_final_unit_as_record {St : Type}
    (handler : St -> bytes -> St * option Error) status (r : Reader) toks (s' : LineScanner)
    x cid cs (s0 : St) :
  reader_end r = io_EOF -> held_in_place r ->
  scans (bufio_NewScanner r) toks s' ->
  (forall sched (w : World Reader LineScanner St) res,
     forallb own sched = true ->
     exec handler sched
       (start (mkResponse (Some (mkHTTPResponse status r))
                 (Some x) (Some cid) false None None) cs s0) = Some w ->
     consumer w = CReturned res -> conds w = [Some io_EOF] ->
     exists s1 hres,
       accepts handler s0 (List.filter filterSend toks) = Some s1 /\
       handler s1 newBuffer = (hstate w, hres) /\
       calls w = oks (List.filter filterSend toks) ++ [(newBuffer, hres)] /\
       drains w = 1 /\ res = hres) /\
  (ctx_done cs x = false ->
   forall s1, accepts handler s0 (List.filter filterSend toks) = Some s1 ->
   exists sched (w : World Reader LineScanner St) res,
     forallb quiet sched = true /\
     exec handler sched
       (start (mkResponse (Some (mkHTTPResponse status r))
                 (Some x) (Some cid) false None None) cs s0) = Some w /\
     consumer w = CReturned res /\ conds w = [Some io_EOF]).
Proof.
  intros Hend Hheld Hscans.
  assert (Scanner_Err s' = None) as Herr.
  { destruct (line_scans_end _ _ _ Hscans) as [_ [He|[_ Hlong]]].
    - change (Scanner_Err s') with (line_Err s'). unfold line_Err. by rewrite He, Hend.
    - unfold held_in_place, bufio_startBufSize in Hheld. unfold MaxScanTokenSize in Hlong.
      lia. }
  split.
  - intros sched w res Hown Hexec Hret Hconds.
    destruct (returned_after_scan handler _ _ _ _ _ _ _ _ _ _ _
                Hown Hexec Hret Hconds ltac:(done) Hscans) as (_ & s1 & Hacc & Hcase).
    change (recoverable (Some io_EOF)) with true in Hcase.
    destruct Hcase as (hres & Hdr & Hh & Hcalls & ->).
    destruct (line_scans_end _ _ _ Hscans) as [Hb _]. rewrite Hb in Hh, Hcalls.
    simpl in Hh, Hcalls. rewrite app_nil_r in Hh, Hcalls.
    exists s1, hres. split_and!; try done. by destruct hres.
  - intros Hnd s1 Hacc.
    destruct (ReadStreaming_can_return handler
                (mkHTTPResponse status r) x cid cs s0 s1 toks s'
                Hscans Hnd Hacc) as (sched & w & res & Hq & Hex & Hret & Hco).
    exists sched, w, res. split_and!; try done.
    rewrite Hco. unfold scan_condition. by rewrite Herr.
Qed.

Lemma ReadStreaming_delivers_final_unit_as_record_witness :
  scans (bufio_NewScanner (mkReader body_ab io_EOF true)) [bytes_of "a"; bytes_of "b"]
    (mkLineScanner [] io_EOF [] (Some io_EOF) true) /\
  held_in_place (mkReader body_ab io_EOF true) /\
  exists w,
    exec accept_all sched_streamed (start (live_handle body_ab io_EOF) [] tt) = Some w /\
    calls w = oks [bytes_of "a"; bytes_of "b"] ++ [(newBuffer, None)] /\
    consumer w = CReturned None.
Proof.
  assert (scans (bufio_NewScanner (mkReader body_ab io_EOF true))
            [bytes_of "a"; bytes_of "b"]
            (mkLineScanner [] io_EOF [] (Some io_EOF) true)) as Hscans.
  { apply (scan_all_scans 10). by vm_compute. }
  assert (held_in_place (mkReader body_ab io_EOF true)) as Hheld.
  { unfold held_in_place, bufio_startBufSize. simpl. lia. }
  split; [exact Hscans|]. split; [exact Hheld|].
  exists (after accept_all sched_streamed (start (live_handle body_ab io_EOF) [] tt)).
  assert (exec accept_all sched_streamed (start (live_handle body_ab io_EOF) [] tt) =
          Some (after accept_all sched_streamed (start (live_handle body_ab io_EOF) [] tt)))
    as Hexec by (by vm_compute).
  split; [exact Hexec|].
  destruct (proj1 (ReadStreaming_delivers_final_unit_as_record accept_all 200
                     (mkReader body_ab io_EOF true)
                     [bytes_of "a"; bytes_of "b"] _ (WithCancel 0 Background) 0 [] tt
                     eq_refl Hheld Hscans)
              sched_streamed _ None eq_refl Hexec eq_refl eq_refl)
    as (s1 & hres & _ & Hh & Hcalls & _ & Hres).
  subst hres. split; [exact Hcalls|done].
Defined.

(** ** [Do] and the handle of a failed exchange *)

(** C8.  When the requester fails to build its request, [Do] returns no
    handle and the requester's error wrapped, and changes nothing.  When the
    request is built and the transport fails, [Do] returns a handle and the
    transport's error wrapped; of that handle only the cancel trigger is
    set (no response, no context, the once unused, no channels), and
    [Cancel] on it does not panic: it pulls the trigger of the context [Do]
    derived for the request. *)
Theorem Do_on_failure {R : Type} (http_Do : HTTPRequest -> option (HTTPResponse R) * option Error)
    (cc : Client) (resource : Requester) (rt : Runtime R) :
  match Request resource (serverURL cc) with
  | Err err =>
      Do http_Do cc resource rt = ((None, Some (WrapError "sending ksql request: " err)), rt)
  | Ok req =>
      match (http_Do (WithClientConfig cc (WithCancel (next_ctx rt) (ctx cc)) req)).2 with
      | Some e =>
          (Do http_Do cc resource rt).1 =
            (Some (mkResponse None None (Some (next_ctx rt)) false None None),
             Some (WrapError "sending ksql request: " e)) /\
          forall (Sc St : Type) (w : World R Sc St),
            Cancel (set_rr (mkResponse None None (Some (next_ctx rt)) false None None) w) =
              Some (add_canceled (next_ctx rt)
                      (set_rr (mkResponse None None (Some (next_ctx rt)) false None None) w))
      | None =>
          exists resp,
            (Do http_Do cc resource rt).1 =
              (Some (mkResponse resp (Some (WithCancel (next_ctx rt) (ctx cc)))
                       (Some (next_ctx rt)) false None None), None)
      end
  end.
Proof.
  unfold Do. destruct (Request resource (serverURL cc)) as [req|err]; [|done].
  destruct (http_Do _) as [resp [e|]]; simpl; [done|eauto].
Qed.

(** C10, as stated, fails: not every consumption call on the handle of a
    failed exchange panics.  After the first call of [ReadStreaming] has
    panicked, [Read] returns the pair of channels, and a second call of
    [ReadStreaming] gets to its select, where no step of its own is enabled:
    it blocks.  No goroutine was started, so the nil context was never
    touched. *)
Lemma later_consumption_does_not_panic :
  exists w w2 : World Reader LineScanner unit,
    exec accept_all [EvCaller] (start (failed_handle 0) [] tt) = Some w /\
    consumer w = CPanic /\ tasks w = [] /\
    (Read w).2 = Some (Some 0, Some 1) /\
    exec accept_all [EvCaller] (ReadStreaming_again w) = Some w2 /\
    consumer w2 = CSelect (Some 0) (Some 1) /\
    forallb (fun ev => bool_decide (step accept_all ev w2 = None))
      [EvCaller; EvTask 0; EvRecvData 0; EvRecvErr 0; EvClosedData; EvClosedErr] = true.
Proof.
  eexists _, _. split; [by vm_compute|]. split; [done|]. split; [done|].
  split; [done|]. split; [by vm_compute|]. split; [done|]. by vm_compute.
Qed.

(** C10, amended.  On the handle [Do] returns after a transport failure:
    [Cancel] does not panic; the first [Read] panics, and so do
    [ReadStreaming], whatever its handler, and [ReadAll] when they are the
    first to consume the handle; the panic is on the nil embedded response,
    whose body [initAsyncRead] takes: no goroutine starts, so the nil context
    is never reached, and the handler is never invoked.  A later call does
    not panic: [Read] then returns the pair of channels made before the
    panic, and [ReadStreaming] and [ReadAll] called again get to their select
    and stay there, never returning and never invoking the handler, as
    nothing is ever sent on these channels and they are never closed. *)
Theorem only_first_consumption_panics_on_failed_handle {R Sc St : Type} `{!Bufio R Sc}
    (handler : St -> bytes -> St * option Error) (cancel : CancelFunc) cs (s : St) :
  let h : Response R := mkResponse None None (Some cancel) false None None in
  (exists w', Cancel (start h cs s : World R Sc St) = Some w' /\ cancel ∈ canceled w') /\
  (Read (start h cs s : World R Sc St)).2 = None /\
  (exists w', step handler EvCaller (start h cs s : World R Sc St) = Some w' /\
              consumer w' = CPanic) /\
  (forall sched (w : World R Sc St),
     forallb own sched = true -> exec handler sched (start h cs s) = Some w ->
     (consumer w = CInit \/ consumer w = CPanic) /\ calls w = [] /\ tasks w = []) /\
  (forall sched (w : World R Sc Buffer),
     forallb own sched = true -> exec ReadAll_handler sched (ReadAll_start h cs) = Some w ->
     ReadAll_result w = None) /\
  (forall sched (w : World R Sc St),
     forallb own sched = true -> exec handler sched (start h cs s) = Some w ->
     consumer w = CPanic ->
     (Read w).2 = Some (Some 0, Some 1) /\
     (exists w2, step handler EvCaller (ReadStreaming_again w) = Some w2 /\
                 consumer w2 = CSelect (Some 0) (Some 1)) /\
     forall sched2 (w2 : World R Sc St),
       forallb own sched2 = true ->
       exec handler sched2 (ReadStreaming_again w) = Some w2 ->
       (consumer w2 = CInit \/ consumer w2 = CSelect (Some 0) (Some 1)) /\
       calls w2 = [] /\ tasks w2 = [] /\ closed w2 = []) /\
  (forall sched (w : World R Sc Buffer),
     forallb own sched = true -> exec ReadAll_handler sched (ReadAll_start h cs) = Some w ->
     consumer w = CPanic ->
     forall sched2 (w2 : World R Sc Buffer),
       forallb own sched2 = true ->
       exec ReadAll_handler sched2 (ReadStreaming_again w) = Some w2 ->
       ReadAll_result w2 = None /\ calls w2 = []).
Proof.
  intros h.
  assert (forall (T : Type) (hd : T -> bytes -> T * option Error) (t0 : T) sched
                 (w : World R Sc T),
            forallb own sched = true -> exec hd sched (start h cs t0) = Some w ->
            world_ok h w /\
            ((consumer w = CInit /\ once (rr w) = false) \/ consumer w = CPanic) /\
            calls w = [] /\ tasks w = []) as Hinv.
  { intros T hd t0 sched w Hown Hexec.
    refine (exec_invariant hd own
              (fun w => world_ok h w /\
                        (((consumer w = CInit /\ once (rr w) = false) \/ consumer w = CPanic) /\
                         calls w = [] /\ tasks w = []))
              _ sched _ w Hown _ Hexec).
    - clear. intros ev w w' Hev [Hok (Hpc & Hcalls & Htasks)] Hstep.
      split; [by eapply world_ok_step|].
      destruct ev as [i| |i|i| | |id| |i|i]; try done; simpl in Hstep.
      + by rewrite Htasks in Hstep.
      + unfold caller_step in Hstep. destruct Hpc as [[Hpc Ho]|Hpc]; rewrite Hpc in Hstep; [|done].
        destruct (Read w) as [w1 r] eqn:HR.
        destruct (Read_spec h _ _ _ Hok HR) as (Q1 & Q2 & Q3 & Q4 & Q5 & Q6 & _ & _ & Hr1 & _).
        assert (tasks w1 = []) as Ht1.
        { unfold Read, once_Do, initAsyncRead in HR. rewrite Ho in HR.
          assert (Response_ (rr w) = None) as Hn by apply Hok. rewrite Hn in HR.
          injection HR as <- _. done. }
        destruct Hr1 as [(-> & _)|(-> & Hc)]; [|specialize (Hc eq_refl); congruence].
        injection Hstep as <-. simpl. rewrite Q4, Ht1. naive_solver.
      + destruct Hpc as [[Hpc Ho]|Hpc]; unfold consumer_data in Hstep; by rewrite Hpc in Hstep.
      + destruct Hpc as [[Hpc Ho]|Hpc]; unfold consumer_err in Hstep; by rewrite Hpc in Hstep.
      + destruct Hpc as [[Hpc Ho]|Hpc]; unfold consumer_data in Hstep; by rewrite Hpc in Hstep.
      + destruct Hpc as [[Hpc Ho]|Hpc]; unfold consumer_err in Hstep; by rewrite Hpc in Hstep.
      + injection Hstep as <-. done.
    - split; [by apply world_ok_start|]. simpl. naive_solver. }
  (* a call after the panic *)
  assert (forall (T : Type) (hd : T -> bytes -> T * option Error) (w : World R Sc T),
            world_ok h w -> consumer w = CPanic -> calls w = [] ->
            (Read w).2 = Some (Some 0, Some 1) /\
            (exists w2, step hd EvCaller (ReadStreaming_again w) = Some w2 /\
                        consumer w2 = CSelect (Some 0) (Some 1)) /\
            forall sched2 (w2 : World R Sc T),
              forallb own sched2 = true ->
              exec hd sched2 (ReadStreaming_again w) = Some w2 ->
              (consumer w2 = CInit \/ consumer w2 = CSelect (Some 0) (Some 1)) /\
              calls w2 = [] /\ tasks w2 = [] /\ closed w2 = []) as Hlater.
  { intros T hd w Hok Hpanic Hcalls.
    assert (once (rr w) = true) as Ho.
    { apply (world_ok_started h w Hok). by rewrite Hpanic. }
    assert (forall w1 : World R Sc T, world_ok h w1 -> once (rr w1) = true ->
              tasks w1 = [] /\ closed w1 = [] /\
              forall w2 r, Read w1 = (w2, r) ->
                r = Some (Some 0, Some 1) /\ calls w2 = calls w1 /\ once (rr w2) = true /\
                consumer w2 = consumer w1 /\
                forall c, caller_chans_ok c -> world_ok h (set_consumer c w2)) as Hq.
    { intros w1 Hok1 Ho1.
      assert (tasks w1 = [] /\ closed w1 = []) as [Ht1 Hc1].
      { destruct Hok1 as (_ & _ & _ & _ & [Hc|(_ & _ & _ & _ & _ & [Hc|Hc])]).
        - destruct Hc as (Hf & _). congruence.
        - by destruct Hc as (_ & ? & ? & _).
        - by destruct Hc as (? & ? & ? & _). }
      split; [done|]. split; [done|]. intros w2 r HR.
      destruct (Read_spec h _ _ _ Hok1 HR) as (Q1 & _ & _ & Q4 & _ & _ & Q7 & Q8 & Hr & _).
      destruct Hr as [(_ & _ & Hf)|(-> & _)]; [congruence|]. done. }
    destruct (Hq w Hok Ho) as (Htw & Hcw & HRw).
    assert (world_ok h (ReadStreaming_again w)) as Hok0.
    { eapply world_ok_frame; [exact Hok|done..]. }
    split; [|split].
    - destruct (Read w) as [w2 r] eqn:HR. by destruct (HRw _ _ eq_refl) as (-> & _).
    - simpl. unfold caller_step. simpl.
      destruct (Read (ReadStreaming_again w)) as [w2 r] eqn:HR.
      destruct (Hq _ Hok0 Ho) as (_ & _ & HR0).
      destruct (HR0 _ _ HR) as (-> & _). eauto.
    - intros sched2 w2 Hown Hex.
      assert (world_ok h w2 /\ once (rr w2) = true /\
              (consumer w2 = CInit \/ consumer w2 = CSelect (Some 0) (Some 1)) /\
              calls w2 = []) as (Hok2 & Ho2 & Hpc2 & Hcalls2).
      { refine (exec_invariant hd own
                  (fun w2 => world_ok h w2 /\ once (rr w2) = true /\
                     (consumer w2 = CInit \/ consumer w2 = CSelect (Some 0) (Some 1)) /\
                     calls w2 = [])
                  _ sched2 _ w2 Hown _ Hex).
        - clear -Hq. intros ev wa wb Hev (Hoka & Hoa & Hpca & Hca) Hstep.
          split; [by eapply world_ok_step|].
          destruct (Hq _ Hoka Hoa) as (Hta & Hcla & HRa).
          destruct ev as [i| |i|i| | |id| |i|i]; try done; simpl in Hstep.
          + by rewrite Hta in Hstep.
          + unfold caller_step in Hstep. destruct Hpca as [Hpca|Hpca]; rewrite Hpca in Hstep; [|done].
            destruct (Read wa) as [w1 r] eqn:HR.
            destruct (HRa _ _ eq_refl) as (-> & Q1 & Q2 & _).
            injection Hstep as <-. simpl. split; [done|]. split; [by right|congruence].
          + destruct (consumer_data wa); simpl in Hstep; [|done].
            unfold recv_data in Hstep. by rewrite Hta in Hstep.
          + destruct (consumer_err wa); simpl in Hstep; [|done].
            unfold recv_err in Hstep. by rewrite Hta in Hstep.
          + destruct (consumer_data wa); simpl in Hstep; [|done].
            rewrite Hcla in Hstep. by rewrite bool_decide_eq_false_2 in Hstep by set_solver.
          + destruct (consumer_err wa); simpl in Hstep; [|done].
            rewrite Hcla in Hstep. by rewrite bool_decide_eq_false_2 in Hstep by set_solver.
          + injection Hstep as <-. done.
        - split; [done|]. split; [done|]. split; [by left|done]. }
      destruct (Hq _ Hok2 Ho2) as (? & ? & _). done. }
  split_and!.
  - eexists. split; [done|]. simpl. set_solver.
  - done.
  - eexists. split; [done|]. done.
  - intros sched w Hown Hexec. destruct (Hinv _ _ _ _ _ Hown Hexec) as (_ & Hpc & ? & ?).
    naive_solver.
  - intros sched w Hown Hexec. destruct (Hinv _ _ _ _ _ Hown Hexec) as (_ & Hpc & ? & ?).
    unfold ReadAll_result. destruct Hpc as [[-> _]| ->]; done.
  - intros sched w Hown Hexec Hpanic.
    destruct (Hinv _ _ _ _ _ Hown Hexec) as (Hok & _ & Hcalls & _).
    by apply Hlater.
  - intros sched w Hown Hexec Hpanic sched2 w2 Hown2 Hex2.
    destruct (Hinv _ _ _ _ _ Hown Hexec) as (Hok & _ & Hcalls & _).
    destruct (Hlater _ ReadAll_handler w Hok Hpanic Hcalls) as (_ & _ & Hrun).
    destruct (Hrun _ _ Hown2 Hex2) as (Hpc & ? & _). split; [|done].
    unfold ReadAll_result. by destruct Hpc as [-> | ->].
Qed.

(** ** The theorems at sample inputs *)

Lemma Read_starts_one_reader_witness :
  exists w,
    exec accept_all sched_two_readers (start (live_handle body_ab io_EOF) [] tt) = Some w /\
    length (tasks w) <= 1 /\
    (forall r, r ∈ reads w -> r = (dataCh (rr w), errCh (rr w))) /\
    length (reads w) = 2 /\
    received w = [(Peer, bytes_of "a"); (Caller, bytes_of "b")].
Proof.
  exists (after accept_all sched_two_readers (start (live_handle body_ab io_EOF) [] tt)).
  assert (exec accept_all sched_two_readers (start (live_handle body_ab io_EOF) [] tt) =
          Some (after accept_all sched_two_readers (start (live_handle body_ab io_EOF) [] tt)))
    as Hexec by (by vm_compute).
  split; [exact Hexec|].
  destruct (Read_starts_one_reader accept_all _ _ _ _ _ _ _ Hexec) as (Hlen & Hreads & _).
  split; [exact Hlen|]. split; [exact Hreads|]. split; by vm_compute.
Defined.

Lemma reader_publishes_kept_units_witness :
  exists w t,
    exec accept_all sched_two_readers (start (live_handle body_ab io_EOF) [] tt) = Some w /\
    tasks w = [t] /\
    t_units t = [bytes_of "a"; bytes_of "b"] /\
    t_sent t ++ pending (t_pc t) = List.filter filterSend (t_units t ++ t_flushed t).
Proof.
  set (w := after accept_all sched_two_readers (start (live_handle body_ab io_EOF) [] tt)).
  assert (exec accept_all sched_two_readers (start (live_handle body_ab io_EOF) [] tt) =
          Some w) as Hexec by (by vm_compute).
  assert (exists t, tasks w = [t] /\ t_units t = [bytes_of "a"; bytes_of "b"])
    as (t & Ht & Hu) by (eexists; split; by vm_compute).
  exists w, t. split; [exact Hexec|]. split; [exact Ht|]. split; [exact Hu|].
  assert (t ∈ tasks w) as Hin by (rewrite Ht; apply list_elem_of_here).
  destruct (reader_publishes_kept_units accept_all _ _ _ _ _ _ _ t Hexec Hin)
    as (resp' & _ & _ & Hsent & _).
  exact Hsent.
Defined.

Lemma handler_error_stops_ReadStreaming_witness :
  exists w,
    exec (reject (bytes_of "b")) sched_rejected
      (start (live_handle body_abc io_EOF) [] tt) = Some w /\
    calls w = oks [bytes_of "a"] ++ [(bytes_of "b", Some (ErrorString "rejected"))] /\
    drains w = 0 /\
    consumer w = CReturned (Some (ErrorString "rejected")) /\
    ctx_done (canceled w) (WithCancel 0 Background) = true.
Proof.
  set (w := after (reject (bytes_of "b")) sched_rejected
              (start (live_handle body_abc io_EOF) [] tt)).
  assert (exec (reject (bytes_of "b")) sched_rejected
            (start (live_handle body_abc io_EOF) [] tt) = Some w) as Hexec by (by vm_compute).
  assert ((bytes_of "b", Some (ErrorString "rejected")) ∈ calls w) as Hin.
  { assert (calls w = [(bytes_of "a", None); (bytes_of "b", Some (ErrorString "rejected"))])
      as -> by (by vm_compute).
    apply list_elem_of_further, list_elem_of_here. }
  exists w. split; [exact Hexec|].
  destruct (handler_error_stops_ReadStreaming (reject (bytes_of "b")) _ Background 0 [] tt
              sched_rejected w _ _ eq_refl Hexec Hin eq_refl) as (_ & Hdr & _).
  split; [by vm_compute|]. split; [exact Hdr|]. split; by vm_compute.
Defined.



(** * Further properties of the engine *)

Section EngineMore.
Context {R Sc St : Type} `{!Bufio R Sc}.
Variable handler : St -> bytes -> St * option Error.

Local Abbreviation World := (World R Sc St).
Local Abbreviation Task := (Task Sc).

(** Where a goroutine stands, from whether it has published its condition. *)
Lemma task_ok_pc cs c (s0 : Sc) (t : Task) :
  task_ok cs c s0 t ->
  match t_cond t with
  | None => t_pc t = RLoop \/ (exists byt, t_pc t = RSendData byt KLoop) \/
            (exists e fl, t_pc t = RSendErr e fl) \/ t_pc t = RPanic
  | Some _ => (exists byt, t_pc t = RSendData byt KClose) \/ t_pc t = RCloseData \/
              t_pc t = RCloseErr \/ t_pc t = RDone
  end.
Proof.
  intros [_ Hpc]. unfold stopped_by_cancel, stopped_by_scan in Hpc.
  destruct (t_pc t) as [|byt []|e []| | | |]; destruct_and?;
    repeat match goal with H : _ \/ _ |- _ => destruct H; destruct_and? end;
    repeat match goal with H : t_cond t = _ |- _ => rewrite H; clear H end; eauto 10.
Qed.

(** The cancel triggers pulled are never taken back. *)
Lemma step_canceled ev (w w' : World) :
  step handler ev w = Some w' -> canceled w ⊆ canceled w'.
Proof.
  destruct ev as [i| |i|i| | |id| |i|i]; simpl.
  - destruct (tasks w !! i) as [t|]; simpl; [|done].
    destruct (task_step w t) as [[t' cl]|]; simpl; [|done]. by intros [= <-].
  - unfold caller_step, Cancel, Read, once_Do, initAsyncRead.
    destruct (consumer w); try done.
    + destruct (once (rr w)); simpl; [by intros [= <-]|].
      destruct (Response_ (rr w)); simpl; by intros [= <-].
    + destruct (cancelFunc (rr w)); intros [= <-]; simpl; set_solver.
    + destruct (cancelFunc (rr w)); [destruct (isOneOf _ _)|]; intros [= <-]; simpl; set_solver.
  - destruct (consumer_data w) as [d|]; simpl; [|done].
    unfold recv_data. destruct (tasks w !! i) as [t|]; simpl; [|done].
    case_bool_decide; [|done]. destruct (send_data t) as [[byt t']|]; simpl; [|done].
    unfold on_data, invoke. simpl. destruct (consumer w); try done.
    + destruct (handler _ _) as [hs [he|]]; by intros [= <-].
    + by intros [= <-].
  - destruct (consumer_err w) as [e|]; simpl; [|done].
    unfold recv_err. destruct (tasks w !! i) as [t|]; simpl; [|done].
    case_bool_decide; [|done]. destruct (send_err t) as [[err t']|]; simpl; [|done].
    by intros [= <-].
  - destruct (consumer_data w) as [d|]; simpl; [|done].
    case_bool_decide; [|done]. unfold on_data_closed, on_data, invoke.
    destruct (consumer w) as [| | | |d0 err buf derr| |]; try done.
    + destruct (handler _ _) as [hs [he|]]; by intros [= <-].
    + destruct derr; [by intros [= <-]|].
      destruct (handler _ _) as [hs [he|]]; [|destruct (errors_Is _ _)]; by intros [= <-].
  - destruct (consumer_err w) as [e|]; simpl; [|done].
    case_bool_decide; [|done]. by intros [= <-].
  - intros [= <-]. simpl. set_solver.
  - unfold Read, once_Do, initAsyncRead.
    destruct (once (rr w)); simpl; [by intros [= <-]|].
    destruct (Response_ (rr w)); simpl; by intros [= <-].
  - destruct (tasks w !! i) as [t|]; simpl; [|done].
    case_bool_decide; [|done]. unfold recv_data.
    destruct (tasks w !! i) as [t1|]; simpl; [|done].
    case_bool_decide; [|done]. destruct (send_data t1) as [[byt t']|]; simpl; [|done].
    by intros [= <-].
  - destruct (tasks w !! i) as [t|]; simpl; [|done].
    case_bool_decide; [|done]. unfold recv_err.
    destruct (tasks w !! i) as [t1|]; simpl; [|done].
    case_bool_decide; [|done]. destruct (send_err t1) as [[err t']|]; simpl; [|done].
    by intros [= <-].
Qed.

(** Before the goroutine exists a step starts it, at its loop, or starts
    none. *)
Lemma step_tasks_new (h : Response R) ev (w w' : World) :
  world_ok h w -> tasks w = [] -> step handler ev w = Some w' ->
  tasks w' = [] \/
  exists resp, Response_ h = Some resp /\
    tasks w' = [mkTask 0 1 (bufio_NewScanner (Body resp)) RLoop [] [] [] None].
Proof.
  intros Hok Ht Hstep.
  assert (closed w = []) as Hcl.
  { destruct Hok as (_ & _ & _ & _ & [Hc|(_ & _ & _ & _ & _ & [Hc|Hc])]);
      [apply Hc|apply Hc|]. destruct Hc as (? & ? & _ & Ht' & _). congruence. }
  assert (forall w1 r, Read w = (w1, r) ->
            tasks w1 = [] \/
            exists resp, Response_ h = Some resp /\
              tasks w1 = [mkTask 0 1 (bufio_NewScanner (Body resp)) RLoop [] [] [] None])
    as HRead.
  { intros w1 r HR.
    destruct (Read_spec h _ _ _ Hok HR) as (_ & _ & _ & _ & _ & _ & _ & _ & _ & Hsame & Hnew).
    destruct (once (rr w)) eqn:Ho; [left; by rewrite Hsame|].
    destruct (Response_ h) as [resp|] eqn:Hresp; [right; eauto|]. left.
    assert (Response_ (rr w) = None) as Hn by (destruct Hok as (-> & _); done).
    unfold Read, once_Do, initAsyncRead in HR. rewrite Ho, Hn in HR.
    injection HR as <- _. done. }
  destruct ev as [i| |i|i| | |id| |i|i]; simpl in Hstep; rewrite ?Ht in Hstep; try done.
  - unfold caller_step, Cancel in Hstep. destruct (consumer w); try done.
    + destruct (Read w) as [w1 r] eqn:HR. destruct (HRead _ _ eq_refl) as [H1|H1];
        destruct r as [[d e]|]; injection Hstep as <-; simpl; eauto.
    + destruct (cancelFunc (rr w)); injection Hstep as <-; by left.
    + destruct (cancelFunc (rr w)); [destruct (isOneOf _ _)|]; injection Hstep as <-; by left.
  - destruct (consumer_data w); simpl in Hstep; [|done].
    unfold recv_data in Hstep. by rewrite Ht in Hstep.
  - destruct (consumer_err w); simpl in Hstep; [|done].
    unfold recv_err in Hstep. by rewrite Ht in Hstep.
  - destruct (consumer_data w) as [d|]; simpl in Hstep; [|done].
    rewrite Hcl in Hstep. by rewrite bool_decide_eq_false_2 in Hstep by set_solver.
  - destruct (consumer_err w) as [d|]; simpl in Hstep; [|done].
    rewrite Hcl in Hstep. by rewrite bool_decide_eq_false_2 in Hstep by set_solver.
  - injection Hstep as <-. by left.
  - destruct (Read w) as [w1 r] eqn:HR. injection Hstep as <-. simpl. eauto.
Qed.

(** What a turn of the goroutine, or a completed send, keeps of it. *)
Lemma task_moves (w : World) (t t' : Task) :
  (exists cl, task_step w t = Some (t', cl)) \/
  (exists byt, send_data t = Some (byt, t')) \/
  (exists e, send_err t = Some (e, t')) ->
  (t_pc t' = RPanic -> t_pc t = RLoop /\ Context (rr w) = None) /\
  (t_units t' = t_units t /\ t_scanner t' = t_scanner t \/
   t_pc t = RLoop /\ exists x, Context (rr w) = Some x /\ ctx_done (canceled w) x = false).
Proof.
  intros [[cl Hs]|[[byt Hs]|[e Hs]]].
  - unfold task_step in Hs. destruct (t_pc t) eqn:Hp; try done.
    + destruct (Context (rr w)) as [x|]; [|injection Hs as <- _; simpl; (split; [done|first [by left|eauto]])].
      destruct (ctx_done _ _) eqn:Hd; [injection Hs as <- _; simpl; (split; [done|first [by left|eauto]])|].
      split; [|eauto].
      destruct (Scanner_Scan _) as [[] sc]; injection Hs as <- _; [|done].
      unfold filterSendDataChannel. by destruct (filterSend _).
    + injection Hs as <- _. simpl. split; [done|by left].
    + injection Hs as <- _. simpl. split; [done|by left].
  - unfold send_data in Hs. destruct (t_pc t) as [|b []| | | | |]; try done;
      injection Hs as _ <-; simpl; (split; [done|first [by left|eauto]]).
  - unfold send_err, filterSendDataChannel in Hs.
    destruct (t_pc t) as [| |e' []| | | |]; try done; injection Hs as _ <-;
      [destruct (filterSend _)|]; simpl; (split; [done|first [by left|eauto]]).
Qed.

(** A goroutine panics on a nil context only. *)
Lemma reader_panics_on_nil_context resp c cancel cs (s : St) sched (w : World) t :
  exec handler sched (start (mkResponse resp c cancel false None None) cs s) = Some w ->
  t ∈ tasks w -> t_pc t = RPanic -> c = None.
Proof.
  intros Hexec. revert t.
  set (h := mkResponse resp c cancel false None None) in *.
  refine (proj2 (exec_invariant handler (fun _ => true)
            (fun w => world_ok h w /\ forall t, t ∈ tasks w -> t_pc t = RPanic -> c = None)
            _ sched _ w _ _ Hexec)).
  - clear. intros ev w w' _ [Hok Hinv] Hstep. split; [by eapply world_ok_step|].
    intros t' Hin Hp.
    assert (Context (rr w) = c) as Hctx by apply Hok.
    destruct (tasks w) as [|t0 ts] eqn:Ht.
    + destruct (step_tasks_new h _ _ _ Hok Ht Hstep) as [Hn|(r & _ & Hn)];
        rewrite Hn in Hin; [set_solver|].
      by apply list_elem_of_singleton in Hin as ->.
    + assert (ts = []) as ->.
      { assert (tasks w !! 0 = Some t0) as Hi by (by rewrite Ht).
        destruct (world_ok_task _ _ _ _ Hok Hi) as (_ & Ht' & _). congruence. }
      destruct (step_tasks handler h ev w w' t0 Hok Ht Hstep)
        as [Hsame|Hmove].
      * rewrite Hsame in Hin. apply list_elem_of_singleton in Hin as ->.
        apply (Hinv t0); [apply list_elem_of_here|done].
      * assert (exists t1, tasks w' = [t1] /\
                  ((exists cl, task_step w t0 = Some (t1, cl)) \/
                   (exists byt, send_data t0 = Some (byt, t1)) \/
                   (exists e, send_err t0 = Some (e, t1)))) as (t1 & Ht1 & Hm)
          by naive_solver.
        rewrite Ht1 in Hin. apply list_elem_of_singleton in Hin as ->.
        destruct (task_moves _ _ _ Hm) as [Hpanic _].
        destruct (Hpanic Hp) as [_ Hnone]. congruence.
  - clear. by induction sched.
  - split; [by apply world_ok_start|]. simpl. set_solver.
Qed.

(** X1.  On the handle of a successful exchange (response, context and
    cancel trigger set) that nobody else uses, [ReadStreaming] never
    deadlocks: in every state a schedule of the caller, the goroutine and the
    contexts reaches, either [ReadStreaming] has returned, or a step of the
    caller or of the goroutine is enabled. *)
Theorem ReadStreaming_never_deadlocks resp x cid cs (s0 : St) sched (w : World) :
  forallb own sched = true ->
  exec handler sched
    (start (mkResponse (Some resp) (Some x) (Some cid) false None None) cs s0) = Some w ->
  (exists res, consumer w = CReturned res) \/
  (exists ev, quiet ev = true /\ is_Some (step handler ev w)).
Proof.
  intros Hown Hexec.
  destruct (reach_own_ok handler _ _ _ _ _ _ _ Hown Hexec) as [Hok Hown_ok].
  destruct Hown_ok as [(_ & _ & Hpc & _)|(t & Ht & Hcok)].
  { right. exists EvCaller. split; [done|]. simpl. unfold caller_step. rewrite Hpc.
    destruct (Read w) as [w1 [[d e]|]]; eauto. }
  assert (tasks w !! 0 = Some t) as Hi by (by rewrite Ht).
  destruct (world_ok_task _ _ _ _ Hok Hi)
    as (_ & _ & Ho & Hd & He & Hcl & Hrc & resp' & Hresp & Htok).
  pose proof (task_ok_pc _ _ _ _ Htok) as Hpc.
  assert (t_pc t <> RPanic) as Hnp.
  { intros Hp.
    assert (Some x = None) as Hbad; [|done].
    eapply (reader_panics_on_nil_context _ _ _ _ _ _ _ t Hexec); [|done].
    rewrite Ht. apply list_elem_of_here. }
  assert (Context (rr w) = Some x) as Hctx by apply Hok.
  assert (caller_chans_ok (consumer w)) as Hch by apply Hok.
  unfold caller_ok in Hcok.
  destruct (consumer w) as [|d e|herr|d err|d err buf derr|res|] eqn:Hc; try done.
  - (* at the select *)
    destruct Hcok as (Htc & _). rewrite Htc in Hpc. destruct Hch as [-> ->].
    right. destruct Hpc as [Hp|[[byt Hp]|[(e & fl & Hp)|Hp]]]; [| | |done].
    + exists (EvTask 0). split; [done|]. simpl. rewrite Ht. simpl.
      unfold task_step. rewrite Hp, Hctx.
      destruct (ctx_done _ _); [eauto|]. destruct (Scanner_Scan _) as [[] sc]; eauto.
    + exists (EvRecvData 0). split; [done|]. simpl. unfold consumer_data. rewrite Hc. simpl.
      unfold recv_data. rewrite Ht. simpl. rewrite bool_decide_eq_true_2 by done.
      unfold send_data. rewrite Hp. simpl. unfold on_data, invoke. simpl.
      destruct (handler _ _) as [hs [he|]]; simpl; rewrite Hc; eauto.
    + exists (EvRecvErr 0). split; [done|]. simpl. unfold consumer_err. rewrite Hc. simpl.
      unfold recv_err. rewrite Ht. simpl. rewrite bool_decide_eq_true_2 by done.
      unfold send_err. rewrite Hp. simpl. eauto.
  - right. exists EvCaller. split; [done|]. simpl. unfold caller_step. rewrite Hc.
    destruct (Cancel w); eauto.
  - right. exists EvCaller. split; [done|]. simpl. unfold caller_step. rewrite Hc.
    destruct (Cancel w); [destruct (isOneOf _ _)|]; eauto.
  - (* in the drain *)
    destruct Hcok as (e & D & -> & Htc & _). rewrite Htc in Hpc. simpl in Hch. subst d.
    right. destruct Hpc as [[byt Hp]|[Hp|Hp]].
    + exists (EvRecvData 0). split; [done|]. simpl. unfold consumer_data. rewrite Hc. simpl.
      unfold recv_data. rewrite Ht. simpl. rewrite bool_decide_eq_true_2 by done.
      unfold send_data. rewrite Hp. simpl. unfold on_data. simpl. rewrite Hc.
      eauto.
    + exists (EvTask 0). split; [done|]. simpl. rewrite Ht. simpl.
      unfold task_step. rewrite Hp. eauto.
    + exists EvClosedData. split; [done|]. simpl. unfold consumer_data. rewrite Hc. simpl.
      rewrite bool_decide_eq_true_2.
      * unfold on_data_closed, invoke. rewrite Hc. destruct derr; [eauto|].
        destruct (handler _ _) as [hs [he|]]; [eauto|]. destruct (errors_Is _ _); eauto.
      * rewrite Hcl. unfold closed_of. rewrite Hd. destruct Hp as [-> | ->]; set_solver.
  - left. eauto.
Qed.
(** X2.  After a handler error the goroutine is never released: when
    [ReadStreaming] has returned because the handler failed on a record
    (nobody else using the handle), the context is canceled, but the
    goroutine has not published its condition and never will: no channel is
    closed, it stands in its loop or blocked in a send, and the only steps
    left are its own turn from the loop (to the send of [context.Canceled],
    which nobody receives) and cancellations. *)
Theorem reader_leaks_after_handler_error resp c cid cs (s0 : St) sched (w : World) res :
  forallb own sched = true ->
  exec handler sched (start (mkResponse (Some resp) c (Some cid) false None None) cs s0)
    = Some w ->
  consumer w = CReturned res -> conds w = [] ->
  exists t herr,
    tasks w = [t] /\ res = Some herr /\ cid ∈ canceled w /\
    closed w = [] /\ t_cond t = None /\
    (t_pc t = RLoop \/ (exists byt, t_pc t = RSendData byt KLoop) \/
     (exists e fl, t_pc t = RSendErr e fl) \/ t_pc t = RPanic) /\
    (forall ev, own ev = true -> is_Some (step handler ev w) ->
       (ev = EvTask 0 /\ t_pc t = RLoop) \/ exists id, ev = EvCancel id).
Proof.
  intros Hown Hexec Hret Hconds.
  destruct (reach_own_ok handler _ _ _ _ _ _ _ Hown Hexec) as [Hok Hown_ok].
  destruct Hown_ok as [(_ & _ & Hpc & _)|(t & Ht & Hcok)]; [congruence|].
  unfold caller_ok in Hcok. rewrite Hret in Hcok. destruct Hcok as [Hcan Hcase].
  assert (tasks w !! 0 = Some t) as Hi by (by rewrite Ht).
  destruct (world_ok_task _ _ _ _ Hok Hi) as (_ & _ & _ & _ & _ & Hcl & _ & resp' & _ & Htok).
  destruct Hcase as [(herr & -> & Htc & _)|[(e & _ & Hc & _)|(e & D & s1 & hres & _ & Hc & _)]];
    [|congruence..].
  pose proof (task_ok_pc _ _ _ _ Htok) as Hpc. rewrite Htc in Hpc.
  exists t, herr. split_and!; try done.
  - rewrite Hcl. unfold closed_of.
    destruct Hpc as [->|[[byt ->]|[(e & fl & ->)| ->]]]; done.
  - intros ev Hev [w' Hstep].
    destruct ev as [i| |i|i| | |id| |i|i]; try done; simpl in Hstep.
    + destruct (tasks w !! i) as [t0|] eqn:Hi0; simpl in Hstep; [|done].
      destruct (world_ok_task _ _ _ _ Hok Hi0) as (-> & Ht0 & _).
      assert (t0 = t) as -> by congruence. left. split; [done|].
      destruct (task_step w t) as [[t' cl]|] eqn:Hs; [|done].
      unfold task_step in Hs.
      destruct Hpc as [Hp|[[byt Hp]|[(e & fl & Hp)|Hp]]]; rewrite Hp in Hs; done.
    + unfold caller_step in Hstep. by rewrite Hret in Hstep.
    + unfold consumer_data in Hstep. by rewrite Hret in Hstep.
    + unfold consumer_err in Hstep. by rewrite Hret in Hstep.
    + unfold consumer_data in Hstep. by rewrite Hret in Hstep.
    + unfold consumer_err in Hstep. by rewrite Hret in Hstep.
    + eauto.
Qed.

(** The goroutine of a handle whose context was done before it started
    never scans. *)
Lemma reader_under_done_context resp x cancel cs (s : St) sched (w : World) t :
  ctx_done cs x = true ->
  exec handler sched (start (mkResponse (Some resp) (Some x) cancel false None None) cs s)
    = Some w ->
  t ∈ tasks w ->
  t_units t = [] /\ t_flushed t = [] /\ t_scanner t = bufio_NewScanner (Body resp) /\
  (t_pc t = RLoop \/ t_pc t = RSendErr context_Canceled false \/ t_pc t = RCloseData \/
   t_pc t = RCloseErr \/ t_pc t = RDone).
Proof.
  intros Hdone Hexec. revert t.
  set (h := mkResponse (Some resp) (Some x) cancel false None None) in *.
  set (Q := fun t : Task =>
    t_units t = [] /\ t_flushed t = [] /\ t_scanner t = bufio_NewScanner (Body resp) /\
    (t_pc t = RLoop \/ t_pc t = RSendErr context_Canceled false \/ t_pc t = RCloseData \/
     t_pc t = RCloseErr \/ t_pc t = RDone)).
  refine (proj2 (proj2 (exec_invariant handler (fun _ => true)
            (fun w => world_ok h w /\ ctx_done (canceled w) x = true /\
                      forall t, t ∈ tasks w -> Q t)
            _ sched _ w _ _ Hexec))).
  - clear Hexec. intros ev w0 w' _ (Hok & Hd & Hinv) Hstep. split; [by eapply world_ok_step|].
    split; [by eapply ctx_done_mono; [eapply step_canceled|]|].
    intros t' Hin.
    assert (Context (rr w0) = Some x) as Hctx by apply Hok.
    destruct (tasks w0) as [|t0 ts] eqn:Ht.
    + destruct (step_tasks_new h _ _ _ Hok Ht Hstep) as [Hn|(r & Hr & Hn)];
        rewrite Hn in Hin; [set_solver|].
      apply list_elem_of_singleton in Hin as ->. injection Hr as <-.
      unfold Q. simpl. eauto.
    + assert (ts = []) as ->.
      { assert (tasks w0 !! 0 = Some t0) as Hi by (by rewrite Ht).
        destruct (world_ok_task _ _ _ _ Hok Hi) as (_ & Ht' & _). congruence. }
      assert (Q t0) as (Hu & Hf & Hsc & Hpc) by (apply Hinv, list_elem_of_here).
      destruct (step_tasks handler h ev w0 w' t0 Hok Ht Hstep)
        as [Hsame|[(t1 & cl & Hts & Ht1)|[(byt & t1 & Hsd & Ht1)|(e & t1 & Hse & Ht1)]]];
        rewrite ?Hsame, ?Ht1 in Hin; apply list_elem_of_singleton in Hin as ->.
      * done.
      * unfold task_step in Hts. rewrite Hctx, Hd in Hts.
        destruct Hpc as [Hp|[Hp|[Hp|[Hp|Hp]]]]; rewrite Hp in Hts; try done;
          injection Hts as <- _; unfold Q; simpl; eauto 10.
      * unfold send_data in Hsd.
        destruct Hpc as [Hp|[Hp|[Hp|[Hp|Hp]]]]; rewrite Hp in Hsd; done.
      * unfold send_err in Hse.
        destruct Hpc as [Hp|[Hp|[Hp|[Hp|Hp]]]]; rewrite Hp in Hse; try done.
        injection Hse as _ <-. unfold Q. simpl. eauto 10.
  - clear. by induction sched.
  - split; [by apply world_ok_start|]. split; [done|]. simpl. set_solver.
Qed.

(** X3.  When the context of the handle is already done as [ReadStreaming]
    starts (nobody else using the handle): the goroutine never scans, so
    nothing of the body is read and no record is delivered; the handler is
    not invoked before the return, and at the return it has been invoked
    exactly once, on the drain buffer as [newBuffer] made it; [ReadStreaming]
    returns what that invocation returned, or [context.Canceled] wrapped. *)
Theorem canceled_before_start_reads_nothing resp x cid cs (s0 : St) sched (w : World) :
  ctx_done cs x = true ->
  forallb own sched = true ->
  exec handler sched
    (start (mkResponse (Some resp) (Some x) (Some cid) false None None) cs s0) = Some w ->
  (forall t, t ∈ tasks w ->
     t_units t = [] /\ t_sent t = [] /\ t_scanner t = bufio_NewScanner (Body resp)) /\
  match consumer w with
  | CReturned res =>
      exists hres,
        conds w = [Some context_Canceled] /\ drains w = 1 /\
        handler s0 newBuffer = (hstate w, hres) /\ calls w = [(newBuffer, hres)] /\
        res = match hres with
              | Some he => Some he
              | None => Some (WrapError "reading response body: " context_Canceled)
              end
  | _ => calls w = []
  end.
Proof.
  intros Hdone Hown Hexec.
  destruct (reach_own_ok handler _ _ _ _ _ _ _ Hown Hexec) as [Hok Hown_ok].
  assert (forall t, t ∈ tasks w ->
            t_units t = [] /\ t_flushed t = [] /\ t_sent t = [] /\
            t_scanner t = bufio_NewScanner (Body resp)) as Hts.
  { intros t Hin.
    destruct (reader_under_done_context _ _ _ _ _ _ _ _ Hdone Hexec Hin) as (Hu & Hf & Hsc & _).
    apply list_elem_of_lookup in Hin as [i Hi].
    destruct (world_ok_task _ _ _ _ Hok Hi) as (_ & _ & _ & _ & _ & _ & _ & r & _ & [Hsent _]).
    rewrite Hu, Hf in Hsent. simpl in Hsent. apply app_eq_nil in Hsent as [Hs _]. done. }
  split; [intros t Hin; destruct (Hts t Hin) as (? & ? & ? & ?); done|].
  destruct Hown_ok as [(_ & _ & Hpc & Hcalls & _)|(t & Ht & Hcok)]; [by rewrite Hpc|].
  assert (t ∈ tasks w) as Hin by (rewrite Ht; apply list_elem_of_here).
  destruct (Hts t Hin) as (Hu & Hf & Hsent & Hsc).
  assert (tasks w !! 0 = Some t) as Hi by (by rewrite Ht).
  destruct (world_ok_task _ _ _ _ Hok Hi) as (_ & _ & _ & _ & _ & _ & _ & r & _ & Htok).
  assert (forall e, t_cond t = Some e -> e = context_Canceled) as Hcond.
  { intros e He. destruct (task_ok_cond _ _ _ _ _ Htok He) as [(Hc & _)|(_ & Hfl & _)];
      [congruence|]. by rewrite Hf in Hfl. }
  unfold caller_ok in Hcok. rewrite Hsent, Hu in Hcok. simpl in Hcok.
  destruct (consumer w) as [|d e|herr|d err|d err buf derr|res|]; try done.
  - by destruct Hcok as (_ & _ & _ & _ & ->).
  - destruct Hcok as (_ & _ & _ & recs & byt & s1 & Hnil & _). by destruct recs.
  - by destruct Hcok as (e & _ & _ & _ & _ & _ & -> & _).
  - by destruct Hcok as (e & D & _ & _ & _ & _ & _ & _ & _ & _ & _ & _ & ->).
  - destruct Hcok as [_ [(herr & _ & _ & _ & _ & recs & byt & s1 & Hnil & _)|
                        [(e & Hc & _ & Hrec & _)|
                         (e & D & s1 & hres & Hc & Hco & _ & Hdr & HD & _ & Hacc & Hh & Hcalls & ->)]]].
    + rewrite Hsent in Hnil. by destruct recs.
    + rewrite (Hcond _ Hc) in Hrec. done.
    + rewrite (Hcond _ Hc) in *. rewrite Hsent, Hu in *. simpl in *.
      symmetry in HD. subst D. injection Hacc as <-. simpl in *.
      rewrite app_nil_r in Hh, Hcalls.
      exists hres. split_and!; try done.
Qed.

(** X4.  The handle of a failed exchange (no response) stays silent: under
    every schedule, other users included, no goroutine is ever started,
    nothing is ever sent and no channel is ever closed; and only the first
    [Read] panics: once it has, every [Read] returns the pair of channels,
    on which a receiver then waits for ever. *)
Theorem failed_handle_never_delivers c cancel cs (s : St) sched (w : World) :
  exec handler sched (start (mkResponse None c cancel false None None) cs s) = Some w ->
  tasks w = [] /\ closed w = [] /\ received w = [] /\
  (forall i, step handler (EvPeerData i) w = None /\ step handler (EvPeerErr i) w = None /\
             step handler (EvRecvData i) w = None /\ step handler (EvRecvErr i) w = None) /\
  step handler EvClosedData w = None /\ step handler EvClosedErr w = None /\
  (forall w' r, Read w = (w', r) ->
     once (rr w') = true /\ tasks w' = [] /\
     (if once (rr w) then r = Some (Some 0, Some 1) else r = None)).
Proof.
  intros Hexec. pose proof (reach_world_ok handler _ _ _ _ _ _ _ Hexec) as Hok.
  assert (tasks w = [] /\ closed w = [] /\ received w = []) as (Ht & Hcl & Hrc).
  { destruct Hok as (_ & _ & _ & _ & [Hc|(_ & _ & _ & _ & _ & [Hc|Hc])]).
    - destruct Hc as (_ & _ & _ & _ & ? & _ & ? & ? & _). done.
    - destruct Hc as (_ & ? & ? & ?). done.
    - by destruct Hc as (? & ? & ? & _). }
  split_and!; try done.
  - intros i. simpl. rewrite Ht. simpl. unfold recv_data, recv_err. rewrite Ht. simpl.
    split_and!; try done.
    + by destruct (consumer_data w).
    + by destruct (consumer_err w).
  - simpl. rewrite Hcl. destruct (consumer_data w); simpl; done.
  - simpl. rewrite Hcl. destruct (consumer_err w); simpl; done.
  - intros w' r HR.
    destruct (Read_spec _ _ _ _ Hok HR) as (_ & _ & _ & _ & _ & _ & Ho & _ & Hr & Hsame & _).
    split; [done|].
    assert (Response_ (rr w) = None) as Hn by (destruct Hok as (-> & _); done).
    destruct (once (rr w)) eqn:Ho0.
    + split; [by rewrite Hsame|]. destruct Hr as [(_ & _ & ?)|(-> & _)]; done.
    + unfold Read, once_Do, initAsyncRead in HR. rewrite Ho0, Hn in HR.
      injection HR as <- <-. done.
Qed.
(** What a goroutine has given to [filterSendDataChannel] after the loop:
    nothing, or the scanner's last token after the scan that failed. *)
Lemma task_ok_flushed cs c (s0 : Sc) (t : Task) :
  task_ok cs c s0 t ->
  t_flushed t = [] \/
  (t_flushed t = [Scanner_Bytes (t_scanner t)] /\ scans s0 (t_units t) (t_scanner t)).
Proof.
  intros [_ Hpc]. unfold stopped_by_cancel, stopped_by_scan in Hpc.
  destruct (t_pc t) as [|byt []|e []| | | |]; naive_solver.
Qed.

(** Two runs of a scanner from the same state: the shorter one is the start
    of the longer one. *)
Lemma scan_run_prefix (s0 s1 s2 : Sc) toks1 toks2 :
  scan_run s0 toks1 s1 -> scan_run s0 toks2 s2 -> length toks1 <= length toks2 ->
  toks1 `prefix_of` toks2.
Proof.
  intros H1. revert toks2 s2.
  induction H1 as [s|s sa toks sb Hs _ IH]; intros toks2 s2 H2 Hlen.
  - apply prefix_nil.
  - inversion H2 as [|s' sa' toks' sb' Hs' H2']; subst; simpl in Hlen; [lia|].
    rewrite Hs in Hs'. injection Hs' as <-.
    apply prefix_cons, (IH _ _ H2'). lia.
Qed.

Lemma filter_prefix (f : bytes -> bool) l1 l2 :
  l1 `prefix_of` l2 -> List.filter f l1 `prefix_of` List.filter f l2.
Proof. intros [k ->]. rewrite List.filter_app. by eexists. Qed.

Lemma oks_fst recs : (oks recs).*1 = recs.
Proof. induction recs as [|r recs IH]; [done|]. simpl. f_equal. exact IH. Qed.

Lemma oks_lookup recs i byt (r : option Error) :
  oks recs !! i = Some (byt, r) -> r = None.
Proof.
  unfold oks. rewrite list_lookup_fmap. destruct (recs !! i); simpl; [|done].
  by intros [= _ <-].
Qed.

(** The invocations of the handler follow the records sent: the slices the
    handler was invoked on are those sent for the first so many of the kept
    units, in scan order, and after them at most one more, the drain buffer;
    and only the last invocation can have returned an error. *)
Lemma calls_follow_kept_units resp c cid cs (s0 : St) toks (s' : Sc) sched
    (w : World) :
  scans (bufio_NewScanner (Body resp)) toks s' ->
  forallb own sched = true ->
  exec handler sched (start (mkResponse (Some resp) c (Some cid) false None None) cs s0)
    = Some w ->
  (exists recs tail,
     (calls w).*1 = recs ++ tail /\
     recs `prefix_of` List.filter filterSend toks /\
     (tail = [] \/ exists D, tail = [newBuffer ++ concat D] /\ drains w = 1)) /\
  (forall i byt r, calls w !! i = Some (byt, r) -> S i < length (calls w) -> r = None).
Proof.
  intros Hscans Hown Hexec.
  destruct (reach_own_ok handler _ _ _ _ _ _ _ Hown Hexec) as [Hok Hown_ok].
  destruct Hown_ok as [(_ & _ & _ & Hcalls & _)|(t & Ht & Hcok)].
  { rewrite Hcalls. split; [|done]. exists [], []. split; [done|].
    split; [apply prefix_nil|by left]. }
  assert (tasks w !! 0 = Some t) as Hi by (by rewrite Ht).
  destruct (world_ok_task _ _ _ _ Hok Hi)
    as (_ & _ & _ & _ & _ & _ & _ & resp' & [= <-] & Htok).
  destruct (task_ok_units _ _ _ _ Htok) as [s1 Hrun].
  assert (List.filter filterSend (t_units t) `prefix_of` List.filter filterSend toks) as Hpre.
  { apply filter_prefix. destruct Hscans as (s2 & Hrun2 & Hfail).
    eapply scan_run_prefix; [exact Hrun|exact Hrun2|].
    eapply scans_longest; [by exists s2|exact Hrun]. }
  assert (t_cond t = None -> t_sent t `prefix_of` List.filter filterSend toks) as Hsent.
  { intros Hc. etrans; [|exact Hpre].
    pose proof Htok as [Hs Hm]. pose proof (task_ok_pc _ _ _ _ Htok) as Hpc.
    rewrite Hc in Hpc. unfold stopped_by_cancel, stopped_by_scan in Hm.
    assert (t_flushed t = []) as Hf.
    { destruct Hpc as [Hp|[[byt Hp]|[(e & fl & Hp)|Hp]]]; rewrite Hp in Hm;
        try (destruct fl); by destruct Hm as (_ & Hnil & _). }
    rewrite Hf, app_nil_r in Hs. rewrite <- Hs. by eexists. }
  assert (forall recs (x : bytes * option Error) i byt r,
            (oks recs ++ [x]) !! i = Some (byt, r) ->
            S i < length (oks recs ++ [x]) -> r = None) as Hlast.
  { intros recs x i byt r Hl Hlen. rewrite length_app in Hlen. simpl in Hlen.
    rewrite lookup_app_l in Hl by lia. by eapply oks_lookup. }
  unfold caller_ok in Hcok.
  destruct (consumer w) as [|d e|herr|d err|d err buf derr|res|]; try done.
  - destruct Hcok as (Hc & _ & _ & _ & ->). split; [|intros; by eapply oks_lookup].
    exists (t_sent t), []. rewrite oks_fst, app_nil_r. split; [done|]. split; [auto|by left].
  - destruct Hcok as (Hc & _ & _ & recs & byt & s2 & Hs & _ & _ & ->).
    split; [|apply Hlast].
    exists (t_sent t), []. rewrite fmap_app, oks_fst, app_nil_r, Hs. simpl.
    split; [done|]. rewrite <- Hs. split; [auto|by left].
  - destruct Hcok as (e & _ & _ & _ & _ & _ & -> & ->).
    split; [|intros; by eapply oks_lookup].
    exists (List.filter filterSend (t_units t)), []. rewrite oks_fst, app_nil_r.
    split; [done|]. split; [done|by left].
  - destruct Hcok as (e & D & _ & _ & _ & _ & _ & _ & _ & _ & _ & _ & ->).
    split; [|intros; by eapply oks_lookup].
    exists (List.filter filterSend (t_units t)), []. rewrite oks_fst, app_nil_r.
    split; [done|]. split; [done|by left].
  - destruct Hcok as [_ [(herr & _ & Hc & _ & _ & recs & byt & s2 & Hs & _ & _ & ->)|
                        [(e & _ & _ & _ & _ & _ & -> & -> & _)|
                         (e & D & s2 & hres & _ & _ & _ & Hdr & _ & _ & _ & _ & -> & _)]]].
    + split; [|apply Hlast].
      exists (t_sent t), []. rewrite fmap_app, oks_fst, app_nil_r, Hs. simpl.
      split; [done|]. rewrite <- Hs. split; [auto|by left].
    + split; [|intros; by eapply oks_lookup].
      exists (List.filter filterSend (t_units t)), []. rewrite oks_fst, app_nil_r.
      split; [done|]. split; [done|by left].
    + split; [|apply Hlast].
      exists (List.filter filterSend (t_units t)), [newBuffer ++ concat D].
      rewrite fmap_app, oks_fst. simpl. split; [done|]. split; [done|]. right. eauto.
Qed.

End EngineMore.

(** ** Streaming with the line scanner *)

Lemma index_nl_None data : index_nl data = None -> NL ∉ data.
Proof.
  induction data as [|c r IH]; simpl; [set_solver|].
  case_bool_decide as Hc; [done|]. destruct (index_nl r); [done|].
  intros _. apply not_elem_of_cons. split; [congruence|auto].
Qed.

Lemma index_nl_Some data i :
  index_nl data = Some i -> (NL ∉ take i data) /\ data = take i data ++ NL :: drop (S i) data.
Proof.
  revert i. induction data as [|c r IH]; intros i; simpl; [done|].
  case_bool_decide as Hc.
  - intros [= <-]. simpl. rewrite drop_0. split; [set_solver|congruence].
  - destruct (index_nl r) as [j|]; [|done]. intros [= <-]. simpl.
    destruct (IH j eq_refl) as [Hn Heq]. split; [|congruence].
    apply not_elem_of_cons. split; [congruence|done].
Qed.

Lemma dropCR_prefix data : exists tl, data = dropCR data ++ tl.
Proof.
  unfold dropCR. destruct (reverse data) as [|c front] eqn:Hr; [by exists []; rewrite app_nil_r|].
  case_bool_decide; [|by exists []; rewrite app_nil_r].
  exists [c]. rewrite <- (reverse_involutive data), Hr, reverse_cons. done.
Qed.

(** A token of the line scanner is a newline-free segment of what was left
    to scan. *)
Lemma line_Scan_token (s s1 : LineScanner) :
  line_Scan s = (true, s1) ->
  (NL ∉ ls_token s1) /\ exists mid, ls_rest s = ls_token s1 ++ mid ++ ls_rest s1.
Proof.
  unfold line_Scan. destruct (ls_err s); [done|].
  destruct (index_nl (ls_rest s)) as [i|] eqn:Hi.
  - case_bool_decide; [|done]. intros [= <-]. simpl.
    destruct (index_nl_Some _ _ Hi) as [Hn Heq].
    destruct (dropCR_prefix (take i (ls_rest s))) as [tl Htl]. split.
    + intros Hin. apply Hn. rewrite Htl. set_solver.
    + exists (tl ++ [NL]). rewrite Heq at 1. rewrite Htl at 1. by rewrite <- !app_assoc.
  - destruct (last_line_too_long s); [done|]. destruct (ls_rest s) as [|c r] eqn:Hr; [done|].
    intros [= <-]. simpl. apply index_nl_None in Hi.
    destruct (dropCR_prefix (c :: r)) as [tl Htl]. split.
    + intros Hin. apply Hi. rewrite Htl. set_solver.
    + exists tl. by rewrite app_nil_r.
Qed.

Lemma line_scan_run_tokens (s s' : LineScanner) toks tok :
  scan_run s toks s' -> tok ∈ toks ->
  (NL ∉ tok) /\ exists pre post, ls_rest s = pre ++ tok ++ post.
Proof.
  induction 1 as [s|s s1 toks s' Hs _ IH]; [set_solver|].
  destruct (line_Scan_token _ _ Hs) as [Hn [mid Hmid]].
  intros [->|Hin]%elem_of_cons.
  - split; [done|]. exists [], (mid ++ ls_rest s1). done.
  - destruct (IH Hin) as [? (pre & post & Hpp)]. split; [done|].
    exists (ls_token s1 ++ mid ++ pre), post.
    change (ls_rest s = (Scanner_Bytes s1 ++ mid ++ pre) ++ tok ++ post).
    change (Scanner_Bytes s1) with (ls_token s1).
    rewrite Hmid, Hpp. by rewrite <- !app_assoc.
Qed.

(** X5.  With the line scanner, under every schedule and whoever receives:
    no unit the goroutine gives to [filterSendDataChannel] in its loop holds
    a newline, so none is the bare delimiter, and the guard drops a unit
    exactly when it is empty; each unit is a segment of the body; the token
    the goroutine gives to [filterSendDataChannel] after the scan that failed
    is empty, and is never sent; and every record sent, or being sent, is
    one of these units, not empty and without a newline when it is sent. *)
Theorem line_records_are_newline_free {St : Type} (handler : St -> bytes -> St * option Error)
    status (r : Reader) c cancel cs (s : St) sched (w : World Reader LineScanner St) t :
  exec handler sched
    (start (mkResponse (Some (mkHTTPResponse status r)) c cancel false None None) cs s)
    = Some w ->
  t ∈ tasks w ->
  (forall tok, tok ∈ t_units t ->
     (NL ∉ tok) /\ bytes_Equal tok apiDataDelimiter = false /\
     filterSend tok = negb (bool_decide (length tok = 0)) /\
     exists pre post, reader_data r = pre ++ tok ++ post) /\
  (forall tok, tok ∈ t_flushed t -> tok = [] /\ filterSend tok = false) /\
  (forall byt, byt ∈ t_sent t ++ pending (t_pc t) ->
     byt <> [] /\ (NL ∉ byt) /\ byt ∈ t_units t).
Proof.
  intros Hexec Hin.
  pose proof (reach_world_ok handler _ _ _ _ _ _ _ Hexec) as Hok.
  apply list_elem_of_lookup in Hin as [i Hi].
  destruct (world_ok_task _ _ _ _ Hok Hi)
    as (_ & _ & _ & _ & _ & _ & _ & resp & [= <-] & Htok).
  destruct (task_ok_units _ _ _ _ Htok) as [s1 Hrun].
  assert (forall tok, tok ∈ t_units t ->
            (NL ∉ tok) /\ bytes_Equal tok apiDataDelimiter = false /\
            filterSend tok = negb (bool_decide (length tok = 0)) /\
            exists pre post, reader_data r = pre ++ tok ++ post) as Hunits.
  { intros tok Hu. destruct (line_scan_run_tokens _ _ _ _ Hrun Hu) as [Hn Hseg].
    assert (bytes_Equal tok apiDataDelimiter = false) as Hd.
    { unfold bytes_Equal, apiDataDelimiter. apply bool_decide_eq_false. intros ->.
      apply Hn, list_elem_of_here. }
    split; [done|]. split; [done|]. split; [|done].
    unfold filterSend. rewrite Hd. simpl. by rewrite andb_true_r. }
  assert (forall tok, tok ∈ t_flushed t -> tok = []) as Hflushed.
  { intros tok Hf. destruct (task_ok_flushed _ _ _ _ Htok) as [Hnil|[Hfl Hsc]].
    - rewrite Hnil in Hf. by apply elem_of_nil in Hf.
    - rewrite Hfl in Hf. apply list_elem_of_singleton in Hf as ->.
      by destruct (line_scans_end _ _ _ Hsc) as [-> _]. }
  split; [exact Hunits|]. split.
  - intros tok Hf. by rewrite (Hflushed tok Hf).
  - intros byt Hb. destruct Htok as [Hsent _]. rewrite Hsent in Hb.
    apply list_elem_of_In, filter_In in Hb as [Hb Hkeep]. apply list_elem_of_In in Hb.
    apply filterSend_spec in Hkeep as [Hne _]. split; [done|].
    apply elem_of_app in Hb as [Hu|Hf].
    + split; [|done]. by destruct (Hunits _ Hu).
    + by rewrite (Hflushed byt Hf) in Hne.
Qed.

(** X6.  With the line scanner the drain of [ReadStreaming] never collects
    anything (nobody else using the handle): while the caller drains, its
    buffer is still as [newBuffer] made it, and whenever [ReadStreaming]
    returns after a drain (on a clean end of stream, or a cancellation, or a
    deadline), the last invocation of the handler was on exactly that
    buffer, none of it from the body. *)
Theorem line_drain_collects_nothing {St : Type} (handler : St -> bytes -> St * option Error)
    status (r : Reader) c cid cs (s0 : St) sched (w : World Reader LineScanner St) :
  forallb own sched = true ->
  exec handler sched
    (start (mkResponse (Some (mkHTTPResponse status r)) c (Some cid)
              false None None) cs s0) = Some w ->
  (forall d err buf derr, consumer w = CDrain d err buf derr -> buf = newBuffer /\ derr = None) /\
  (forall res, consumer w = CReturned res -> drains w = 1 ->
     exists recs hres cond,
       calls w = oks recs ++ [(newBuffer, hres)] /\ conds w = [Some cond] /\
       res = drained_result (Some cond) hres).
Proof.
  intros Hown Hexec.
  destruct (reach_own_ok handler _ _ _ _ _ _ _ Hown Hexec) as [Hok Hown_ok].
  destruct Hown_ok as [(_ & _ & Hpc & _)|(t & Ht & Hcok)].
  { split; intros; congruence. }
  assert (tasks w !! 0 = Some t) as Hi by (by rewrite Ht).
  destruct (world_ok_task _ _ _ _ Hok Hi)
    as (_ & _ & _ & _ & _ & _ & Hrc & resp & [= <-] & Htok).
  assert (List.filter filterSend (t_flushed t) = []) as Hfl.
  { destruct (task_ok_flushed _ _ _ _ Htok) as [->|[-> Hsc]]; [done|].
    destruct (line_scans_end _ _ _ Hsc) as [-> _]. done. }
  assert (forall D, t_sent t = List.filter filterSend (t_units t) ++ D -> D = []) as HD.
  { intros D HDs. destruct Htok as [Hsent _].
    rewrite List.filter_app, Hfl, app_nil_r, HDs, <- app_assoc in Hsent.
    apply (f_equal length) in Hsent. rewrite !length_app in Hsent.
    destruct D; [done|]. simpl in Hsent. lia. }
  unfold caller_ok in Hcok. split.
  - intros d err buf derr Hc. rewrite Hc in Hcok.
    destruct Hcok as (e0 & D & _ & _ & _ & _ & _ & -> & _ & Hs & -> & _).
    rewrite (HD _ Hs). simpl. by rewrite app_nil_r.
  - intros res Hc Hdr. rewrite Hc in Hcok.
    destruct Hcok as [_ [(herr & _ & _ & _ & Hd0 & _)|
                        [(e0 & _ & _ & _ & Hd0 & _)|
                         (e0 & D & s1 & hres & _ & Hco & _ & _ & Hs & _ & _ & _ & Hcalls & ->)]]];
      [congruence..|].
    rewrite (HD _ Hs) in Hcalls. simpl in Hcalls. rewrite app_nil_r in Hcalls. eauto 10.
Qed.

Lemma recoverable_EOF err :
  recoverable err = false -> errors_Is err io_EOF = false.
Proof.
  unfold recoverable. cbn [isOneOf]. by destruct (errors_Is err io_EOF).
Qed.

(** X7.  What [ReadAll] returns once the scan of a body of at most 2048
    bytes has stopped (a body the scanner never moves; nobody else using the
    handle, [toks] being the units the scanner reads from the body): the
    bytes of its own [newBuffer], then the records in order, then, if the
    body ended on a condition [ReadStreaming] drains for, the bytes of the
    drain's [newBuffer]; with a nil error after a clean end of stream and the
    condition wrapped otherwise.  The condition is the error of the body's
    reader. *)
Theorem ReadAll_after_scan status (r : Reader) toks (s' : LineScanner) c cid cs sched
    (w : World Reader LineScanner Buffer) out serr cond :
  held_in_place r ->
  scans (bufio_NewScanner r) toks s' ->
  forallb own sched = true ->
  exec ReadAll_handler sched
    (ReadAll_start (mkResponse (Some (mkHTTPResponse status r))
                      c (Some cid) false None None) cs) = Some w ->
  ReadAll_result w = Some (out, serr) -> conds w = [Some cond] ->
  cond <> context_Canceled ->
  cond = reader_end r /\
  out = newBuffer ++ concat (List.filter filterSend toks) ++
        (if recoverable (Some cond) then newBuffer else []) /\
  serr = if errors_Is (Some cond) io_EOF then None
         else Some (WrapError "reading response body: " cond).
Proof.
  intros Hheld Hscans Hown Hexec Hres Hconds Hnc. unfold ReadAll_result in Hres.
  destruct (consumer w) as [| | | | |res|] eqn:Hret; try done. injection Hres as <- <-.
  destruct (returned_after_scan ReadAll_handler _ _ _ _ _ _ _ _ _ _ _
              Hown Hexec Hret Hconds Hnc Hscans) as (Hcond & s1 & Hacc & Hcase).
  rewrite ReadAll_handler_accepts in Hacc. injection Hacc as <-.
  destruct (line_scans_end _ _ _ Hscans) as [Hb Herr]. split.
  { rewrite Hcond. unfold scan_condition. change (Scanner_Err s') with (line_Err s').
    unfold line_Err. destruct Herr as [-> |[_ Hlong]]; [by destruct (reader_end r)|].
    unfold held_in_place, bufio_startBufSize in Hheld. unfold MaxScanTokenSize in Hlong.
    lia. }
  destruct (recoverable (Some cond)) eqn:Hrec.
  - destruct Hcase as (hres & _ & Hh & _ & ->).
    rewrite Hb in Hh. simpl in Hh.
    unfold ReadAll_handler, writeToBuffer, Buffer_Write in Hh. simpl in Hh.
    injection Hh as <- <-. unfold Buffer_Bytes, drained_result, reading_response_body.
    rewrite !app_nil_r, <- !app_assoc. split; [done|].
    by destruct (errors_Is (Some cond) io_EOF).
  - destruct Hcase as (_ & -> & _ & ->). unfold Buffer_Bytes, reading_response_body.
    rewrite (recoverable_EOF _ Hrec), app_nil_r. done.
Qed.

(** X8.  [ReadAll] can always return: whatever the body and the way it ends,
    when the context is not canceled some schedule of the caller and the
    goroutine alone takes [ReadAll] to its return. *)
Theorem ReadAll_can_always_return status (r : Reader) x cid cs :
  ctx_done cs x = false ->
  exists sched (w : World Reader LineScanner Buffer) out serr,
    forallb quiet sched = true /\
    exec ReadAll_handler sched
      (ReadAll_start (mkResponse (Some (mkHTTPResponse status r))
                        (Some x) (Some cid) false None None) cs) = Some w /\
    ReadAll_result w = Some (out, serr).
Proof.
  intros Hnd.
  destruct (line_scans_total (bufio_NewScanner r)) as (toks & s' & Hscans).
  destruct (ReadStreaming_can_return ReadAll_handler
              (mkHTTPResponse status r) x cid cs newBuffer _ toks s'
              Hscans Hnd (ReadAll_handler_accepts _ _)) as (sched & w & res & Hq & Hex & Hret & _).
  exists sched, w, (Buffer_Bytes (hstate w)), res. split_and!; try done.
  unfold ReadAll_result. by rewrite Hret.
Qed.

Lemma line_scan_run_err (s s' : LineScanner) toks :
  scan_run s toks s' -> ls_err s = None -> ls_err s' = None.
Proof.
  induction 1 as [s|s s1 toks s' Hs _ IH]; [done|].
  intros _. apply IH. by destruct (line_Scan_ok _ _ Hs) as (_ & ? & _).
Qed.

Lemma oks_snd recs : (oks recs).*2 = replicate (length recs) None.
Proof. induction recs as [|b recs IH]; [done|]. simpl. f_equal. exact IH. Qed.

(** X9.  A line of more than 64 KiB ends the streaming: when, after the
    units [toks], what is left of the body has more than
    [bufio.MaxScanTokenSize] bytes and no newline among the first
    [bufio.MaxScanTokenSize] of them (nobody else using the handle, and no
    cancellation seen by the goroutine), [ReadStreaming] returns
    [bufio.ErrTooLong] wrapped, without a drain, the handler having been
    invoked once for each kept unit before that line, each time returning
    nil, and never after: the line and all that follows it are lost. *)
Theorem line_too_long_ends_streaming {St : Type} (handler : St -> bytes -> St * option Error)
    status (r : Reader) toks (s1 : LineScanner) c cid cs (s0 : St) sched
    (w : World Reader LineScanner St) res cond :
  scan_run (bufio_NewScanner r) toks s1 ->
  (MaxScanTokenSize < N.of_nat (length (ls_rest s1)))%N ->
  NL ∉ take (N.to_nat MaxScanTokenSize) (ls_rest s1) ->
  forallb own sched = true ->
  exec handler sched
    (start (mkResponse (Some (mkHTTPResponse status r)) c (Some cid)
              false None None) cs s0) = Some w ->
  consumer w = CReturned res -> conds w = [Some cond] -> cond <> context_Canceled ->
  cond = bufio_ErrTooLong /\
  res = Some (WrapError "reading response body: " bufio_ErrTooLong) /\
  drains w = 0 /\
  (calls w).*2 = replicate (length (List.filter filterSend toks)) None.
Proof.
  intros Hrun Hlong Hnl Hown Hexec Hret Hconds Hnc.
  assert (ls_err s1 = None) as Hn by (by eapply line_scan_run_err).
  assert (scans (bufio_NewScanner r) toks
            (mkLineScanner (ls_rest s1) (ls_end s1) [] (Some bufio_ErrTooLong)
               (ls_end_with_data s1))) as Hscans.
  { exists s1. split; [done|]. change (Scanner_Scan s1) with (line_Scan s1).
    unfold line_Scan. rewrite Hn. destruct (index_nl (ls_rest s1)) as [i|] eqn:Hi.
    - rewrite bool_decide_eq_false_2; [done|]. intros Hlt. apply Hnl.
      destruct (index_nl_Some _ _ Hi) as [_ Heq].
      apply list_elem_of_lookup. exists i.
      rewrite lookup_take_lt by (unfold MaxScanTokenSize in *; lia).
      rewrite Heq. rewrite lookup_app_r by (rewrite length_take; lia).
      rewrite length_take.
      assert (i < length (ls_rest s1)) as Hil.
      { rewrite Heq at 1. rewrite length_app, length_take. simpl.
        destruct (decide (i <= length (ls_rest s1))); lia. }
      by replace (i - i `min` length (ls_rest s1)) with 0 by lia.
    - unfold last_line_too_long. by rewrite bool_decide_eq_true_2. }
  destruct (returned_after_scan handler _ _ _ _ _ _ _ _ _ _ _
              Hown Hexec Hret Hconds Hnc Hscans) as (Hcond & s2 & Hacc & Hcase).
  change (scan_condition _) with bufio_ErrTooLong in Hcond. subst cond.
  change (recoverable (Some bufio_ErrTooLong)) with false in Hcase.
  destruct Hcase as (? & _ & Hcalls & ->). rewrite Hcalls, oks_snd. done.
Qed.

(** X10.  After a terminal condition the goroutine is released: with the
    line scanner, once [ReadStreaming] has returned on a condition received
    from the error channel (drained or not, nobody else using the handle),
    the goroutine is not blocked in a send, and at most two more turns of its
    own take it to its return, both channels closed. *)
Theorem reader_released_after_condition {St : Type} (handler : St -> bytes -> St * option Error)
    status (r : Reader) c cid cs (s0 : St) sched (w : World Reader LineScanner St) res cond :
  forallb own sched = true ->
  exec handler sched
    (start (mkResponse (Some (mkHTTPResponse status r)) c (Some cid)
              false None None) cs s0) = Some w ->
  consumer w = CReturned res -> conds w = [Some cond] ->
  exists n (w' : World Reader LineScanner St) t',
    n <= 2 /\ exec handler (replicate n (EvTask 0)) w = Some w' /\
    tasks w' = [t'] /\ t_pc t' = RDone /\ closed w' = [0; 1] /\
    consumer w' = CReturned res.
Proof.
  intros Hown Hexec Hret Hconds.
  set (h := mkResponse (Some (mkHTTPResponse status r)) c (Some cid)
              false None None) in *.
  assert (forall n w' t', exec handler (replicate n (EvTask 0)) w = Some w' ->
            tasks w' = [t'] -> t_pc t' = RDone -> closed w' = [0; 1]) as Hclosed.
  { intros n w' t' Hex Ht' Hp'.
    assert (exec handler (sched ++ replicate n (EvTask 0)) (start h cs s0) = Some w') as Hall.
    { rewrite exec_app, Hexec. done. }
    pose proof (reach_world_ok handler _ _ _ _ _ _ _ Hall) as Hok'.
    assert (tasks w' !! 0 = Some t') as Hi' by (by rewrite Ht').
    destruct (world_ok_task _ _ _ _ Hok' Hi') as (_ & _ & _ & Hd & He & -> & _).
    unfold closed_of. by rewrite Hp', Hd, He. }
  destruct (reach_own_ok handler _ _ _ _ _ _ _ Hown Hexec) as [Hok Hown_ok].
  destruct Hown_ok as [(_ & _ & Hpc & _)|(t & Ht & Hcok)]; [congruence|].
  assert (tasks w !! 0 = Some t) as Hi by (by rewrite Ht).
  destruct (world_ok_task _ _ _ _ Hok Hi)
    as (_ & _ & _ & _ & _ & _ & Hrc & resp & [= <-] & Htok).
  assert (List.filter filterSend (t_flushed t) = []) as Hfl.
  { destruct (task_ok_flushed _ _ _ _ Htok) as [->|[-> Hsc]]; [done|].
    destruct (line_scans_end _ _ _ Hsc) as [-> _]. done. }
  unfold caller_ok in Hcok. rewrite Hret in Hcok.
  assert (exists D, t_sent t = List.filter filterSend (t_units t) ++ D /\ t_cond t = Some cond)
    as (D & HD & Hc).
  { destruct Hcok as [_ [(herr & _ & _ & Hco & _)|
                        [(e0 & Hc & Hco & _ & _ & _ & _ & Hs & _)|
                         (e0 & D & s1 & hres & Hc & Hco & _ & _ & Hs & _)]]];
      [congruence| |].
    - exists []. rewrite app_nil_r. split; congruence.
    - exists D. split; congruence. }
  assert (pending (t_pc t) = []) as Hpend.
  { destruct Htok as [Hsent _].
    rewrite List.filter_app, Hfl, app_nil_r, HD, <- app_assoc in Hsent.
    apply (f_equal length) in Hsent. rewrite !length_app in Hsent.
    destruct (pending (t_pc t)); [done|]. simpl in Hsent. lia. }
  pose proof (task_ok_pc _ _ _ _ Htok) as Hpc. rewrite Hc in Hpc.
  destruct Hpc as [[byt Hp]|[Hp|[Hp|Hp]]].
  - by rewrite Hp in Hpend.
  - assert (exec handler (replicate 2 (EvTask 0)) w =
            Some (add_closed [t_errCh t]
                    (set_tasks [set_pc RDone (set_pc RCloseErr t)]
                       (add_closed [t_dataCh t] (set_tasks [set_pc RCloseErr t] w))))) as Hex.
    { simpl. rewrite Ht. simpl. unfold task_step. rewrite Hp. simpl. done. }
    eexists 2, _, _. split; [lia|]. split; [exact Hex|].
    split; [done|]. split; [done|]. split; [|done].
    by eapply (Hclosed 2 _ _ Hex).
  - assert (exec handler (replicate 1 (EvTask 0)) w =
            Some (add_closed [t_errCh t] (set_tasks [set_pc RDone t] w))) as Hex.
    { simpl. rewrite Ht. simpl. unfold task_step. rewrite Hp. simpl. done. }
    eexists 1, _, _. split; [lia|]. split; [exact Hex|].
    split; [done|]. split; [done|]. split; [|done].
    by eapply (Hclosed 1 _ _ Hex).
  - exists 0, w, t. split; [lia|]. split; [done|]. split; [done|]. split; [done|].
    split; [|done]. by eapply (Hclosed 0 w t).
Qed.

(** X12.  The handler sees the records of the body in order and nothing
    else: for a body of at most 2048 bytes (a body the scanner never moves,
    so that the handler reads from a slice the bytes it held when sent), in
    every state [ReadStreaming] reaches (nobody else using the handle),
    [toks] being the units the scanner reads from the body, the handler has
    been invoked on the first so many of the kept units, each once and in
    scan order, and after them at most once more, on the drain buffer; and
    only its last invocation can have returned an error. *)
Theorem handler_sees_records_in_order {St : Type} (handler : St -> bytes -> St * option Error)
    status (r : Reader) c cid cs (s0 : St) toks (s' : LineScanner) sched
    (w : World Reader LineScanner St) :
  held_in_place r ->
  scans (bufio_NewScanner r) toks s' ->
  forallb own sched = true ->
  exec handler sched
    (start (mkResponse (Some (mkHTTPResponse status r)) c (Some cid) false None None) cs s0)
    = Some w ->
  (exists recs tail,
     (calls w).*1 = recs ++ tail /\
     recs `prefix_of` List.filter filterSend toks /\
     (tail = [] \/ exists D, tail = [newBuffer ++ concat D] /\ drains w = 1)) /\
  (forall i byt res, calls w !! i = Some (byt, res) -> S i < length (calls w) -> res = None).
Proof.
  intros _ Hscans Hown Hexec.
  exact (calls_follow_kept_units handler (mkHTTPResponse status r) c cid cs s0 toks s'
           sched w Hscans Hown Hexec).
Qed.

(** ** [ReadStreaming] called again on a consumed handle *)

Section Reuse.
Context {R Sc St : Type} `{!Bufio R Sc}.
Variable handler : St -> bytes -> St * option Error.

Local Abbreviation World := (World R Sc St).
Local Abbreviation Task := (Task Sc).

Lemma again_step (h : Response R) cid ev (w w2 w3 : World) (t : Task) :
  Response_ h <> None -> cancelFunc h = Some cid ->
  tasks w = [t] -> t_pc t = RDone ->
  own ev = true -> world_ok h w2 -> again_ok w w2 -> step handler ev w2 = Some w3 ->
  again_ok w w3.
Proof.
  intros Hresp Hcf Ht Hp Hev Hok (Hts & Hdr & n & Hn) Hstep.
  rewrite Ht in Hts.
  assert (tasks w2 !! 0 = Some t) as Hi by (by rewrite Hts).
  destruct (world_ok_task _ _ _ _ Hok Hi) as (_ & _ & Ho & Hd & He & Hcl & _).
  unfold closed_of in Hcl. rewrite Hp, Hd, He in Hcl.
  assert (cancelFunc (rr w2) = Some cid) as Hc2.
  { destruct Hok as (_ & _ & -> & _). done. }
  unfold again_ok. rewrite Ht.
  destruct ev as [i| |i|i| | |id| |i|i]; try done; simpl in Hstep.
  - (* the goroutine has returned *)
    destruct (tasks w2 !! i) as [t0|] eqn:Hi0; simpl in Hstep; [|done].
    rewrite Hts in Hi0. apply single_lookup in Hi0 as [-> ->].
    unfold task_step in Hstep. by rewrite Hp in Hstep.
  - (* the caller moves alone *)
    unfold caller_step in Hstep.
    destruct (consumer w2) as [|d e|herr|d err|d err buf derr|r|] eqn:Hpc; try done.
    + destruct (Read w2) as [w1 r] eqn:HR.
      destruct (Read_spec h _ _ _ Hok HR)
        as (_ & _ & _ & Q4 & Q5 & Q6 & _ & _ & Hr & Hsame & _).
      destruct Hn as (-> & Hca & Hco).
      destruct Hr as [(_ & Hnone & _)|(-> & _)]; [done|].
      injection Hstep as <-. simpl. rewrite Hsame, Q6 by done.
      split; [done|]. split; [done|]. exists 0. simpl.
      rewrite app_nil_r, Q4, Q5. done.
    + unfold Cancel in Hstep. rewrite Hc2 in Hstep. injection Hstep as <-. simpl.
      split; [done|]. split; [done|]. exists n. left. exists herr. naive_solver.
    + unfold Cancel in Hstep. rewrite Hc2 in Hstep.
      destruct Hn as (-> & Hca & Hco). simpl in Hstep. injection Hstep as <-. simpl.
      split; [done|]. split; [done|]. exists n. right. done.
  - (* no record is being sent *)
    destruct (consumer_data w2) as [d|]; simpl in Hstep; [|done].
    unfold recv_data in Hstep. destruct (tasks w2 !! i) as [t0|] eqn:Hi0; simpl in Hstep; [|done].
    rewrite Hts in Hi0. apply single_lookup in Hi0 as [-> ->].
    case_bool_decide; [|done]. unfold send_data in Hstep. by rewrite Hp in Hstep.
  - (* no condition is being sent *)
    destruct (consumer_err w2) as [e|]; simpl in Hstep; [|done].
    unfold recv_err in Hstep. destruct (tasks w2 !! i) as [t0|] eqn:Hi0; simpl in Hstep; [|done].
    rewrite Hts in Hi0. apply single_lookup in Hi0 as [-> ->].
    case_bool_decide; [|done]. unfold send_err in Hstep. by rewrite Hp in Hstep.
  - (* the closed data channel delivers the nil record *)
    destruct (consumer_data w2) as [d|] eqn:Hcd; simpl in Hstep; [|done].
    case_bool_decide; [|done]. unfold on_data_closed, on_data, invoke in Hstep.
    unfold consumer_data in Hcd.
    destruct (consumer w2) as [|d0 e0|herr|d0 err|d0 err buf derr|r|] eqn:Hpc; try done.
    destruct Hn as (-> & -> & Hca & Hco).
    destruct (handler (hstate w2) []) as [hs [herr|]]; injection Hstep as <-; simpl.
    + split; [done|]. split; [done|]. exists n. rewrite Hca, <- app_assoc. done.
    + split; [done|]. split; [done|]. exists (S n). split; [done|]. split; [done|].
      split; [|done]. rewrite Hca, <- app_assoc. f_equal.
      change (oks (replicate (S n) [])) with (([], None) :: oks (replicate n []) : list (bytes * option Error)).
      clear. induction n as [|n IH]; [done|]. simpl. by rewrite <- IH.
  - (* the closed error channel delivers the nil error *)
    destruct (consumer_err w2) as [e|] eqn:Hce; simpl in Hstep; [|done].
    case_bool_decide; [|done]. injection Hstep as <-. unfold on_err. simpl.
    unfold consumer_err in Hce.
    destruct (consumer w2) as [|d0 e0|herr|d0 err|d0 err buf derr|r|] eqn:Hpc; try done.
    destruct Hn as (-> & -> & Hca & Hco).
    split; [done|]. split; [done|]. exists n. rewrite Hco. done.
  - (* a cancellation *)
    injection Hstep as <-. simpl. split; [done|]. split; [done|]. by exists n.
Qed.

(** X11.  Calling [ReadStreaming] again on a handle whose goroutine has
    returned (nobody else using the handle) never ends well: both channels
    are closed, so the second call starts no goroutine, does not drain,
    invokes the handler on the nil record only (any number of times, none of
    it read from the body), and when it returns it returns an error, never
    nil: the error of the handler on a nil record, or the error
    [fmt.Errorf] makes of the nil error the closed error channel delivered.
    And it can return that error at once, without invoking the handler. *)
Theorem second_ReadStreaming_on_finished_handle resp c cid cs (s0 : St) sched (w : World)
    res (t : Task) :
  exec handler sched (start (mkResponse (Some resp) c (Some cid) false None None) cs s0)
    = Some w ->
  consumer w = CReturned res -> tasks w = [t] -> t_pc t = RDone ->
  (forall sched2 (w2 : World),
     forallb own sched2 = true ->
     exec handler sched2 (ReadStreaming_again w) = Some w2 ->
     tasks w2 = [t] /\ drains w2 = drains w /\
     (exists n, (calls w2).*1 = (calls w).*1 ++ replicate n []) /\
     (forall r, consumer w2 = CReturned r ->
        (r = Some (ErrorString "reading response body: %!w(<nil>)") /\
         conds w2 = conds w ++ [None]) \/
        (exists herr, r = Some herr /\ list.last (calls w2) = Some ([], Some herr)))) /\
  (exists w2 : World,
     exec handler [EvCaller; EvClosedErr; EvCaller] (ReadStreaming_again w) = Some w2 /\
     consumer w2 = CReturned (Some (ErrorString "reading response body: %!w(<nil>)")) /\
     calls w2 = calls w).
Proof.
  intros Hexec Hret Ht Hp.
  set (h := mkResponse (Some resp) c (Some cid) false None None) in *.
  pose proof (reach_world_ok handler _ _ _ _ _ _ _ Hexec) as Hok.
  assert (world_ok h (ReadStreaming_again w)) as Hok0.
  { eapply world_ok_frame; [exact Hok|done..]. }
  assert (again_ok w (ReadStreaming_again w)) as Hag0.
  { split; [done|]. split; [done|]. by exists 0. }
  assert (forall sched2 (w2 : World),
            forallb own sched2 = true ->
            exec handler sched2 (ReadStreaming_again w) = Some w2 ->
            world_ok h w2 /\ again_ok w w2) as Hinv.
  { intros sched2 w2 Hown Hex.
    refine (exec_invariant handler own (fun w2 => world_ok h w2 /\ again_ok w w2)
              _ sched2 _ w2 Hown _ Hex); [|done].
    intros ev wa wb Hev [Hoka Haga] Hstep. split; [by eapply world_ok_step|].
    by eapply (again_step h cid ev w wa wb t). }
  assert (forall n, (oks (replicate n []) : list (bytes * option Error)).*1 = replicate n [])
    as Hoks.
  { clear. induction n as [|n IH]; [done|]. simpl. f_equal. exact IH. }
  split.
  - intros sched2 w2 Hown Hex.
    destruct (Hinv _ _ Hown Hex) as [Hok2 (Hts & Hdr & n & Hn)].
    split; [congruence|]. split; [done|].
    destruct (consumer w2) as [|d e|herr|d err|d err buf derr|r|] eqn:Hpc; try done.
    + destruct Hn as (-> & -> & _). split; [exists 0; by rewrite app_nil_r|done].
    + destruct Hn as (_ & _ & -> & _). split; [|done]. exists n. by rewrite fmap_app, Hoks.
    + destruct Hn as (-> & _). split; [|done]. exists (S n).
      rewrite !fmap_app, Hoks. simpl. f_equal.
      clear. induction n as [|n IH]; [done|]. simpl. by rewrite IH.
    + destruct Hn as (_ & -> & _). split; [|done]. exists n. by rewrite fmap_app, Hoks.
    + destruct Hn as [(herr & -> & Hca & Hco)|(-> & Hca & Hco)].
      * split.
        -- exists (S n). rewrite Hca, !fmap_app, Hoks. simpl. f_equal.
           clear. induction n as [|n IH]; [done|]. simpl. by rewrite IH.
        -- intros r [= <-]. right. exists herr. split; [done|].
           by rewrite Hca, !app_assoc, last_snoc.
      * split; [exists n; by rewrite Hca, fmap_app, Hoks|].
        intros r [= <-]. left. done.
  - assert (tasks w !! 0 = Some t) as Hi by (by rewrite Ht).
    destruct (world_ok_task _ _ _ _ Hok Hi) as (_ & _ & Ho & Hd & He & Hcl & _).
    unfold closed_of in Hcl. rewrite Hp, Hd, He in Hcl.
    destruct Hok as (_ & _ & Hcf & _ & [Hfresh|(_ & Hdc & Hec & _)]).
    { destruct Hfresh as (Hf & _). congruence. }
    eexists. split.
    + eapply exec_cons_step.
      { simpl. unfold caller_step, Read, once_Do. simpl. rewrite Ho. simpl.
        rewrite Hdc, Hec. reflexivity. }
      eapply exec_cons_step.
      { simpl. rewrite Hcl. simpl. reflexivity. }
      eapply exec_cons_step.
      { simpl. unfold caller_step, Cancel. simpl. rewrite Hcf. simpl. reflexivity. }
      reflexivity.
    + split; reflexivity.
Qed.
End Reuse.

(** ** [isOneOf] *)

(** X13.  [isOneOf] holds exactly when the error is, by [errors.Is], one of
    the listed errors; a nil error is none of them; and wrapping does not
    change how [ReadStreaming] classifies a condition: an error that wraps
    [io.EOF], [context.Canceled] or [context.DeadlineExceeded], however
    deep, is drained for like the error it wraps, and one that wraps
    [io.EOF] ends the stream cleanly. *)
Theorem isOneOf_follows_the_chain :
  (forall e errs, isOneOf e errs = true <-> exists t, t ∈ errs /\ errors_Is e t = true) /\
  (forall errs, isOneOf None errs = false) /\
  (forall msg e, recoverable (Some (WrapError msg e)) = recoverable (Some e)) /\
  (forall msg e hres,
     errors_Is (Some e) io_EOF = true ->
     recoverable (Some (WrapError msg e)) = true /\
     drained_result (Some (WrapError msg e)) hres = hres).
Proof.
  assert (forall e errs, isOneOf e errs = true <-> exists t, t ∈ errs /\ errors_Is e t = true)
    as Hspec.
  { intros e errs. induction errs as [|t errs IH]; cbn [isOneOf].
    - split; [done|]. intros (t & Hin & _). by apply elem_of_nil in Hin.
    - destruct (errors_Is e t) eqn:Ht.
      + split; [|done]. intros _. exists t. split; [apply list_elem_of_here|done].
      + rewrite IH. split.
        * intros (t' & Hin & Ht'). exists t'. split; [by apply list_elem_of_further|done].
        * intros (t' & Hin & Ht'). apply elem_of_cons in Hin as [->|Hin]; [congruence|eauto]. }
  assert (forall msg e t, (forall m x, t <> WrapError m x) ->
            errors_Is (Some (WrapError msg e)) t = errors_Is (Some e) t) as Hwrap.
  { intros msg e t Hne. cbn [errors_Is is_chain].
    rewrite bool_decide_eq_false_2; [done|]. intros Heq. by eapply Hne. }
  split; [exact Hspec|]. split; [|split].
  - intros errs. by induction errs.
  - intros msg e. unfold recoverable. cbn [isOneOf]. by rewrite !Hwrap.
  - intros msg e hres He. split.
    + unfold recoverable. cbn [isOneOf]. rewrite Hwrap, He; done.
    + unfold drained_result. rewrite Hwrap, He by done. by destruct hres.
Qed.

(** ** The contexts of the exchanges of a client *)

Lemma ctx_done_ids cs c :
  ctx_done cs c = true <-> exists id, id ∈ ctx_ids c /\ id ∈ cs.
Proof.
  induction c as [|id parent IH]; simpl.
  - split; [done|]. intros (id & Hin & _). by apply elem_of_nil in Hin.
  - rewrite orb_true_iff, bool_decide_eq_true, IH. split.
    + intros [Hin|(id' & Hin & Hcs)]; [exists id|exists id']; split;
        first [done|apply list_elem_of_here|by apply list_elem_of_further].
    + intros (id' & Hin & Hcs). apply elem_of_cons in Hin as [->|Hin]; [by left|right; eauto].
Qed.

(** Pulling a trigger the context does not listen to leaves it as it is. *)
Lemma ctx_done_other cs c k :
  k ∉ ctx_ids c -> ctx_done (cs ++ [k]) c = ctx_done cs c.
Proof.
  intros Hk. apply eq_true_iff_eq. rewrite !ctx_done_ids. split.
  - intros (id & Hin & Hcs). apply elem_of_app in Hcs as [Hcs|Hcs]; [eauto|].
    apply list_elem_of_singleton in Hcs as ->. done.
  - intros (id & Hin & Hcs). exists id. split; [done|]. apply elem_of_app. by left.
Qed.

Section Exchanges.
Context {R : Type}.
Variable http_Do : HTTPRequest -> option (HTTPResponse R) * option Error.

(** What [Do] returns when it returns a handle. *)
Lemma Do_handle (cc : Client) (resource : Requester) (rt rt' : Runtime R) h e :
  Do http_Do cc resource rt = ((Some h, e), rt') ->
  cancelFunc h = Some (next_ctx rt) /\ next_ctx rt' = S (next_ctx rt) /\
  once h = false /\ dataCh h = None /\ errCh h = None /\
  (Context h = None \/ Context h = Some (WithCancel (next_ctx rt) (ctx cc))) /\
  (e = None -> Context h = Some (WithCancel (next_ctx rt) (ctx cc)) /\
               exists req, Request resource (serverURL cc) = Ok req /\
                 (http_Do (WithClientConfig cc (WithCancel (next_ctx rt) (ctx cc)) req)).1
                   = Response_ h).
Proof.
  unfold Do. destruct (Request resource (serverURL cc)) as [req|err]; [|done].
  destruct (http_Do _) as [resp [err|]] eqn:Hd; intros [= <- <- <-]; simpl;
    split_and!; try done; eauto.
  intros _. split; [done|]. exists req. by rewrite Hd.
Qed.

(** X14.  The exchanges of one client are canceled independently: two calls
    of [Do] that return handles give them different cancel triggers; [Cancel]
    on a handle makes its own context done and leaves the context of the
    other handle and the context of the client as they are; and the context
    of the client being done makes the context of every handle done. *)
Theorem exchanges_cancel_independently (cc : Client) (r1 r2 : Requester)
    (rt rt1 rt2 : Runtime R) h1 e1 h2 e2 :
  fresh_for rt (ctx cc) ->
  Do http_Do cc r1 rt = ((Some h1, e1), rt1) ->
  Do http_Do cc r2 rt1 = ((Some h2, e2), rt2) ->
  exists k1 k2,
    cancelFunc h1 = Some k1 /\ cancelFunc h2 = Some k2 /\ k1 <> k2 /\
    (forall cs, ctx_done (cs ++ [k1]) (ctx cc) = ctx_done cs (ctx cc) /\
                ctx_done (cs ++ [k2]) (ctx cc) = ctx_done cs (ctx cc)) /\
    (forall c1, Context h1 = Some c1 ->
       forall cs, ctx_done (cs ++ [k1]) c1 = true /\
                  ctx_done (cs ++ [k2]) c1 = ctx_done cs c1 /\
                  (ctx_done cs (ctx cc) = true -> ctx_done cs c1 = true)) /\
    (forall c2, Context h2 = Some c2 ->
       forall cs, ctx_done (cs ++ [k2]) c2 = true /\
                  ctx_done (cs ++ [k1]) c2 = ctx_done cs c2 /\
                  (ctx_done cs (ctx cc) = true -> ctx_done cs c2 = true)).
Proof.
  intros Hfresh H1 H2.
  destruct (Do_handle _ _ _ _ _ _ H1) as (Hk1 & Hn1 & _ & _ & _ & Hc1 & _).
  destruct (Do_handle _ _ _ _ _ _ H2) as (Hk2 & Hn2 & _ & _ & _ & Hc2 & _).
  rewrite Hn1 in Hk2, Hc2.
  set (k := next_ctx rt) in *.
  assert (k ∉ ctx_ids (ctx cc)) as Hf1.
  { intros Hin. specialize (Hfresh _ Hin). unfold k in Hfresh. lia. }
  assert (S k ∉ ctx_ids (ctx cc)) as Hf2.
  { intros Hin. specialize (Hfresh _ Hin). unfold k in Hfresh. lia. }
  assert (forall cs (a b : nat) p, a <> b -> b ∉ ctx_ids p ->
            ctx_done (cs ++ [a]) (WithCancel a p) = true /\
            ctx_done (cs ++ [b]) (WithCancel a p) = ctx_done cs (WithCancel a p) /\
            (ctx_done cs p = true -> ctx_done cs (WithCancel a p) = true)) as Hchild.
  { intros cs a b p Hab Hb. split_and!.
    - simpl. rewrite bool_decide_eq_true_2; [done|]. apply elem_of_app. right.
      apply list_elem_of_here.
    - apply ctx_done_other. simpl. intros [->|Hin]%elem_of_cons; done.
    - simpl. intros ->. apply orb_true_r. }
  exists k, (S k). split; [done|]. split; [done|]. split; [lia|]. split; [|split].
  - intros cs. split; by apply ctx_done_other.
  - intros c1 Hctx cs. destruct Hc1 as [Hc1|Hc1]; [congruence|].
    assert (c1 = WithCancel k (ctx cc)) as -> by congruence.
    apply Hchild; [lia|done].
  - intros c2 Hctx cs. destruct Hc2 as [Hc2|Hc2]; [congruence|].
    assert (c2 = WithCancel (S k) (ctx cc)) as -> by congruence.
    apply Hchild; [lia|done].
Qed.
End Exchanges.

(** X15.  [Do] and then [ReadAll]: on the handle of a successful exchange
    whose response carries a body, when neither the client's context nor the
    new context is canceled, some schedule of the caller and the goroutine
    alone takes [ReadAll] to its return; and whenever [ReadAll] has returned
    (nobody else using the handle) the context [Do] made for the exchange is
    done: consuming the response releases it. *)
Theorem Do_then_ReadAll (http_Do : HTTPRequest -> option (HTTPResponse Reader) * option Error)
    (cc : Client) (resource : Requester) (rt rt' : Runtime Reader) h cs :
  Do http_Do cc resource rt = ((Some h, None), rt') ->
  Response_ h <> None ->
  ctx_done cs (ctx cc) = false -> next_ctx rt ∉ cs ->
  exists c,
    Context h = Some c /\
    (exists sched (w : World Reader LineScanner Buffer) out serr,
       forallb quiet sched = true /\
       exec ReadAll_handler sched (ReadAll_start h cs) = Some w /\
       ReadAll_result w = Some (out, serr)) /\
    (forall sched (w : World Reader LineScanner Buffer) out serr,
       forallb own sched = true ->
       exec ReadAll_handler sched (ReadAll_start h cs) = Some w ->
       ReadAll_result w = Some (out, serr) ->
       ctx_done (canceled w) c = true).
Proof.
  intros HDo Hresp Hcc Hk.
  destruct (Do_handle _ _ _ _ _ _ _ HDo) as (Hcf & _ & Ho & Hd & He & _ & Hctx).
  destruct (Hctx eq_refl) as [Hc _].
  destruct h as [[[status r]|] c0 cf o d e0]; simpl in *; [|done]. subst.
  eexists. split; [done|]. split.
  - destruct (line_scans_total (bufio_NewScanner r)) as (toks & s' & Hscans).
    assert (ctx_done cs (WithCancel (next_ctx rt) (ctx cc)) = false) as Hnd.
    { simpl. rewrite Hcc. by rewrite bool_decide_eq_false_2. }
    destruct (ReadStreaming_can_return ReadAll_handler
                (mkHTTPResponse status r) _ (next_ctx rt) cs newBuffer _ toks s'
                Hscans Hnd (ReadAll_handler_accepts _ _))
      as (sched & w & res & Hq & Hex & Hret & _).
    exists sched, w, (Buffer_Bytes (hstate w)), res. split_and!; try done.
    unfold ReadAll_result. by rewrite Hret.
  - intros sched w out serr Hown Hex Hres. unfold ReadAll_result in Hres.
    destruct (consumer w) as [| | | | |res|] eqn:Hret; try done.
    destruct (reach_own_ok ReadAll_handler _ _ _ _ _ _ _ Hown Hex) as [_ Hown_ok].
    destruct Hown_ok as [(_ & _ & Hpc & _)|(t & _ & Hcok)]; [congruence|].
    unfold caller_ok in Hcok. rewrite Hret in Hcok. destruct Hcok as [Hin _].
    simpl. by rewrite bool_decide_eq_true_2.
Qed.

(** ** Requests of resources (resource.go) *)

Section ResourceFacts.
Variable json_Marshal : Payload -> result bytes.
Variable http_NewRequest : string -> string -> bytes -> result HTTPRequest.
Variable URL_ResolveReference : URL -> URL -> URL.
Variable URL_String : URL -> string.
Variable CanonicalMIMEHeaderKey : string -> string.
Variable range : gmap string string -> list (string * string).

Local Abbreviation canon := CanonicalMIMEHeaderKey.
Local Abbreviation Header_Set' := (Header_Set CanonicalMIMEHeaderKey).
Local Abbreviation Header_Get' := (Header_Get CanonicalMIMEHeaderKey).
Local Abbreviation set_headers' := (set_headers CanonicalMIMEHeaderKey).
Local Abbreviation createRequest' :=
  (createRequest json_Marshal http_NewRequest CanonicalMIMEHeaderKey range).
Local Abbreviation Resource_Request' :=
  (Resource_Request json_Marshal http_NewRequest URL_ResolveReference URL_String
     CanonicalMIMEHeaderKey range).

Lemma header_lookup_other k k' h :
  k' <> k ->
  header_lookup k' (List.filter (fun p : string * string => negb (bool_decide (p.1 = k))) h)
  = header_lookup k' h.
Proof.
  intros Hne. induction h as [|[a v] h IH]; simpl; [done|].
  destruct (bool_decide (a = k)) eqn:Hak; simpl.
  - apply bool_decide_eq_true in Hak as ->. by rewrite bool_decide_eq_false_2 by congruence.
  - by rewrite IH.
Qed.

Lemma Header_Set_lookup key v req k' :
  header_lookup k' (req_Header (Header_Set' key v req)) =
  if bool_decide (canon key = k') then Some v else header_lookup k' (req_Header req).
Proof.
  simpl. case_bool_decide as Hk; [done|]. apply header_lookup_other. congruence.
Qed.

Lemma set_headers_snoc hs p req :
  set_headers' (hs ++ [p]) req = Header_Set' p.1 p.2 (set_headers' hs req).
Proof. unfold set_headers. by rewrite foldl_app. Qed.

Lemma set_headers_keeps hs req :
  req_Method (set_headers' hs req) = req_Method req /\
  req_URL (set_headers' hs req) = req_URL req /\
  req_Body (set_headers' hs req) = req_Body req /\
  req_ctx (set_headers' hs req) = req_ctx req /\
  req_trace (set_headers' hs req) = req_trace req.
Proof.
  induction hs as [|p hs IH] using rev_ind; [done|].
  rewrite set_headers_snoc. simpl. exact IH.
Qed.

(** After the loop a key holds the value of the last entry visited whose
    name has this canonical form, or what it held before. *)
Lemma set_headers_lookup hs req k :
  header_lookup k (req_Header (set_headers' hs req)) =
  match list.last (List.filter (fun p : string * string => bool_decide (canon p.1 = k)) hs) with
  | Some p => Some p.2
  | None => header_lookup k (req_Header req)
  end.
Proof.
  induction hs as [|p hs IH] using rev_ind; [done|].
  rewrite set_headers_snoc, Header_Set_lookup, List.filter_app. simpl.
  case_bool_decide; simpl.
  - by rewrite last_snoc.
  - by rewrite app_nil_r.
Qed.

Lemma filter_unique_key hs n v k :
  NoDup (canon <$> hs.*1) -> (n, v) ∈ hs -> canon n = k ->
  List.filter (fun p : string * string => bool_decide (canon p.1 = k)) hs = [(n, v)].
Proof.
  intros Hnd Hin <-. induction hs as [|[a w] hs IH]; [by apply elem_of_nil in Hin|].
  simpl in Hnd. apply NoDup_cons in Hnd as [Hfresh Hnd]. simpl.
  apply elem_of_cons in Hin as [[= <- <-]|Hin].
  - rewrite bool_decide_eq_true_2 by done. f_equal.
    clear IH Hnd. induction hs as [|[b u] hs IH]; [done|]. simpl in *.
    apply not_elem_of_cons in Hfresh as [Hne Hfresh].
    rewrite bool_decide_eq_false_2 by congruence. auto.
  - rewrite bool_decide_eq_false_2; [by apply IH|].
    intros Heq. apply Hfresh. rewrite Heq.
    apply list_elem_of_fmap. exists n. split; [done|].
    apply list_elem_of_fmap. by exists (n, v).
Qed.

Lemma filter_no_key hs k :
  k ∉ (canon <$> hs.*1) ->
  List.filter (fun p : string * string => bool_decide (canon p.1 = k)) hs = [].
Proof.
  induction hs as [|[a w] hs IH]; [done|]. simpl.
  intros [Hne Hnot]%not_elem_of_cons.
  rewrite bool_decide_eq_false_2 by congruence. auto.
Qed.

(** What [createRequest] has built when it returns a request. *)
Lemma createRequest_built method url payload (headers : gmap string string) req :
  (forall m, range m ≡ₚ map_to_list m) ->
  createRequest' method url payload headers = Ok req ->
  exists byt req0,
    json_Marshal payload = Ok byt /\ http_NewRequest method url byt = Ok req0 /\
    req_Method req = req_Method req0 /\ req_URL req = req_URL req0 /\
    req_Body req = req_Body req0 /\ req_ctx req = req_ctx req0 /\
    (NoDup (canon <$> (map_to_list headers).*1) ->
     (forall n v, headers !! n = Some v -> Header_Get' n req = Some v) /\
     (forall k, (forall n, is_Some (headers !! n) -> canon n <> canon k) ->
                Header_Get' k req = Header_Get' k req0)).
Proof.
  intros range_visits. unfold createRequest.
  destruct (json_Marshal payload) as [byt|e]; [|done].
  unfold Buffer_Bytes, bytes_NewBuffer.
  destruct (http_NewRequest method url byt) as [req0|e] eqn:Hn; [|done].
  intros [= <-]. exists byt, req0. split; [done|]. split; [exact Hn|].
  destruct (set_headers_keeps (range headers) req0) as (-> & -> & -> & -> & _).
  do 4 (split; [done|]). intros Hnd.
  assert (NoDup (canon <$> (range headers).*1)) as Hnd'.
  { by rewrite (range_visits headers). }
  split.
  - intros n v Hl. unfold Header_Get. rewrite set_headers_lookup.
    rewrite (filter_unique_key _ n v); [by rewrite last_singleton|done| |done].
    rewrite (range_visits headers). by apply elem_of_map_to_list.
  - intros k Hk. unfold Header_Get. rewrite set_headers_lookup.
    rewrite filter_no_key; [done|].
    intros Hin. apply list_elem_of_fmap in Hin as (n & Heq & Hin).
    apply list_elem_of_fmap in Hin as ([n' v] & -> & Hin).
    rewrite (range_visits headers) in Hin. apply elem_of_map_to_list in Hin.
    apply (Hk n'); [by eexists|done].
Qed.

(** X16.  A [range] loop visiting every entry of a map once, in some
    order: [createRequest] wraps the error of [json.Marshal] or of
    [http.NewRequest] and builds nothing then; otherwise the request is the
    one [http.NewRequest] made (method, URL, body) with the headers of the
    resource set.  When no two names of the header map have the same
    canonical form, every header of the map is on the request with its
    value, whatever the order in which the map is visited, and the other
    headers are as [http.NewRequest] left them.  When two names do have the
    same canonical form, the one visited last wins: the header then depends
    on the iteration order. *)
Theorem createRequest_sets_the_headers method url payload (headers : gmap string string) :
  (forall m, range m ≡ₚ map_to_list m) ->
  match createRequest json_Marshal http_NewRequest canon range method url payload headers with
  | Err err =>
      (exists e, json_Marshal payload = Err e /\
                 err = WrapError "ksql request: unmarshaling query: " e) \/
      (exists byt e, json_Marshal payload = Ok byt /\
                     http_NewRequest method url byt = Err e /\
                     err = WrapError "ksql request: creating HTTP request: " e)
  | Ok req =>
      exists byt req0,
        json_Marshal payload = Ok byt /\ http_NewRequest method url byt = Ok req0 /\
        req_Method req = req_Method req0 /\ req_URL req = req_URL req0 /\
        req_Body req = req_Body req0 /\ req_ctx req = req_ctx req0 /\
        (NoDup (canon <$> (map_to_list headers).*1) ->
         (forall n v, headers !! n = Some v -> Header_Get canon n req = Some v) /\
         (forall k, (forall n, is_Some (headers !! n) -> canon n <> canon k) ->
                    Header_Get canon k req = Header_Get canon k req0))
  end /\
  (forall a va b vb req0,
     canon a = canon b ->
     Header_Get canon a (set_headers canon [(a, va); (b, vb)] req0) = Some vb /\
     Header_Get canon a (set_headers canon [(b, vb); (a, va)] req0) = Some va).
Proof.
  intros range_visits. split.
  - destruct (createRequest' method url payload headers) as [req|err] eqn:Hc.
    + by eapply createRequest_built.
    + unfold createRequest in Hc.
      destruct (json_Marshal payload) as [byt|e]; [|injection Hc as <-; left; eauto].
      unfold Buffer_Bytes, bytes_NewBuffer in Hc.
      destruct (http_NewRequest method url byt) as [req0|e] eqn:Hn; [done|].
      injection Hc as <-. right. eauto.
  - intros a va b vb req0 Hab. unfold Header_Get.
    rewrite !set_headers_lookup. simpl.
    rewrite !bool_decide_eq_true_2 by congruence. done.
Qed.

Lemma is_chain_refl e : is_chain e e = true.
Proof. destruct e; cbn [is_chain]; by rewrite bool_decide_eq_true_2. Qed.

Lemma is_chain_wrap msg e cause : is_chain e cause = true -> is_chain (WrapError msg e) cause = true.
Proof. intros H. cbn [is_chain]. rewrite H. by case_bool_decide. Qed.

Lemma DefaultHeaders_entries :
  map_to_list DefaultHeaders ≡ₚ
    [("Content-Type", "application/vnd.ksql.v1+json; charset=utf-8");
     ("Accept", "application/vnd.ksql.v1+json")].
Proof.
  unfold DefaultHeaders.
  rewrite map_to_list_insert by done.
  rewrite map_to_list_insert by done.
  by rewrite map_to_list_empty.
Qed.

(** X17.  [Do] on a statement or a query: when the request cannot be built,
    [Do] returns no handle, makes no context, and the error it returns still
    has the library's error in its chain; when it can, the request the
    transport gets is the POST request [http.NewRequest] made for the
    endpoint ("/ksql" or "/query") resolved on the server's address, with the
    JSON of the payload as body, both default headers set whatever the order
    in which the map is visited, and the context [Do] derived attached; and
    [Do] returns a handle whose cancel trigger is the one of that context. *)
Theorem Do_sends_statements_and_queries {R : Type}
    (http_Do : HTTPRequest -> option (HTTPResponse R) * option Error)
    (cc : Client) (rt : Runtime R) ksql (rr : Resource) path :
  (forall m, range m ≡ₚ map_to_list m) ->
  canon "Content-Type" = "Content-Type" -> canon "Accept" = "Accept" ->
  (rr = NewStatement ksql /\ path = "/ksql") \/ (rr = NewQuery ksql /\ path = "/query") ->
  let url := URL_String (URL_ResolveReference (serverURL cc) (mkURL "" "" "" path "" "")) in
  let requester :=
    Resource_Requester json_Marshal http_NewRequest URL_ResolveReference URL_String
      CanonicalMIMEHeaderKey range rr in
  match Request requester (serverURL cc) with
  | Err err =>
      Do http_Do cc requester rt = ((None, Some (WrapError "sending ksql request: " err)), rt) /\
      exists cause,
        errors_Is (Some (WrapError "sending ksql request: " err)) cause = true /\
        (json_Marshal (mkPayload ksql [] 0) = Err cause \/
         exists byt, json_Marshal (mkPayload ksql [] 0) = Ok byt /\
                     http_NewRequest "POST" url byt = Err cause)
  | Ok req =>
      exists byt req0 h,
        json_Marshal (mkPayload ksql [] 0) = Ok byt /\
        http_NewRequest "POST" url byt = Ok req0 /\
        let sent := WithClientConfig cc (WithCancel (next_ctx rt) (ctx cc)) req in
        req_Method sent = req_Method req0 /\ req_URL sent = req_URL req0 /\
        req_Body sent = req_Body req0 /\
        req_ctx sent = Some (WithCancel (next_ctx rt) (ctx cc)) /\
        Header_Get' "Content-Type" sent =
          Some "application/vnd.ksql.v1+json; charset=utf-8" /\
        Header_Get' "Accept" sent = Some "application/vnd.ksql.v1+json" /\
        (Do http_Do cc requester rt).1.1 = Some h /\
        cancelFunc h = Some (next_ctx rt) /\ Response_ h =
          match (http_Do sent).2 with None => (http_Do sent).1 | Some _ => None end
  end.
Proof.
  intros range_visits Hct Hacc Hrr url requester.
  assert (res_Payload rr = mkPayload ksql [] 0 /\ res_Method rr = "POST" /\
          res_Headers rr = DefaultHeaders /\
          Endpoint_URL (res_Endpoint rr) = mkURL "" "" "" path "" "") as (Hp & Hm & Hh & He).
  { destruct Hrr as [[-> ->]|[-> ->]]; done. }
  assert (Request requester (serverURL cc) =
          createRequest' "POST" url (mkPayload ksql [] 0) DefaultHeaders) as HReq.
  { unfold requester, Resource_Requester, Resource_Request, On. simpl.
    by rewrite Hp, Hm, Hh, He. }
  rewrite HReq.
  destruct (createRequest' "POST" url (mkPayload ksql [] 0) DefaultHeaders)
    as [req|err] eqn:Hc.
  - destruct (createRequest_built _ _ _ _ _ range_visits Hc)
      as (byt & req0 & Hj & Hn & Hme & Hu & Hb & _ & Hhdr).
    destruct Hhdr as [Hget _].
    { rewrite DefaultHeaders_entries. simpl. rewrite Hct, Hacc.
      apply NoDup_cons. split; [|apply NoDup_singleton].
      intros Hin. by apply list_elem_of_singleton in Hin. }
    assert (Header_Get' "Content-Type" req =
              Some "application/vnd.ksql.v1+json; charset=utf-8") as Hg1.
    { apply Hget. unfold DefaultHeaders. by rewrite lookup_insert. }
    assert (Header_Get' "Accept" req = Some "application/vnd.ksql.v1+json") as Hg2.
    { apply Hget. unfold DefaultHeaders.
      rewrite lookup_insert_ne by done. by rewrite lookup_insert. }
    assert (forall c, req_Header (WithClientConfig cc c req) = req_Header req /\
                      req_Method (WithClientConfig cc c req) = req_Method req /\
                      req_URL (WithClientConfig cc c req) = req_URL req /\
                      req_Body (WithClientConfig cc c req) = req_Body req /\
                      req_ctx (WithClientConfig cc c req) = Some c) as Hwc.
    { intros c. unfold WithClientConfig.
      destruct (HTTPTrace cc) as [tr|]; [destruct (ClientTrace_ tr)|]; done. }
    destruct (Hwc (WithCancel (next_ctx rt) (ctx cc))) as (Hw1 & Hw2 & Hw3 & Hw4 & Hw5).
    assert (exists h, (Do http_Do cc requester rt).1.1 = Some h /\
              cancelFunc h = Some (next_ctx rt) /\
              Response_ h =
                match (http_Do (WithClientConfig cc (WithCancel (next_ctx rt) (ctx cc)) req)).2
                with
                | None => (http_Do (WithClientConfig cc (WithCancel (next_ctx rt) (ctx cc)) req)).1
                | Some _ => None
                end) as (h & Hh1 & Hh2 & Hh3).
    { unfold Do. rewrite HReq.
      destruct (http_Do _) as [resp [e|]]; simpl; eauto. }
    exists byt, req0, h. split; [done|]. split; [done|]. simpl.
    unfold Header_Get in *. rewrite Hw1, Hw2, Hw3, Hw4, Hw5.
    split_and!; try done; congruence.
  - split; [unfold Do; by rewrite HReq|].
    unfold createRequest in Hc.
    destruct (json_Marshal (mkPayload ksql [] 0)) as [byt|e] eqn:Hj.
    + unfold Buffer_Bytes, bytes_NewBuffer in Hc.
      destruct (http_NewRequest "POST" url byt) as [req0|e] eqn:Hn; [done|].
      injection Hc as <-. exists e. split; [|right; eauto].
      unfold errors_Is. apply is_chain_wrap, is_chain_wrap, is_chain_refl.
    + injection Hc as <-. exists e. split; [|by left].
      unfold errors_Is. apply is_chain_wrap, is_chain_wrap, is_chain_refl.
Qed.
End ResourceFacts.

(** ** The further properties at sample inputs *)

Lemma ReadStreaming_never_deadlocks_witness :
  exists w,
    exec accept_all [EvCaller; EvTask 0] (start (live_handle body_ab io_EOF) [] tt) = Some w /\
    ((exists res, consumer w = CReturned res) \/
     (exists ev, quiet ev = true /\ is_Some (step accept_all ev w))).
Proof.
  set (w := after accept_all [EvCaller; EvTask 0] (start (live_handle body_ab io_EOF) [] tt)).
  assert (exec accept_all [EvCaller; EvTask 0] (start (live_handle body_ab io_EOF) [] tt)
          = Some w) as Hexec by (by vm_compute).
  exists w. split; [exact Hexec|].
  exact (ReadStreaming_never_deadlocks accept_all _ _ _ _ _ [EvCaller; EvTask 0] w
           eq_refl Hexec).
Defined.

Lemma reader_leaks_after_handler_error_witness :
  exists w,
    exec (reject (bytes_of "b")) sched_rejected
      (start (live_handle body_abc io_EOF) [] tt) = Some w /\
    consumer w = CReturned (Some (ErrorString "rejected")) /\ conds w = [] /\
    exists t herr,
      tasks w = [t] /\ Some (ErrorString "rejected") = Some herr /\ 0 ∈ canceled w /\
      closed w = [] /\ t_cond t = None.
Proof.
  set (w := after (reject (bytes_of "b")) sched_rejected
              (start (live_handle body_abc io_EOF) [] tt)).
  assert (exec (reject (bytes_of "b")) sched_rejected
            (start (live_handle body_abc io_EOF) [] tt) = Some w) as Hexec by (by vm_compute).
  assert (consumer w = CReturned (Some (ErrorString "rejected"))) as Hret by (by vm_compute).
  assert (conds w = []) as Hconds by (by vm_compute).
  exists w. split; [exact Hexec|]. split; [exact Hret|]. split; [exact Hconds|].
  destruct (reader_leaks_after_handler_error (reject (bytes_of "b")) _ _ _ _ _
              sched_rejected w _
              eq_refl Hexec Hret Hconds) as (t & herr & Ht & Hres & Hcan & Hcl & Hc & _).
  exists t, herr. split; [exact Ht|]. split; [exact Hres|]. split; [exact Hcan|].
  split; [exact Hcl|exact Hc].
Defined.

Lemma canceled_before_start_reads_nothing_witness :
  exists w,
    exec accept_all sched_precanceled (start (live_handle body_ab io_EOF) [0] tt) = Some w /\
    consumer w = CReturned (Some (WrapError "reading response body: " context_Canceled)) /\
    (forall t, t ∈ tasks w ->
       t_units t = [] /\ t_sent t = [] /\
       t_scanner t = bufio_NewScanner (mkReader body_ab io_EOF true)).
Proof.
  set (w := after accept_all sched_precanceled (start (live_handle body_ab io_EOF) [0] tt)).
  assert (exec accept_all sched_precanceled (start (live_handle body_ab io_EOF) [0] tt)
          = Some w) as Hexec by (by vm_compute).
  exists w. split; [exact Hexec|]. split; [by vm_compute|].
  exact (proj1 (canceled_before_start_reads_nothing accept_all _ (WithCancel 0 Background) 0
                  [0] tt sched_precanceled w eq_refl eq_refl Hexec)).
Defined.

Lemma failed_handle_never_delivers_witness :
  exists w : World Reader LineScanner unit,
    exec accept_all [EvCaller; EvPeerRead] (start (failed_handle 0) [] tt) = Some w /\
    consumer w = CPanic /\ tasks w = [] /\ closed w = [] /\ received w = [].
Proof.
  set (w := after accept_all [EvCaller; EvPeerRead]
              (start (failed_handle 0) [] tt : World Reader LineScanner unit)).
  assert (exec accept_all [EvCaller; EvPeerRead] (start (failed_handle 0) [] tt) = Some w)
    as Hexec by (by vm_compute).
  exists w. split; [exact Hexec|]. split; [by vm_compute|].
  destruct (failed_handle_never_delivers accept_all _ _ _ _ _ w Hexec) as (Ht & Hcl & Hrc & _).
  split; [exact Ht|]. split; [exact Hcl|exact Hrc].
Defined.

Lemma line_records_are_newline_free_witness :
  exists w t,
    exec accept_all sched_streamed (start (live_handle body_ab io_EOF) [] tt) = Some w /\
    t ∈ tasks w /\
    t_sent t = [bytes_of "a"; bytes_of "b"] /\
    (forall byt, byt ∈ t_sent t ++ pending (t_pc t) ->
       byt <> [] /\ (NL ∉ byt) /\ byt ∈ t_units t) /\
    (forall tok, tok ∈ t_flushed t -> tok = [] /\ filterSend tok = false).
Proof.
  set (w := after accept_all sched_streamed (start (live_handle body_ab io_EOF) [] tt)).
  assert (exec accept_all sched_streamed (start (live_handle body_ab io_EOF) [] tt) = Some w)
    as Hexec by (by vm_compute).
  assert (exists t, tasks w = [t] /\ t_sent t = [bytes_of "a"; bytes_of "b"]) as (t & Ht & Hs).
  { eexists. split; by vm_compute. }
  assert (t ∈ tasks w) as Hin by (rewrite Ht; apply list_elem_of_here).
  exists w, t. split; [exact Hexec|]. split; [exact Hin|]. split; [exact Hs|].
  destruct (line_records_are_newline_free accept_all _ _ _ _ _ _ sched_streamed w t
              Hexec Hin) as (_ & Hfl & Hsent).
  split; [exact Hsent|exact Hfl].
Defined.

Lemma line_drain_collects_nothing_witness :
  exists w,
    exec accept_all sched_streamed (start (live_handle body_ab io_EOF) [] tt) = Some w /\
    consumer w = CReturned None /\ drains w = 1 /\
    exists recs hres cond,
      calls w = oks recs ++ [(newBuffer, hres)] /\ conds w = [Some cond] /\
      None = drained_result (Some cond) hres.
Proof.
  set (w := after accept_all sched_streamed (start (live_handle body_ab io_EOF) [] tt)).
  assert (exec accept_all sched_streamed (start (live_handle body_ab io_EOF) [] tt) = Some w)
    as Hexec by (by vm_compute).
  exists w. split; [exact Hexec|]. split; [by vm_compute|]. split; [by vm_compute|].
  exact (proj2 (line_drain_collects_nothing accept_all _ _ _ _ _ _ sched_streamed w
                  eq_refl Hexec)
           None eq_refl eq_refl).
Defined.

Lemma ReadAll_after_scan_witness :
  exists w,
    exec ReadAll_handler sched_streamed (ReadAll_start (live_handle body_ab io_EOF) [])
      = Some w /\
    ReadAll_result w = Some (Buffer_Bytes (hstate w), None) /\
    Buffer_Bytes (hstate w) =
      newBuffer ++ concat (List.filter filterSend [bytes_of "a"; bytes_of "b"]) ++
      (if recoverable (Some io_EOF) then newBuffer else []).
Proof.
  set (w := after ReadAll_handler sched_streamed
              (ReadAll_start (live_handle body_ab io_EOF) [])).
  assert (exec ReadAll_handler sched_streamed (ReadAll_start (live_handle body_ab io_EOF) [])
          = Some w) as Hexec by (by vm_compute).
  assert (ReadAll_result w = Some (Buffer_Bytes (hstate w), None)) as Hres by (by vm_compute).
  assert (scans (bufio_NewScanner (mkReader body_ab io_EOF true))
            [bytes_of "a"; bytes_of "b"]
            (mkLineScanner [] io_EOF [] (Some io_EOF) true)) as Hscans.
  { apply (scan_all_scans 10). by vm_compute. }
  assert (held_in_place (mkReader body_ab io_EOF true)) as Hheld.
  { unfold held_in_place, bufio_startBufSize. simpl. lia. }
  exists w. split; [exact Hexec|]. split; [exact Hres|].
  assert (io_EOF <> context_Canceled) as Hnc by discriminate.
  exact (proj1 (proj2 (ReadAll_after_scan 200 (mkReader body_ab io_EOF true) _ _ _ 0 []
                         sched_streamed w _ _ io_EOF Hheld Hscans eq_refl Hexec Hres
                         eq_refl Hnc))).
Defined.

Lemma ReadAll_can_always_return_witness :
  ctx_done [] (WithCancel 0 Background) = false /\
  exists sched (w : World Reader LineScanner Buffer) out serr,
    forallb quiet sched = true /\
    exec ReadAll_handler sched (ReadAll_start (live_handle body_ab io_EOF) []) = Some w /\
    ReadAll_result w = Some (out, serr).
Proof.
  split; [reflexivity|].
  exact (ReadAll_can_always_return 200 (mkReader body_ab io_EOF true)
           (WithCancel 0 Background) 0 [] eq_refl).
Defined.

(** The run of [sched_too_long] on a body that is one line too long for the
    scanner. *)
Lemma exec_too_long data :
  index_nl data = None -> (MaxScanTokenSize < N.of_nat (length data))%N ->
  exists w,
    exec accept_all sched_too_long (start (live_handle data io_EOF) [] tt) = Some w /\
    consumer w = CReturned (Some (WrapError "reading response body: " bufio_ErrTooLong)) /\
    conds w = [Some bufio_ErrTooLong] /\ calls w = [].
Proof.
  intros Hi Hl.
  assert (line_Scan (mkLineScanner data io_EOF [] None true) =
            (false, mkLineScanner data io_EOF [] (Some bufio_ErrTooLong) true)) as Hscan.
  { unfold line_Scan, last_line_too_long. cbn [ls_err ls_rest ls_end ls_end_with_data].
    rewrite Hi. by rewrite bool_decide_eq_true_2. }
  eexists. split.
  - unfold sched_too_long.
    eapply exec_cons_step; [simpl; reflexivity|].
    eapply exec_cons_step.
    { simpl. unfold task_step. simpl. rewrite Hscan. simpl. reflexivity. }
    eapply exec_cons_step.
    { simpl. unfold recv_err, send_err. simpl. reflexivity. }
    eapply exec_cons_step.
    { simpl. unfold caller_step, Cancel. simpl. reflexivity. }
    reflexivity.
  - split; [reflexivity|]. split; reflexivity.
Qed.

Lemma line_too_long_ends_streaming_witness :
  exists w,
    exec accept_all sched_too_long (start (live_handle long_line io_EOF) [] tt) = Some w /\
    consumer w = CReturned (Some (WrapError "reading response body: " bufio_ErrTooLong)) /\
    drains w = 0 /\ (calls w).*2 = replicate (length (List.filter filterSend [])) None.
Proof.
  assert (index_nl long_line = None) as Hi by (vm_compute; reflexivity).
  assert (MaxScanTokenSize < N.of_nat (length long_line))%N as Hl
    by (vm_compute; reflexivity).
  destruct (exec_too_long long_line Hi Hl) as (w & Hexec & Hret & Hconds & _).
  assert (MaxScanTokenSize <
          N.of_nat (length (ls_rest (bufio_NewScanner (mkReader long_line io_EOF true)))))%N
    as Hlong by exact Hl.
  assert (NL ∉ take (N.to_nat MaxScanTokenSize)
                 (ls_rest (bufio_NewScanner (mkReader long_line io_EOF true)))) as Hnl.
  { apply index_nl_None. vm_compute. reflexivity. }
  assert (bufio_ErrTooLong <> context_Canceled) as Hnc by discriminate.
  exists w. split; [exact Hexec|]. split; [exact Hret|].
  exact (proj2 (proj2 (line_too_long_ends_streaming accept_all 200
                         (mkReader long_line io_EOF true) [] _
                         _ 0 [] tt sched_too_long w _ bufio_ErrTooLong
                         (scan_run_nil _) Hlong Hnl eq_refl Hexec Hret Hconds Hnc))).
Defined.

Lemma reader_released_after_condition_witness :
  exists w,
    exec accept_all sched_streamed (start (live_handle body_ab io_EOF) [] tt) = Some w /\
    consumer w = CReturned None /\ conds w = [Some io_EOF] /\
    exists n (w' : World Reader LineScanner unit) t',
      n <= 2 /\ exec accept_all (replicate n (EvTask 0)) w = Some w' /\
      tasks w' = [t'] /\ t_pc t' = RDone /\ closed w' = [0; 1] /\
      consumer w' = CReturned None.
Proof.
  set (w := after accept_all sched_streamed (start (live_handle body_ab io_EOF) [] tt)).
  assert (exec accept_all sched_streamed (start (live_handle body_ab io_EOF) [] tt) = Some w)
    as Hexec by (by vm_compute).
  assert (consumer w = CReturned None) as Hret by (by vm_compute).
  assert (conds w = [Some io_EOF]) as Hconds by (by vm_compute).
  exists w. split; [exact Hexec|]. split; [exact Hret|]. split; [exact Hconds|].
  exact (reader_released_after_condition accept_all _ _ _ _ _ _ sched_streamed w _ _
           eq_refl Hexec Hret Hconds).
Defined.

Lemma second_ReadStreaming_on_finished_handle_witness :
  exists w t,
    exec accept_all sched_finished (start (live_handle body_ab io_EOF) [] tt) = Some w /\
    consumer w = CReturned None /\ tasks w = [t] /\ t_pc t = RDone /\
    exists w2 : World Reader LineScanner unit,
      exec accept_all [EvCaller; EvClosedErr; EvCaller] (ReadStreaming_again w) = Some w2 /\
      consumer w2 = CReturned (Some (ErrorString "reading response body: %!w(<nil>)")) /\
      calls w2 = calls w.
Proof.
  set (w := after accept_all sched_finished (start (live_handle body_ab io_EOF) [] tt)).
  assert (exec accept_all sched_finished (start (live_handle body_ab io_EOF) [] tt) = Some w)
    as Hexec by (by vm_compute).
  assert (consumer w = CReturned None) as Hret by (by vm_compute).
  assert (exists t, tasks w = [t] /\ t_pc t = RDone) as (t & Ht & Hp).
  { eexists. split; by vm_compute. }
  exists w, t. split; [exact Hexec|]. split; [exact Hret|]. split; [exact Ht|].
  split; [exact Hp|].
  exact (proj2 (second_ReadStreaming_on_finished_handle accept_all _ _ _ _ _ sched_finished
                  w _ t Hexec Hret Ht Hp)).
Defined.

Lemma handler_sees_records_in_order_witness :
  exists w,
    exec accept_all [EvCaller; EvTask 0; EvRecvData 0]
      (start (live_handle body_ab io_EOF) [] tt) = Some w /\
    exists recs tail,
      (calls w).*1 = recs ++ tail /\
      recs `prefix_of` List.filter filterSend [bytes_of "a"; bytes_of "b"] /\
      (tail = [] \/ exists D, tail = [newBuffer ++ concat D] /\ drains w = 1).
Proof.
  set (w := after accept_all [EvCaller; EvTask 0; EvRecvData 0]
              (start (live_handle body_ab io_EOF) [] tt)).
  assert (exec accept_all [EvCaller; EvTask 0; EvRecvData 0]
            (start (live_handle body_ab io_EOF) [] tt) = Some w) as Hexec by (by vm_compute).
  assert (scans (bufio_NewScanner (mkReader body_ab io_EOF true))
            [bytes_of "a"; bytes_of "b"]
            (mkLineScanner [] io_EOF [] (Some io_EOF) true)) as Hscans.
  { apply (scan_all_scans 10). by vm_compute. }
  assert (held_in_place (mkReader body_ab io_EOF true)) as Hheld.
  { unfold held_in_place, bufio_startBufSize. simpl. lia. }
  exists w. split; [exact Hexec|].
  exact (proj1 (handler_sees_records_in_order accept_all 200 (mkReader body_ab io_EOF true)
                  _ 0 [] tt _ _ [EvCaller; EvTask 0; EvRecvData 0] w Hheld Hscans
                  eq_refl Hexec)).
Defined.

Lemma exchanges_cancel_independently_witness :
  exists h1 h2 rt1 rt2 k1 k2,
    Do network_up sample_client good_requester (mkRuntime 0 []) = ((Some h1, None), rt1) /\
    Do network_up sample_client good_requester rt1 = ((Some h2, None), rt2) /\
    cancelFunc h1 = Some k1 /\ cancelFunc h2 = Some k2 /\ k1 <> k2.
Proof.
  assert (fresh_for (mkRuntime 0 [] : Runtime Reader) (ctx sample_client)) as Hfresh.
  { intros id Hin. by apply elem_of_nil in Hin. }
  pose (r1 := Do network_up sample_client good_requester (mkRuntime 0 [])).
  pose (r2 := Do network_up sample_client good_requester r1.2).
  assert (exists h1, r1 = ((Some h1, None), r1.2)) as [h1 H1] by (eexists; reflexivity).
  assert (exists h2, r2 = ((Some h2, None), r2.2)) as [h2 H2] by (eexists; reflexivity).
  destruct (exchanges_cancel_independently network_up sample_client good_requester
              good_requester (mkRuntime 0 []) r1.2 r2.2 h1 None h2 None Hfresh H1 H2)
    as (k1 & k2 & Hk1 & Hk2 & Hne & _).
  exists h1, h2, r1.2, r2.2, k1, k2.
  split; [exact H1|]. split; [exact H2|]. split; [exact Hk1|]. split; [exact Hk2|exact Hne].
Defined.

Lemma Do_then_ReadAll_witness :
  exists h rt' c,
    Do network_up sample_client good_requester (mkRuntime 0 []) = ((Some h, None), rt') /\
    Context h = Some c /\
    exists sched (w : World Reader LineScanner Buffer) out serr,
      forallb quiet sched = true /\
      exec ReadAll_handler sched (ReadAll_start h []) = Some w /\
      ReadAll_result w = Some (out, serr).
Proof.
  pose (r := Do network_up sample_client good_requester (mkRuntime 0 [])).
  assert (exists h, r = ((Some h, None), r.2) /\ Response_ h <> None) as (h & HDo & Hresp).
  { eexists. split; [reflexivity|]. simpl. discriminate. }
  assert (0 ∉ ([] : list nat)) as Hk by apply not_elem_of_nil.
  destruct (Do_then_ReadAll network_up sample_client good_requester (mkRuntime 0 []) r.2 h []
              HDo Hresp eq_refl Hk) as (c & Hc & Hcan & _).
  exists h, r.2, c. split; [exact HDo|]. split; [exact Hc|exact Hcan].
Defined.

Lemma createRequest_sets_the_headers_witness :
  match createRequest sample_Marshal sample_NewRequest sample_canon map_to_list
          "POST" "http://0.0.0.0:8088/ksql" (mkPayload "SHOW STREAMS;" [] 0) DefaultHeaders
  with
  | Err _ => False
  | Ok req =>
      Header_Get sample_canon "Accept" req = Some "application/vnd.ksql.v1+json" /\
      Header_Get sample_canon "Content-Type" req
        = Some "application/vnd.ksql.v1+json; charset=utf-8"
  end.
Proof.
  assert (forall m : gmap string string, map_to_list m ≡ₚ map_to_list m) as Hrange by done.
  pose proof (proj1 (createRequest_sets_the_headers sample_Marshal sample_NewRequest
                       sample_canon map_to_list "POST" "http://0.0.0.0:8088/ksql"
                       (mkPayload "SHOW STREAMS;" [] 0) DefaultHeaders Hrange)) as H.
  lazy beta iota delta [createRequest sample_Marshal sample_NewRequest] in H.
  lazy beta iota delta [createRequest sample_Marshal sample_NewRequest].
  destruct H as (byt & req0 & _ & _ & _ & _ & _ & _ & Hhdr).
  destruct Hhdr as [Hget _].
  { rewrite DefaultHeaders_entries. simpl.
    apply NoDup_cons. split; [|apply NoDup_singleton].
    intros Hin. by apply list_elem_of_singleton in Hin. }
  split; apply Hget; unfold DefaultHeaders.
  - rewrite lookup_insert_ne by done. by rewrite lookup_insert.
  - by rewrite lookup_insert.
Defined.

Lemma Do_sends_statements_and_queries_witness :
  match Request (Resource_Requester sample_Marshal sample_NewRequest sample_Resolve
                   sample_String sample_canon map_to_list (NewStatement "SHOW STREAMS;"))
          (serverURL sample_client)
  with
  | Err _ => False
  | Ok req =>
      Header_Get sample_canon "Accept"
        (WithClientConfig sample_client (WithCancel 0 Background) req)
        = Some "application/vnd.ksql.v1+json" /\
      req_ctx (WithClientConfig sample_client (WithCancel 0 Background) req)
        = Some (WithCancel 0 Background)
  end.
Proof.
  assert (forall m : gmap string string, map_to_list m ≡ₚ map_to_list m) as Hrange by done.
  pose proof (Do_sends_statements_and_queries sample_Marshal sample_NewRequest sample_Resolve
                sample_String sample_canon map_to_list network_up sample_client
                (mkRuntime 0 []) "SHOW STREAMS;" (NewStatement "SHOW STREAMS;") "/ksql"
                Hrange eq_refl eq_refl (or_introl (conj eq_refl eq_refl))) as H.
  lazy beta iota zeta delta [Request Resource_Requester Resource_Request createRequest
                             sample_Marshal sample_NewRequest] in H.
  lazy beta iota zeta delta [Request Resource_Requester Resource_Request createRequest
                             sample_Marshal sample_NewRequest].
  destruct H as (byt & req0 & h & _ & _ & _ & _ & _ & Hctx & _ & Hacc & _).
  split; [exact Hacc|exact Hctx].
Defined.
